(** * QuickGrab: transaction lifecycle and message notifier

    A shallow embedding of the escrow transaction routes
    ([app/api/transactions/...]) and of the client-side message poller
    ([lib/services/message-notifier.ts]), with the properties of the
    lifecycle specification stated and settled against them.

    Conventions of the embedding:
    - a Prisma table is a finite map from the row id to the row; the message
      table is a list, because the queries on it filter, order and truncate;
    - an instant ([Date], ISO string, [DateTime] column) is the number of
      milliseconds since the epoch, a [Z];
    - a [Float] column is an IEEE binary64 [float], an [Int] column a [Z]
      (the range of the column is not modelled); a character of a string
      stands for one UTF-16 code unit;
    - columns that the store maintains by itself ([updatedAt]) are not part
      of the modelled rows: the schema is not among the sources;
    - an [async] route body is a computation over a [World] that holds the
      database, the wall clock and the schedule of store failures; an
      exception is the outcome [Thrown], which the route's [catch] turns
      into a 500 response. *)

From Stdlib Require Import ZArith Floats Uint63 String.
From stdpp Require Import base option list gmap strings pretty sorting.

Open Scope string_scope.
Open Scope list_scope.
Open Scope Z_scope.

(** ** Data model (the rows the routes read and write) *)

Inductive TransactionStatus :=
  | REQUESTED | ACCEPTED | PAID | MEETING | COMPLETED | CANCELLED | REFUNDED.

#[global] Instance TransactionStatus_eq_dec : EqDecision TransactionStatus.
Proof. solve_decision. Defined.

(** The text a status interpolates to in a template literal. *)
Definition status_name (s : TransactionStatus) : string :=
  match s with
  | REQUESTED => "REQUESTED" | ACCEPTED => "ACCEPTED" | PAID => "PAID"
  | MEETING => "MEETING" | COMPLETED => "COMPLETED"
  | CANCELLED => "CANCELLED" | REFUNDED => "REFUNDED"
  end.

Record User := mkUser {
  u_id : string;
  u_name : string;
  u_verificationStatus : string;
  u_avgRating : float;
  u_completedDeals : Z;
  u_cancellationRate : float;
  u_trustScore : Z;
  u_badges : list string
}.

Record Item := mkItem {
  i_id : string;
  i_name : string;
  i_availabilityStatus : string
}.

Record Transaction := mkTransaction {
  t_id : string;
  t_buyerId : string;
  t_sellerId : string;
  t_itemId : string;
  t_status : TransactionStatus;
  t_paymentId : option string;
  t_meetupLocation : option string;
  t_countdownStart : option Z;
  t_countdownEnd : option Z
}.

Record Message := mkMessage {
  m_id : string;
  m_transactionId : string;
  m_senderId : string;
  m_content : string;
  m_createdAt : Z
}.

Record Db := mkDb {
  transactions : gmap string Transaction;
  items : gmap string Item;
  users : gmap string User;
  messages : list Message
}.

(** ** The [data] argument of [prisma.<model>.update]:
    a field that is absent from the object is left as it is. *)

Record TransactionData := mkTransactionData {
  d_status : option TransactionStatus;
  d_paymentId : option string;
  d_meetupLocation : option string;
  d_countdownStart : option Z;
  d_countdownEnd : option Z
}.

Record ItemData := mkItemData {
  d_availabilityStatus : option string
}.

Record UserData := mkUserData {
  d_completedDeals : option Z;
  d_cancellationRate : option float;
  d_trustScore : option Z;
  d_badges : option (list string)
}.

(** [{}]: no field is written. *)
Definition noTransactionData : TransactionData :=
  mkTransactionData None None None None None.

Definition setField {A} (new : option A) (old : A) : A := default old new.
Definition setNullable {A} (new : option A) (old : option A) : option A :=
  match new with Some v => Some v | None => old end.

Definition applyTransactionData (d : TransactionData) (t : Transaction) : Transaction :=
  {| t_id := t_id t;
     t_buyerId := t_buyerId t;
     t_sellerId := t_sellerId t;
     t_itemId := t_itemId t;
     t_status := setField (d_status d) (t_status t);
     t_paymentId := setNullable (d_paymentId d) (t_paymentId t);
     t_meetupLocation := setNullable (d_meetupLocation d) (t_meetupLocation t);
     t_countdownStart := setNullable (d_countdownStart d) (t_countdownStart t);
     t_countdownEnd := setNullable (d_countdownEnd d) (t_countdownEnd t) |}.

Definition applyItemData (d : ItemData) (i : Item) : Item :=
  {| i_id := i_id i;
     i_name := i_name i;
     i_availabilityStatus := setField (d_availabilityStatus d) (i_availabilityStatus i) |}.

Definition applyUserData (d : UserData) (u : User) : User :=
  {| u_id := u_id u;
     u_name := u_name u;
     u_verificationStatus := u_verificationStatus u;
     u_avgRating := u_avgRating u;
     u_completedDeals := setField (d_completedDeals d) (u_completedDeals u);
     u_cancellationRate := setField (d_cancellationRate d) (u_cancellationRate u);
     u_trustScore := setField (d_trustScore d) (u_trustScore u);
     u_badges := setField (d_badges d) (u_badges u) |}.

Definition withTransactions (f : gmap string Transaction → gmap string Transaction) (d : Db) : Db :=
  mkDb (f (transactions d)) (items d) (users d) (messages d).
Definition withItems (f : gmap string Item → gmap string Item) (d : Db) : Db :=
  mkDb (transactions d) (f (items d)) (users d) (messages d).
Definition withUsers (f : gmap string User → gmap string User) (d : Db) : Db :=
  mkDb (transactions d) (items d) (f (users d)) (messages d).

(** ** The world a route runs in *)

Record World := mkWorld {
  db : Db;
  (** one flag per store call still to come; [true]: that call throws;
      an exhausted schedule means no further failure *)
  faults : list bool;
  (** the wall clock, and by how much it moves after each reading *)
  clock : Z;
  drift : list Z
}.

Inductive Outcome (A : Type) :=
  | Returned (a : A)
  | Thrown.
Arguments Returned {A} a.
Arguments Thrown {A}.

Definition Async (A : Type) : Type := World → Outcome A * World.

#[global] Instance Async_ret : MRet Async := λ A a w, (Returned a, w).
#[global] Instance Async_bind : MBind Async := λ A B k m w,
  match m w with
  | (Returned a, w') => k a w'
  | (Thrown, w') => (Thrown, w')
  end.

Definition throw {A} : Async A := λ w, (Thrown, w).

(** [Date.now()] and [new Date()]: both read the wall clock. *)
Definition Date_now : Async Z := λ w,
  (Returned (clock w),
   mkWorld (db w) (faults w) (clock w + hd 0 (drift w)) (tl (drift w))).

(** One round trip to the store: it throws when the schedule says so and
    when the query itself is rejected. *)
Definition storeCall {A} (query : Db → option (A * Db)) : Async A := λ w,
  match faults w with
  | true :: fs => (Thrown, mkWorld (db w) fs (clock w) (drift w))
  | fs =>
      match query (db w) with
      | Some (a, d') => (Returned a, mkWorld d' (tl fs) (clock w) (drift w))
      | None => (Thrown, mkWorld (db w) (tl fs) (clock w) (drift w))
      end
  end.

(** ** The Prisma calls the routes make *)

Module prisma.

(** [findUnique({ where: { id } })] *)
Definition transaction_findUnique (id : string) : Async (option Transaction) :=
  storeCall (λ d, Some (transactions d !! id, d)).

(** [findUnique({ where: { id }, include: { seller, buyer, item } })]:
    the row with the three rows its foreign keys point to. The relations
    are required ones; a dangling key makes the query fail. *)
Definition transaction_findUnique_include (id : string)
  : Async (option (Transaction * User * User * Item)) :=
  storeCall (λ d,
    match transactions d !! id with
    | None => Some (None, d)
    | Some t =>
        s ← users d !! t_sellerId t;
        b ← users d !! t_buyerId t;
        i ← items d !! t_itemId t;
        Some (Some (t, s, b, i), d)
    end).

(** [update({ where: { id }, data })]: throws when no row has the id. *)
Definition transaction_update (id : string) (data : TransactionData) : Async Transaction :=
  storeCall (λ d,
    t ← transactions d !! id;
    let t' := applyTransactionData data t in
    Some (t', withTransactions <[id := t']> d)).

Definition item_update (id : string) (data : ItemData) : Async Item :=
  storeCall (λ d,
    i ← items d !! id;
    let i' := applyItemData data i in
    Some (i', withItems <[id := i']> d)).

Definition user_update (id : string) (data : UserData) : Async User :=
  storeCall (λ d,
    u ← users d !! id;
    let u' := applyUserData data u in
    Some (u', withUsers <[id := u']> d)).

End prisma.

(** ** Requests, responses and what the routes import *)

(** The [after] query parameter once [new Date(...)] has read it. *)
Inductive DateParam :=
  | ValidDate (ms : Z)
  | InvalidDate.

(** The time values a [Date] can hold: 8.64e15 ms on either side of the
    epoch. [new Date(ms)] is an Invalid Date for a number outside. *)
Definition Date_range (ms : Z) : Prop :=
  -8640000000000000 ≤ ms ≤ 8640000000000000.

#[global] Instance Date_range_dec ms : Decision (Date_range ms).
Proof. unfold Date_range. apply _. Defined.

Record Request {Json : Type} := mkRequest {
  header_authorization : option string;
  param_id : string;
  (** [None]: the body is not JSON, [request.json()] throws *)
  body : option Json;
  query_after : option DateParam;
  query_status : option string
}.
Arguments Request : clear implicits.
Arguments mkRequest {Json}.

(** A transaction as it travels in the body of a response. The list route
    writes [otherParty] and [role]; the notifier's interface declares [buyer]
    and [seller]. A property the sender did not write is [undefined] for the
    reader, here [None]. *)
Record Party := mkParty {
  p_id : string;
  p_name : string
}.

Record LatestMessage := mkLatestMessage {
  lm_id : string;
  lm_content : string;
  lm_senderId : string;
  lm_senderName : string;
  lm_createdAt : Z
}.

Record TransactionJson := mkTransactionJson {
  j_id : string;
  j_status : option TransactionStatus;
  j_meetupLocation : option string;
  j_itemName : option string;
  j_buyer : option Party;
  j_seller : option Party;
  j_otherParty : option Party;
  j_latestMessage : option LatestMessage;
  j_role : option string
}.

Inductive Payload :=
  | JError (error : string)
  | JValidationFailed
  | JTransaction (message : string) (transaction : Transaction)
  | JPaid (message : string) (transaction : Transaction)
          (countdown_start countdown_end hoursRemaining : Z)
  | JReceived (message : string) (transaction : Transaction)
              (nextStep : string) (ratingRequired : bool)
  | JMessages (msgs : list Message) (count : nat)
  | JTransactions (txs : list TransactionJson) (count : nat).

Record Response := mkResponse {
  r_status : Z;
  r_json : Payload
}.

(** Modules of the repository that the routes import and that are not among
    the sources: [lib/auth], [lib/validators], [lib/services/trust-engine],
    the [jsonwebtoken] package and the built-in [String.prototype.toUpperCase].
    They are parameters of the development. A validator is represented by
    what the route reads off [safeParse]: [success], and the parsed [data]
    where the route uses it. *)
Class Externals := {
  Json : Type;
  getUserFromRequest : Request Json → option string;
  verify : string → string → option string;
  env_JWT_SECRET : option string;
  markReceivedSchema : string → Json → bool;
  markPaidSchema : string → Json → bool;
  confirmDeliverySchema : string → Json → bool;
  setMeetupSchema : Json → option string;
  payTransactionSchema : Json → option (string * string);
  String_toUpperCase : string → string;
  calculateTrustScore : string → float → Z → float → Z;
  getEarnedBadges : Z → float → float → list string
}.

(** [!userId]: [null], [undefined] and the empty string are falsy. *)
Definition truthy (s : option string) : option string :=
  match s with
  | Some u => if decide (u = "") then None else Some u
  | None => None
  end.

(** The conversion of an [Int] column to the number it is in an arithmetic
    expression. *)
Definition number (z : Z) : float :=
  if (z <? 0)%Z then (- PrimFloat.of_uint63 (Uint63.of_Z (- z)))%float
  else PrimFloat.of_uint63 (Uint63.of_Z z).

Definition error (status : Z) (msg : string) : Response :=
  mkResponse status (JError msg).

(** [try { ... } catch (error) { return 500 }] around a route body. *)
Definition try_catch (body : Async Response) (w : World) : Response * World :=
  match body w with
  | (Returned r, w') => (r, w')
  | (Thrown, w') => (error 500 "Internal server error", w')
  end.

Definition request_json `{Externals} (request : Request Json) : Async Json :=
  match body request with
  | Some j => mret j
  | None => throw
  end.

(** *** POST /api/transactions/pay *)
Module Pay.
Section Route.
Context `{Externals}.

Definition JWT_SECRET : string :=
  match truthy env_JWT_SECRET with
  | Some s => s
  | None => "quickgrab-secret-key-change-in-production"
  end.

Definition MEETUP_TIMEOUT_HOURS : Z := 24.

Definition getUserFromRequest (request : Request Json) : option string :=
  match header_authorization request with
  | Some authHeader =>
      if String.prefix "Bearer " authHeader
      then verify (String.substring 7 (String.length authHeader - 7) authHeader) JWT_SECRET
      else None
  | None => None
  end.

Definition POST (request : Request Json) : World → Response * World :=
  try_catch (
    match truthy (getUserFromRequest request) with
    | None => mret (error 401 "Unauthorized")
    | Some userId =>
    body ← request_json request;
    match payTransactionSchema body with
    | None => mret (mkResponse 400 JValidationFailed)
    | Some (transactionId, paymentId) =>
    found ← prisma.transaction_findUnique transactionId;
    match found with
    | None => mret (error 404 "Transaction not found")
    | Some transaction =>
    if decide (t_buyerId transaction ≠ userId)
    then mret (error 403 "Only the buyer can pay for this transaction")
    else if decide (t_status transaction ≠ ACCEPTED)
    then mret (error 400 ("Cannot pay for transaction in "
                          +:+ status_name (t_status transaction) +:+ " status"))
    else
    countdownStart ← Date_now;
    now ← Date_now;
    let countdownEnd := now + MEETUP_TIMEOUT_HOURS * 60 * 60 * 1000 in
    updatedTransaction ← prisma.transaction_update transactionId
      (mkTransactionData (Some PAID) (Some paymentId) None
                         (Some countdownStart) (Some countdownEnd));
    mret (mkResponse 200
            (JPaid "Payment secured in escrow. Please arrange meetup."
                   updatedTransaction countdownStart countdownEnd
                   MEETUP_TIMEOUT_HOURS))
    end end end).

End Route.
End Pay.

(** *** POST /api/transactions/[id]/meetup *)
Module Meetup.
Section Route.
Context `{Externals}.

Definition POST (request : Request Json) : World → Response * World :=
  try_catch (
    match truthy (getUserFromRequest request) with
    | None => mret (error 401 "Unauthorized")
    | Some userId =>
    let transactionId := param_id request in
    body ← request_json request;
    match setMeetupSchema body with
    | None => mret (mkResponse 400 JValidationFailed)
    | Some location =>
    found ← prisma.transaction_findUnique transactionId;
    match found with
    | None => mret (error 404 "Transaction not found")
    | Some transaction =>
    if decide (t_buyerId transaction ≠ userId ∧ t_sellerId transaction ≠ userId)
    then mret (error 403 "You are not part of this transaction")
    else if negb (bool_decide (t_status transaction ∈ [REQUESTED; ACCEPTED]))
    then mret (error 400 ("Cannot set meetup location for transaction in "
                          +:+ status_name (t_status transaction) +:+ " status"))
    else
    updatedTransaction ← prisma.transaction_update transactionId
      (mkTransactionData (Some MEETING) None (Some location) None None);
    mret (mkResponse 200
            (JTransaction "Meetup location set successfully" updatedTransaction))
    end end end).

End Route.
End Meetup.

(** *** POST /api/transactions/[id]/mark-paid *)
Module MarkPaid.
Section Route.
Context `{Externals}.

Definition POST (request : Request Json) : World → Response * World :=
  try_catch (
    match truthy (getUserFromRequest request) with
    | None => mret (error 401 "Unauthorized")
    | Some userId =>
    let transactionId := param_id request in
    body ← request_json request;
    if negb (markPaidSchema transactionId body)
    then mret (mkResponse 400 JValidationFailed)
    else
    found ← prisma.transaction_findUnique transactionId;
    match found with
    | None => mret (error 404 "Transaction not found")
    | Some transaction =>
    if decide (t_buyerId transaction ≠ userId)
    then mret (error 403 "Only the buyer can mark payment as done")
    else if decide (t_status transaction ≠ MEETING)
    then mret (error 400 ("Cannot mark payment for transaction in "
                          +:+ status_name (t_status transaction)
                          +:+ " status. Must be MEETING."))
    else
    updatedTransaction ← prisma.transaction_update transactionId
      (mkTransactionData (Some PAID) (Some "physical_payment") None None None);
    mret (mkResponse 200 (JTransaction "Payment marked as done" updatedTransaction))
    end end).

End Route.
End MarkPaid.

(** *** POST /api/transactions/[id]/confirm-delivery *)
Module ConfirmDelivery.
Section Route.
Context `{Externals}.

Definition POST (request : Request Json) : World → Response * World :=
  try_catch (
    match truthy (getUserFromRequest request) with
    | None => mret (error 401 "Unauthorized")
    | Some userId =>
    let transactionId := param_id request in
    body ← request_json request;
    if negb (confirmDeliverySchema transactionId body)
    then mret (mkResponse 400 JValidationFailed)
    else
    found ← prisma.transaction_findUnique_include transactionId;
    match found with
    | None => mret (error 404 "Transaction not found")
    | Some (transaction, _, _, _) =>
    if decide (t_sellerId transaction ≠ userId)
    then mret (error 403 "Only the seller can confirm delivery")
    else if decide (t_status transaction ≠ PAID ∧ t_status transaction ≠ MEETING)
    then mret (error 400 ("Cannot confirm delivery for transaction in "
                          +:+ status_name (t_status transaction)
                          +:+ " status. Must be PAID or MEETING."))
    else
    updatedTransaction ← prisma.transaction_update transactionId
      (if decide (t_status transaction = PAID)
       then mkTransactionData (Some MEETING) None None None None
       else noTransactionData);
    mret (mkResponse 200
            (JTransaction "Delivery confirmed successfully" updatedTransaction))
    end end).

End Route.
End ConfirmDelivery.

(** *** POST /api/transactions/[id]/mark-received *)
Module MarkReceived.
Section Route.
Context `{Externals}.

Definition POST (request : Request Json) : World → Response * World :=
  try_catch (
    match truthy (getUserFromRequest request) with
    | None => mret (error 401 "Unauthorized")
    | Some userId =>
    let transactionId := param_id request in
    body ← request_json request;
    if negb (markReceivedSchema transactionId body)
    then mret (mkResponse 400 JValidationFailed)
    else
    found ← prisma.transaction_findUnique_include transactionId;
    match found with
    | None => mret (error 404 "Transaction not found")
    | Some (transaction, seller, buyer, _) =>
    if decide (t_buyerId transaction ≠ userId)
    then mret (error 403 "Only the buyer can mark item as received")
    else if decide (t_status transaction ≠ PAID)
    then mret (error 400 ("Cannot mark item as received for transaction in "
                          +:+ status_name (t_status transaction)
                          +:+ " status. Must be PAID."))
    else
    updatedTransaction ← prisma.transaction_update transactionId
      (mkTransactionData (Some COMPLETED) None None None None);
    _ ← prisma.item_update (t_itemId transaction) (mkItemData (Some "SOLD"));
    let newCompletedDeals := u_completedDeals seller + 1 in
    let newCancellationRate :=
      (u_cancellationRate seller * number (u_completedDeals seller)
         / number newCompletedDeals)%float in
    let newTrustScore :=
      calculateTrustScore (u_verificationStatus seller) (u_avgRating seller)
                          newCompletedDeals newCancellationRate in
    let newBadges :=
      getEarnedBadges newCompletedDeals (u_avgRating seller) newCancellationRate in
    _ ← prisma.user_update (t_sellerId transaction)
          (mkUserData (Some newCompletedDeals) (Some newCancellationRate)
                      (Some newTrustScore) (Some newBadges));
    _ ← prisma.user_update (t_buyerId transaction)
          (mkUserData (Some (u_completedDeals buyer + 1)) None None None);
    mret (mkResponse 200
            (JReceived "Item marked as received. Transaction completed!"
                       updatedTransaction "Please rate the seller" true))
    end end).

End Route.
End MarkReceived.

(** *** GET /api/transactions/[id]/messages/new *)
Module NewMessages.
Section Route.
Context `{Externals}.

(** [orderBy: { createdAt: "asc" }] *)
Definition createdAt_asc (a b : Message) : Prop := m_createdAt a ≤ m_createdAt b.

#[global] Instance createdAt_asc_dec a b : Decision (createdAt_asc a b).
Proof. unfold createdAt_asc. apply _. Defined.

(** The [where] object: the transaction id, and [createdAt: { gt }] when the
    route has set it. *)
Definition matches (transactionId : string) (gt : option Z) (msg : Message) : bool :=
  bool_decide (m_transactionId msg = transactionId)
  && match gt with
     | Some bound => bool_decide (bound < m_createdAt msg)
     | None => true
     end.

(** [findMany({ where, orderBy: { createdAt: "asc" }, take })] on the message
    table. An invalid [Date] in the filter is rejected by the client
    library, which throws. *)
Definition message_findMany (transactionId : string) (gt : option (option Z)) (n : nat)
  : Async (list Message) :=
  storeCall (λ d,
    match gt with
    | Some None => None
    | Some (Some bound) =>
        Some (take n (merge_sort createdAt_asc
                        (filter (λ m, matches transactionId (Some bound) m = true) (messages d))), d)
    | None =>
        Some (take n (merge_sort createdAt_asc
                        (filter (λ m, matches transactionId None m = true) (messages d))), d)
    end).

(** [new Date(afterDate.getTime() - 500)]: an invalid date stays invalid,
    and a valid one within 500 ms of the lower end of the range gives an
    invalid one. *)
Definition lowerBound (after : DateParam) : option Z :=
  match after with
  | ValidDate ms => if decide (Date_range (ms - 500)) then Some (ms - 500) else None
  | InvalidDate => None
  end.

Definition GET (request : Request Json) : World → Response * World :=
  try_catch (
    match truthy (getUserFromRequest request) with
    | None => mret (error 401 "Unauthorized")
    | Some userId =>
    let transactionId := param_id request in
    let afterTimestamp := query_after request in
    found ← prisma.transaction_findUnique transactionId;
    match found with
    | None => mret (error 404 "Transaction not found")
    | Some transaction =>
    if decide (t_buyerId transaction ≠ userId ∧ t_sellerId transaction ≠ userId)
    then mret (error 403 "You are not part of this transaction")
    else
    msgs ← message_findMany transactionId (lowerBound <$> afterTimestamp) 50;
    mret (mkResponse 200 (JMessages msgs (length msgs)))
    end end).

End Route.
End NewMessages.

(** *** GET /api/transactions *)
Module Transactions.
Section Route.
Context `{Externals}.

Definition status_of_name (s : string) : option TransactionStatus :=
  list_find (λ st, status_name st = s)
    [REQUESTED; ACCEPTED; PAID; MEETING; COMPLETED; CANCELLED; REFUNDED]
  ≫= λ r, Some r.2.

(** [orderBy: { createdAt: "desc" }] of the included messages *)
Definition createdAt_desc (a b : Message) : Prop := m_createdAt b ≤ m_createdAt a.

#[global] Instance createdAt_desc_dec a b : Decision (createdAt_desc a b).
Proof. unfold createdAt_desc. apply _. Defined.

(** One row of the answer of [findMany] with its [include]s. *)
Record Included := mkIncluded {
  inc_transaction : Transaction;
  inc_buyer : User;
  inc_seller : User;
  inc_item : Item;
  inc_messages : list (Message * User)
}.

Definition include (d : Db) (t : Transaction) : option Included :=
  b ← users d !! t_buyerId t;
  s ← users d !! t_sellerId t;
  i ← items d !! t_itemId t;
  ms ← mapM (λ m, u ← users d !! m_senderId m; Some (m, u))
        (take 1 (merge_sort createdAt_desc
                   (filter (λ m, m_transactionId m = t_id t) (messages d))));
  Some (mkIncluded t b s i ms).

(** [findMany({ where, orderBy: { updatedAt: "desc" }, include })]. The
    [updatedAt] column is kept by the store and is not part of the modelled
    row: the rows come in the order of the table. A [status] that is not a
    value of the enum is rejected by the client library. *)
Definition transaction_findMany (userId : string) (status : option string)
  : Async (list Included) :=
  storeCall (λ d,
    let party := filter (λ t, t_buyerId t = userId ∨ t_sellerId t = userId)
                   ((map_to_list (transactions d)).*2) in
    rows ← match status with
           | None => Some party
           | Some name =>
               st ← status_of_name name;
               Some (filter (λ t, t_status t = st) party)
           end;
    found ← mapM (include d) rows;
    Some (found, d)).

Definition format (userId : string) (row : Included) : TransactionJson :=
  let transaction := inc_transaction row in
  let latestMessage := head (inc_messages row) in
  let otherParty :=
    if decide (t_buyerId transaction = userId) then inc_seller row else inc_buyer row in
  {| j_id := t_id transaction;
     j_status := Some (t_status transaction);
     j_meetupLocation := t_meetupLocation transaction;
     j_itemName := Some (i_name (inc_item row));
     j_buyer := None;
     j_seller := None;
     j_otherParty := Some (mkParty (u_id otherParty) (u_name otherParty));
     j_latestMessage :=
       (λ '(m, sender), mkLatestMessage (m_id m) (m_content m) (m_senderId m)
                                          (u_name sender) (m_createdAt m))
       <$> latestMessage;
     j_role := Some (if decide (t_buyerId transaction = userId) then "buyer" else "seller") |}.

Definition GET (request : Request Json) : World → Response * World :=
  try_catch (
    match truthy (getUserFromRequest request) with
    | None => mret (error 401 "Unauthorized")
    | Some userId =>
    let status := query_status request in
    let where_status :=
      match status with
      | Some s => if decide (s ≠ "" ∧ s ≠ "all") then Some (String_toUpperCase s) else None
      | None => None
      end in
    rows ← transaction_findMany userId where_status;
    let formattedTransactions := format userId <$> rows in
    mret (mkResponse 200
            (JTransactions formattedTransactions (length formattedTransactions)))
    end).

End Route.
End Transactions.

(** ** The message notifier (lib/services/message-notifier.ts) *)

(** What [await fetch(...)] followed by [res.ok] and [res.json()] comes to. *)
Inductive Fetched (A : Type) :=
  | Rejected          (** the promise rejects: [fetch] or [json()] throws *)
  | NotOk             (** [!res.ok] *)
  | Ok (data : A).
Arguments Rejected {A}.
Arguments NotOk {A}.
Arguments Ok {A} data.

(** The page the notifier runs in. [fetch_transactions token] is
    [GET /api/transactions] and [fetch_new token id after] is
    [GET /api/transactions/id/messages/new?after=...]; the property
    [transactions] or [messages] may be missing from the body. *)
Record Browser := mkBrowser {
  document_hidden : bool;
  localStorage_token : option string;
  fetch_transactions : string → Fetched (option (list TransactionJson));
  fetch_new : string → string → option Z → Fetched (option (list Message));
  (** [new Date()] when the call begins, and the time the pass takes *)
  page_clock : Z;
  elapsed : Z
}.

Record Toast := mkToast {
  toast_type : string;
  title : string;
  message : string;
  actionUrl : string;
  actionLabel : string;
  duration : Z
}.

Record MessageNotifier := mkMessageNotifier {
  isRunning : bool;
  intervalId : bool;
  lastCheckTime : option Z;
  currentUserId : option string;
  activeTransactionIds : gset string;
  lastMessageTimestamps : gmap string Z
}.

(** [export const messageNotifier = new MessageNotifier()] *)
Definition messageNotifier : MessageNotifier :=
  mkMessageNotifier false false None None ∅ ∅.

(** What a pass does to the outside, in order. *)
Inductive Event :=
  | Fetch_transactions
  | Fetch_new (transactionId : string) (after : option Z)
              (answer : Fetched (option (list Message)))
  | ShowToast (toast : Toast)
  | Console_error.

(** The loop, or one turn of it: [finished] is [false] when it threw. *)
Record Pass := mkPass {
  finished : bool;
  this : MessageNotifier;
  events : list Event
}.

Module MessageNotifier.

Definition set_lastMessageTimestamps (id : string) (createdAt : Z)
    (self : MessageNotifier) : MessageNotifier :=
  mkMessageNotifier (isRunning self) (intervalId self) (lastCheckTime self)
    (currentUserId self) (activeTransactionIds self)
    (<[id := createdAt]> (lastMessageTimestamps self)).

Definition set_lastCheckTime (now : Z) (self : MessageNotifier) : MessageNotifier :=
  mkMessageNotifier (isRunning self) (intervalId self) (Some now)
    (currentUserId self) (activeTransactionIds self) (lastMessageTimestamps self).

Definition stop (self : MessageNotifier) : MessageNotifier :=
  mkMessageNotifier false false (lastCheckTime self) (currentUserId self)
    (activeTransactionIds self) ∅.

Definition setActiveTransaction (transactionId : string) (self : MessageNotifier)
  : MessageNotifier :=
  mkMessageNotifier (isRunning self) (intervalId self) (lastCheckTime self)
    (currentUserId self) ({[transactionId]} ∪ activeTransactionIds self)
    (lastMessageTimestamps self).

Definition removeActiveTransaction (transactionId : string) (self : MessageNotifier)
  : MessageNotifier :=
  mkMessageNotifier (isRunning self) (intervalId self) (lastCheckTime self)
    (currentUserId self) (activeTransactionIds self ∖ {[transactionId]})
    (lastMessageTimestamps self).

(** [this.lastMessageTimestamps.get(transaction.id) || this.lastCheckTime] *)
Definition lastKnownTime (self : MessageNotifier) (transactionId : string) : option Z :=
  match lastMessageTimestamps self !! transactionId with
  | Some t => Some t
  | None => lastCheckTime self
  end.

(** [content.substring(0, 50) + (content.length > 50 ? "..." : "")] *)
Definition preview (content : string) : string :=
  String.substring 0 50 content
  +:+ (if bool_decide (50 < String.length content)%nat then "..." else "").

(** The body of [for (const transaction of transactions)]. *)
Definition visit (b : Browser) (token : string) (self : MessageNotifier)
    (transaction : TransactionJson) : Pass :=
  if decide (j_id transaction ∈ activeTransactionIds self) then mkPass true self []
  else
  let lastKnownTime := lastKnownTime self (j_id transaction) in
  let checkRes := fetch_new b token (j_id transaction) lastKnownTime in
  let request := Fetch_new (j_id transaction) lastKnownTime checkRes in
  match checkRes with
  | Rejected => mkPass false self [request]
  | NotOk => mkPass true self [request]
  | Ok messageData =>
      let messages := default [] messageData in
      let newMessages :=
        filter (λ msg, Some (m_senderId msg) ≠ currentUserId self) messages in
      match newMessages with
      | first :: _ =>
          match j_buyer transaction with
          | None => mkPass false self [request]
          | Some buyer =>
              let sender :=
                if decide (p_id buyer = m_senderId first)
                then Some buyer else j_seller transaction in
              let latestMessage := default first (last newMessages) in
              let self' :=
                set_lastMessageTimestamps (j_id transaction)
                                          (m_createdAt latestMessage) self in
              match sender with
              | None => mkPass false self' [request]
              | Some sender =>
                  mkPass true self'
                    [request;
                     ShowToast
                       {| toast_type := "message";
                          title := "New message from " +:+ p_name sender;
                          message := preview (m_content first);
                          actionUrl := "/chat/" +:+ j_id transaction;
                          actionLabel := "View Chat";
                          duration := 6000 |}]
              end
          end
      | [] =>
          match last messages with
          | Some latestMessage =>
              mkPass true
                (set_lastMessageTimestamps (j_id transaction)
                                           (m_createdAt latestMessage) self)
                [request]
          | None => mkPass true self [request]
          end
      end
  end.

Fixpoint forTransactions (b : Browser) (token : string)
    (transactions : list TransactionJson) (self : MessageNotifier) : Pass :=
  match transactions with
  | [] => mkPass true self []
  | transaction :: rest =>
      let turn := visit b token self transaction in
      if finished turn
      then let later := forTransactions b token rest (this turn) in
           mkPass (finished later) (this later) (events turn ++ events later)
      else turn
  end.

Definition checkForNewMessages (b : Browser) (self : MessageNotifier) : Pass :=
  match truthy (currentUserId self) with
  | None => mkPass true self []
  | Some _ =>
  if document_hidden b then mkPass true self []
  else
  match truthy (localStorage_token b) with
  | None => mkPass true self []
  | Some token =>
  match fetch_transactions b token with
  | Rejected => mkPass false self [Fetch_transactions; Console_error]
  | NotOk => mkPass true self [Fetch_transactions]
  | Ok data =>
      let transactions := default [] data in
      let pass := forTransactions b token transactions self in
      if finished pass
      then mkPass true (set_lastCheckTime (page_clock b + elapsed b) (this pass))
                  (Fetch_transactions :: events pass)
      else mkPass false (this pass)
                  (Fetch_transactions :: events pass ++ [Console_error])
  end end end.

Definition start (b : Browser) (userId : string) (self : MessageNotifier) : Pass :=
  if isRunning self && bool_decide (currentUserId self = Some userId)
  then mkPass true self []
  else
  let self := if isRunning self then stop self else self in
  let self :=
    mkMessageNotifier true (intervalId self) (Some (page_clock b)) (Some userId)
                      (activeTransactionIds self) ∅ in
  let pass := checkForNewMessages b self in
  let self := this pass in
  mkPass (finished pass)
    (mkMessageNotifier (isRunning self) true (lastCheckTime self)
       (currentUserId self) (activeTransactionIds self) (lastMessageTimestamps self))
    (events pass).

(** The toasts of a pass, in the order they were shown. *)
Definition toasts (evs : list Event) : list Toast :=
  omap (λ e, match e with ShowToast t => Some t | _ => None end) evs.

End MessageNotifier.

(** ** The notifier against the routes of this repository *)

Section Deployment.
Context `{Externals}.

(** [res.ok]: the status is in the range 200-299. *)
Definition res_ok (r : Response) : bool := bool_decide (200 ≤ r_status r ≤ 299).

Definition get (token : string) (id : string) (after : option Z) : Request Json :=
  mkRequest (Some ("Bearer " +:+ token)) id None (ValidDate <$> after) None.

(** The lower bound the new-messages route filters with, and the messages
    of the table that pass its [where]. *)
Definition window (after : option DateParam) : option Z :=
  after ≫= NewMessages.lowerBound.

Definition selected (id : string) (after : option DateParam) (d : Db) : list Message :=
  filter (λ m, NewMessages.matches id (window after) m = true) (messages d).

(** The two requests of the notifier as the routes answer them over the
    database [d], when the store answers every call. *)
Definition list_over (d : Db) (now : Z) (tok : string)
  : Fetched (option (list TransactionJson)) :=
  let res := (Transactions.GET (get tok "" None) (mkWorld d [] now [])).1 in
  if res_ok res
  then Ok (match r_json res with JTransactions txs _ => Some txs | _ => None end)
  else NotOk.

Definition new_over (d : Db) (now : Z) (tok id : string) (after : option Z)
  : Fetched (option (list Message)) :=
  let res := (NewMessages.GET (get tok id after) (mkWorld d [] now [])).1 in
  if res_ok res
  then Ok (match r_json res with JMessages msgs _ => Some msgs | _ => None end)
  else NotOk.

(** A page all of whose requests are answered by the routes. *)
Definition page (d : Db) (hidden : bool) (token : option string)
    (now elapsed : Z) : Browser :=
  mkBrowser hidden token (list_over d now) (new_over d now) now elapsed.

(** The larger of the two watermarks of a transaction, where they are set. *)
Definition watermark (self : MessageNotifier) (id : string) : option Z :=
  match lastMessageTimestamps self !! id, lastCheckTime self with
  | Some seen, Some checked => Some (Z.max seen checked)
  | Some seen, None => Some seen
  | None, checked => checked
  end.

(** The fetch window with the larger watermark: every answer to a message
    request of a pass holds exactly the messages of the transaction that are
    newer than the larger watermark less 500 ms. *)
Definition fetches_after_larger_watermark : Prop :=
  ∀ (d : Db) (b : Browser) (self : MessageNotifier) (id : string)
    (after : option Z) (msgs : list Message) (mark : Z),
    fetch_new b = new_over d (page_clock b) →
    Fetch_new id after (Ok (Some msgs))
      ∈ events (MessageNotifier.checkForNewMessages b self) →
    watermark self id = Some mark →
    msgs ≡ₚ filter (λ m, m_transactionId m = id ∧ mark - 500 < m_createdAt m)
              (messages d).

End Deployment.

(** ** The vocabulary of the lifecycle specification *)

Inductive Operation := pay | setMeetup | confirmDelivery | markPaid | markReceived.

(** The precondition column of the operation table. *)
Definition precondition (op : Operation) : list TransactionStatus :=
  match op with
  | pay => [ACCEPTED]
  | setMeetup => [REQUESTED; ACCEPTED]
  | confirmDelivery => [PAID; MEETING]
  | markPaid => [MEETING]
  | markReceived => [PAID]
  end.

(** The caller-role column of the operation table. *)
Definition has_role (op : Operation) (t : Transaction) (userId : string) : Prop :=
  match op with
  | pay | markPaid | markReceived => t_buyerId t = userId
  | confirmDelivery => t_sellerId t = userId
  | setMeetup => t_buyerId t = userId ∨ t_sellerId t = userId
  end.

(** [msg] names [name]: the name occurs in the message. *)
Definition names (msg name : string) : Prop :=
  ∃ before after, msg = before +:+ name +:+ after.

(** Every foreign key of a transaction points to a row. *)
Definition integrity (d : Db) : Prop :=
  ∀ id t, transactions d !! id = Some t →
    is_Some (users d !! t_buyerId t) ∧ is_Some (users d !! t_sellerId t)
    ∧ is_Some (items d !! t_itemId t).

(** The next [n] store calls do not fail. *)
Definition calm (n : nat) (w : World) : Prop :=
  Forall (λ b, b = false) (take n (faults w)).

(** The rows the mark-received route reads at the start. *)
Definition reads (id : string) (t : Transaction) (seller buyer : User) (item : Item)
    (d : Db) : Prop :=
  transactions d !! id = Some t
  ∧ users d !! t_sellerId t = Some seller
  ∧ users d !! t_buyerId t = Some buyer
  ∧ items d !! t_itemId t = Some item.

(** The transaction [t] with its status set to [s] and nothing else changed. *)
Definition moved (s : TransactionStatus) (t : Transaction) : Transaction :=
  applyTransactionData (mkTransactionData (Some s) None None None None) t.

(** Which of the next [calls] store calls is the first to fail, counting
    from 0; [None] when none of them fails. *)
Fixpoint first_fault (calls : nat) (fs : list bool) : option nat :=
  match calls, fs with
  | S k, true :: _ => Some 0%nat
  | S k, false :: fs => S <$> first_fault k fs
  | _, _ => None
  end.

Section Operations.
Context `{Externals}.

Definition route (op : Operation) : Request Json → World → Response * World :=
  match op with
  | pay => Pay.POST
  | setMeetup => Meetup.POST
  | confirmDelivery => ConfirmDelivery.POST
  | markPaid => MarkPaid.POST
  | markReceived => MarkReceived.POST
  end.

(** The caller the route resolves from the request. *)
Definition caller (op : Operation) (request : Request Json) : option string :=
  match op with
  | pay => truthy (Pay.getUserFromRequest request)
  | _ => truthy (getUserFromRequest request)
  end.

(** The request passes the route's validation and addresses the transaction
    [id]. *)
Definition addresses (op : Operation) (request : Request Json) (id : string) : Prop :=
  ∃ j, body request = Some j ∧
    match op with
    | pay => ∃ paymentId, payTransactionSchema j = Some (id, paymentId)
    | setMeetup => param_id request = id ∧ is_Some (setMeetupSchema j)
    | confirmDelivery => param_id request = id ∧ confirmDeliverySchema id j = true
    | markPaid => param_id request = id ∧ markPaidSchema id j = true
    | markReceived => param_id request = id ∧ markReceivedSchema id j = true
    end.

(** The four writes of the mark-received cascade on the transaction [id], in
    the order of the route, with the values the route computes from the rows
    [t], [seller] and [buyer] it read at the start. *)
Definition cascade (id : string) (t : Transaction) (seller buyer : User)
  : list (Db → Db) :=
  let newCompletedDeals := u_completedDeals seller + 1 in
  let newCancellationRate :=
    (u_cancellationRate seller * number (u_completedDeals seller)
       / number newCompletedDeals)%float in
  [ withTransactions
      (alter (applyTransactionData (mkTransactionData (Some COMPLETED) None None None None))
             id);
    withItems (alter (applyItemData (mkItemData (Some "SOLD"))) (t_itemId t));
    withUsers
      (alter (applyUserData
                (mkUserData (Some newCompletedDeals) (Some newCancellationRate)
                   (Some (calculateTrustScore (u_verificationStatus seller)
                            (u_avgRating seller) newCompletedDeals newCancellationRate))
                   (Some (getEarnedBadges newCompletedDeals (u_avgRating seller)
                            newCancellationRate))))
             (t_sellerId t));
    withUsers
      (alter (applyUserData (mkUserData (Some (u_completedDeals buyer + 1)) None None None))
             (t_buyerId t)) ].

(** The database once the first [k] writes of the cascade are in. *)
Definition committed (k : nat) (id : string) (t : Transaction) (seller buyer : User)
    (d : Db) : Db :=
  foldl (λ d write, write d) d (take k (cascade id t seller buyer)).

(** The cascade as one unit of work: whatever happens during the request,
    the database afterwards has all four writes or is the one before. *)
Definition all_or_nothing : Prop :=
  ∀ (request : Request Json) (id : string) (t : Transaction)
    (seller buyer : User) (item : Item) (w : World) (r : Response) (w' : World),
    addresses markReceived request id →
    caller markReceived request = Some (t_buyerId t) →
    t_status t = PAID →
    reads id t seller buyer item (db w) →
    MarkReceived.POST request w = (r, w') →
    db w' = committed 4 id t seller buyer (db w) ∨ db w' = db w.

End Operations.

(** ** A small deployment to run the routes and the notifier on

    The token is the user id, a body is a flat object, the validators ask for
    the fields the routes read, and the trust engine is a stand-in with the
    interface of the real one. The theorems below hold for every instance of
    [Externals]; this one only supplies concrete inputs. *)
Module Sample.

Definition field (k : string) (j : list (string * string)) : option string :=
  list_find (λ kv, kv.1 = k) j ≫= λ r, Some r.2.2.

Definition bearer (h : option string) : option string :=
  h ≫= λ a, if String.prefix "Bearer " a
            then Some (String.substring 7 (String.length a - 7) a) else None.

Definition externals : Externals :=
  {| Json := list (string * string);
     getUserFromRequest request := bearer (header_authorization request);
     verify token _ := Some token;
     env_JWT_SECRET := None;
     markReceivedSchema id _ := bool_decide (id ≠ "");
     markPaidSchema id _ := bool_decide (id ≠ "");
     confirmDeliverySchema id _ := bool_decide (id ≠ "");
     setMeetupSchema j := field "location" j;
     payTransactionSchema j :=
       t ← field "transactionId" j; p ← field "paymentId" j; Some (t, p);
     String_toUpperCase s := s;
     calculateTrustScore v _ n _ :=
       (if decide (v = "VERIFIED") then 20 else 0) + Z.min 20 (2 * n);
     getEarnedBadges n _ _ := if decide (10 ≤ n) then ["Trusted Seller"] else [] |}.

Definition alice : User := mkUser "alice" "Alice" "VERIFIED" 4.5 2 0 55 [].
Definition bob : User := mkUser "bob" "Bob" "VERIFIED" 4.5 4 0.25 60 [].
Definition lamp : Item := mkItem "lamp" "Desk lamp" "AVAILABLE".

(** Alice buys the lamp from Bob. *)
Definition deal (s : TransactionStatus) : Transaction :=
  mkTransaction "tx1" "alice" "bob" "lamp" s None None None None.

Definition store (s : TransactionStatus) (msgs : list Message) : Db :=
  mkDb {["tx1" := deal s]} {["lamp" := lamp]}
       (<["alice" := alice]> {["bob" := bob]}) msgs.

Definition world (s : TransactionStatus) (fs : list bool) (ticks : list Z) : World :=
  mkWorld (store s []) fs 1000 ticks.

Definition post (userId id : string) (j : list (string * string))
  : Request (list (string * string)) :=
  mkRequest (Some ("Bearer " +:+ userId)) id (Some j) None None.

Definition hello : Message := mkMessage "m1" "tx1" "bob" "hello" 1000.
Definition mine : Message := mkMessage "m2" "tx1" "alice" "on my way" 2000.
Definition bye : Message := mkMessage "m3" "tx1" "bob" "bye" 7000.

(** The entry of the transaction as the notifier's interface declares it. *)
Definition declared : TransactionJson :=
  mkTransactionJson "tx1" None None None
    (Some (mkParty "alice" "Alice")) (Some (mkParty "bob" "Bob")) None None None.

(** A page whose list request answers [txs] and whose message requests are
    answered by the route over the database [d]. *)
Definition page_with (txs : list TransactionJson) (d : Db) (now : Z) : Browser :=
  mkBrowser false (Some "alice") (λ _, Ok (Some txs))
            (@new_over externals d now) now 40.

(** Alice signs in at the instant 900, before any message is written. *)
Definition started : MessageNotifier :=
  this (MessageNotifier.start (page_with [declared] (store PAID []) 900)
                              "alice" messageNotifier).

(** Bob writes at 1000; Alice's notifier passes at 5000. Bob writes again at
    7000; the notifier passes at 10000. *)
Definition first_pass : Pass :=
  MessageNotifier.checkForNewMessages
    (page_with [declared] (store PAID [hello]) 5000) started.

Definition second_pass : Pass :=
  MessageNotifier.checkForNewMessages
    (page_with [declared] (store PAID [hello; bye]) 10000) (this first_pass).

(** Bob writes at 1000 and Alice answers at 2000 before the pass of 5000. *)
Definition pass_after_reply : Pass :=
  MessageNotifier.checkForNewMessages
    (page_with [declared] (store PAID [hello; mine]) 5000) started.

(** The pass of 5000 after Bob's first message, with every request answered
    by the routes of the repository, the list route included. *)
Definition pass_over_routes : Pass :=
  MessageNotifier.checkForNewMessages
    (@page externals (store PAID [hello]) false (Some "alice") 5000 40) started.

(** A second deal between the two, with a message of Bob in each; Alice has
    the chat of the first one open while her notifier passes. *)
Definition store_two : Db :=
  withTransactions
    <["tx2" := mkTransaction "tx2" "alice" "bob" "lamp" ACCEPTED None None None None]>
    (store PAID [hello; mkMessage "m4" "tx2" "bob" "still there?" 1500]).

Definition declared_two : TransactionJson :=
  mkTransactionJson "tx2" None None None
    (Some (mkParty "alice" "Alice")) (Some (mkParty "bob" "Bob")) None None None.

Definition viewing : MessageNotifier :=
  MessageNotifier.setActiveTransaction "tx1" started.

Definition pass_while_viewing : Pass :=
  MessageNotifier.checkForNewMessages
    (page_with [declared; declared_two] store_two 5000) viewing.

(** Fifty-two messages of Bob in the first transaction, the newest first in
    the table. *)
Definition burst : list Message :=
  (λ k : nat, mkMessage ("b" +:+ pretty k) "tx1" "bob" "ping" (2000 - Z.of_nat k))
  <$> seq 0 52.

End Sample.

(** ** Further routes on the same tables *)

(** The answer of a route whose body is [A] on success and an error text
    otherwise. *)
Record Answer (A : Type) := mkAnswer {
  a_status : Z;
  a_body : A + string
}.
Arguments mkAnswer {A}.
Arguments a_status {A}.
Arguments a_body {A}.

Definition try_catch_answer {A} (body : Async (Answer A)) (w : World)
  : Answer A * World :=
  match body w with
  | (Returned r, w') => (r, w')
  | (Thrown, w') => (mkAnswer 500 (inr "Internal server error"), w')
  end.

(** What the send-message route imports and the sources do not hold: the
    validator (represented by the [content] of the parsed data) and the
    defaults of the message table. *)
Class Messaging `{Externals} := {
  sendMessageSchema : string → Json → option string;
  (** the id the store gives to the row it creates *)
  newMessageId : Db → string
}.

(** *** POST /api/transactions/[id]/messages *)
Module SendMessage.
Section Route.
Context `{Messaging}.

(** Modelled from the spec: the schema of the message table is not among the
    sources. [create({ data: { transactionId, senderId, content }, include:
    { sender } })] adds one row; its [createdAt] is assigned by the store
    from the clock, its id by the store; both foreign keys must point to a
    row. *)
Definition message_create (transactionId senderId content : string)
  : Async (Message * User) :=
  createdAt ← Date_now;
  storeCall (λ d,
    _ ← transactions d !! transactionId;
    sender ← users d !! senderId;
    let message :=
      mkMessage (newMessageId d) transactionId senderId content createdAt in
    Some ((message, sender),
          mkDb (transactions d) (items d) (users d) (messages d ++ [message]))).

Definition POST (request : Request Json) : World → Answer (Message * Party) * World :=
  try_catch_answer (
    match truthy (getUserFromRequest request) with
    | None => mret (mkAnswer 401 (inr "Unauthorized"))
    | Some userId =>
    let transactionId := param_id request in
    body ← request_json request;
    match sendMessageSchema transactionId body with
    | None => mret (mkAnswer 400 (inr "Validation failed"))
    | Some content =>
    found ← prisma.transaction_findUnique transactionId;
    match found with
    | None => mret (mkAnswer 404 (inr "Transaction not found"))
    | Some transaction =>
    if decide (t_buyerId transaction ≠ userId ∧ t_sellerId transaction ≠ userId)
    then mret (mkAnswer 403 (inr "You are not part of this transaction"))
    else
    '(message, sender) ← message_create transactionId userId content;
    mret (mkAnswer 201 (inl (message, mkParty (u_id sender) (u_name sender))))
    end end end).

End Route.
End SendMessage.

(** *** GET /api/transactions/[id] *)
Module TransactionById.
Section Route.
Context `{Externals}.

(** [select: { id, name, photo, verificationStatus, trustScore }] *)
Record Profile := mkProfile {
  pr_id : string;
  pr_name : string;
  pr_verificationStatus : string;
  pr_trustScore : Z
}.

Definition profile (u : User) : Profile :=
  mkProfile (u_id u) (u_name u) (u_verificationStatus u) (u_trustScore u).

Record Detail := mkDetail {
  det_transaction : Transaction;
  det_buyer : Profile;
  det_seller : Profile;
  det_item : Item;
  det_messages : list (Message * Party)
}.

(** [findUnique({ where: { id }, include: { buyer, seller, item, messages:
    { orderBy: { createdAt: "desc" }, take: 50, include: { sender } } } })] *)
Definition transaction_findUnique_detail (id : string) : Async (option Detail) :=
  storeCall (λ d,
    match transactions d !! id with
    | None => Some (None, d)
    | Some t =>
        b ← users d !! t_buyerId t;
        s ← users d !! t_sellerId t;
        i ← items d !! t_itemId t;
        ms ← mapM (λ m, u ← users d !! m_senderId m;
                        Some (m, mkParty (u_id u) (u_name u)))
              (take 50 (merge_sort Transactions.createdAt_desc
                          (filter (λ m, m_transactionId m = t_id t) (messages d))));
        Some (Some (mkDetail t (profile b) (profile s) i ms), d)
    end).

Definition GET (request : Request Json) : World → Answer Detail * World :=
  try_catch_answer (
    match truthy (getUserFromRequest request) with
    | None => mret (mkAnswer 401 (inr "Unauthorized"))
    | Some userId =>
    let id := param_id request in
    found ← transaction_findUnique_detail id;
    match found with
    | None => mret (mkAnswer 404 (inr "Transaction not found"))
    | Some transaction =>
    if decide (t_buyerId (det_transaction transaction) ≠ userId
               ∧ t_sellerId (det_transaction transaction) ≠ userId)
    then mret (mkAnswer 403 (inr "You are not part of this transaction"))
    else mret (mkAnswer 200 (inl transaction))
    end end).

End Route.
End TransactionById.

(** ** The toast store (components/ui/toast.tsx) *)
Module Toasts.

(** An optional property of an object literal: not written, written with
    the value [undefined], or written with a value. The spread
    [{ duration: 5000, ...toast }] keeps the default only in the first
    case. *)
Inductive Optional (A : Type) :=
  | Absent
  | Undefined
  | Given (a : A).
Arguments Absent {A}.
Arguments Undefined {A}.
Arguments Given {A} a.

(** The argument of [showToast]: a toast without its id; the optional
    properties may be absent. *)
Record ToastArg := mkToastArg {
  arg_type : string;
  arg_title : string;
  arg_message : string;
  arg_actionUrl : option string;
  arg_actionLabel : option string;
  arg_duration : Optional Z
}.

(** A toast of the list; its [duration] is a number or [undefined]. *)
Record ToastItem := mkToastItem {
  item_id : string;
  item_type : string;
  item_title : string;
  item_message : string;
  item_actionUrl : option string;
  item_actionLabel : option string;
  item_duration : option Z
}.

(** The [duration] of [{ id, duration: 5000, ...toast }]. *)
Definition spread_duration (duration : Optional Z) : option Z :=
  match duration with
  | Absent => Some 5000
  | Undefined => None
  | Given d => Some d
  end.

(** The delay the browser's [setTimeout] waits for: its argument converted
    to a signed 32-bit integer, and 0 when that is negative. A number above
    2147483647 does not give the delay it names. *)
Definition timerDelay (ms : Z) : Z :=
  Z.max 0 ((ms + 2147483648) mod 4294967296 - 2147483648).

(** The module state: the list [toasts], the array [toastListeners] (a
    listener is identified by a number, and [seen] holds what each listener
    was last called with), and the timeouts that are pending, each with the
    instant it is due and the id it removes. *)
Record Store := mkStore {
  toasts : list ToastItem;
  toastListeners : list nat;
  seen : gmap nat (list ToastItem);
  timeouts : list (Z * string)
}.

Definition empty : Store := mkStore [] [] ∅ [].

(** [toastListeners.forEach((listener) => listener([...toasts]))] *)
Definition notifyListeners (st : Store) : Store :=
  mkStore (toasts st) (toastListeners st)
          (foldl (λ views l, <[l := toasts st]> views) (seen st) (toastListeners st))
          (timeouts st).

(** [removeToast(id)] *)
Definition removeToast (id : string) (st : Store) : Store :=
  notifyListeners
    (mkStore (filter (λ t, item_id t ≠ id) (toasts st)) (toastListeners st)
             (seen st) (timeouts st)).

(** [showToast(toast)] at the instant [now], with [id] the string drawn from
    [Math.random]. *)
Definition showToast (now : Z) (id : string) (toast : ToastArg) (st : Store) : Store :=
  let newToast :=
    mkToastItem id (arg_type toast) (arg_title toast) (arg_message toast)
                (arg_actionUrl toast) (arg_actionLabel toast)
                (spread_duration (arg_duration toast)) in
  let st := notifyListeners
              (mkStore (toasts st ++ [newToast]) (toastListeners st) (seen st)
                       (timeouts st)) in
  match item_duration newToast with
  | Some duration =>
      if bool_decide (duration ≠ 0 ∧ 0 < duration)
      then mkStore (toasts st) (toastListeners st) (seen st)
                   (timeouts st ++ [(now + timerDelay duration, id)])
      else st
  | None => st
  end.

(** The effect of [ToastContainer] on mount: the listener is pushed and is
    given the current list. *)
Definition subscribe (l : nat) (st : Store) : Store :=
  mkStore (toasts st) (toastListeners st ++ [l]) (<[l := toasts st]> (seen st))
          (timeouts st).

(** Its cleanup: the listener is filtered out. *)
Definition unsubscribe (l : nat) (st : Store) : Store :=
  mkStore (toasts st) (filter (λ l', l' ≠ l) (toastListeners st)) (seen st)
          (timeouts st).

(** The timeouts due by the instant [now] fire, in the order they were set;
    the others stay pending. *)
Definition elapse (now : Z) (st : Store) : Store :=
  let due := filter (λ p, p.1 ≤ now) (timeouts st) in
  let pending := filter (λ p, ¬ p.1 ≤ now) (timeouts st) in
  foldl (λ st p, removeToast p.2 st)
        (mkStore (toasts st) (toastListeners st) (seen st) pending) due.

(** What happens to the store, one step at a time. *)
Inductive Step :=
  | Show (now : Z) (id : string) (toast : ToastArg)
  | Remove (id : string)
  | Subscribe (l : nat)
  | Unsubscribe (l : nat)
  | Elapse (now : Z).

Definition step (st : Store) (s : Step) : Store :=
  match s with
  | Show now id toast => showToast now id toast st
  | Remove id => removeToast id st
  | Subscribe l => subscribe l st
  | Unsubscribe l => unsubscribe l st
  | Elapse now => elapse now st
  end.

(** The argument the notifier passes for a toast. *)
Definition arg_of (t : Toast) : ToastArg :=
  mkToastArg (toast_type t) (title t) (message t) (Some (actionUrl t))
             (Some (actionLabel t)) (Given (duration t)).

End Toasts.

(** ** The edges of the state machine, as the five routes draw them *)

Inductive edge : TransactionStatus → TransactionStatus → Prop :=
  | edge_pay : edge ACCEPTED PAID
  | edge_setMeetup_requested : edge REQUESTED MEETING
  | edge_setMeetup_accepted : edge ACCEPTED MEETING
  | edge_confirmDelivery : edge PAID MEETING
  | edge_markPaid : edge MEETING PAID
  | edge_markReceived : edge PAID COMPLETED.

(** The columns of a transaction that no route writes. *)
Definition same_deal (t t' : Transaction) : Prop :=
  t_id t' = t_id t ∧ t_buyerId t' = t_buyerId t
  ∧ t_sellerId t' = t_sellerId t ∧ t_itemId t' = t_itemId t.

(** What each route passes as [data] to its update of the transaction, and
    the status it requires before. *)
Definition writes (op : Operation) (t : Transaction) (data : TransactionData) : Prop :=
  match op with
  | pay =>
      t_status t = ACCEPTED
      ∧ ∃ paymentId start finish,
          data = mkTransactionData (Some PAID) (Some paymentId) None
                                   (Some start) (Some finish)
  | setMeetup =>
      (t_status t = REQUESTED ∨ t_status t = ACCEPTED)
      ∧ ∃ location,
          data = mkTransactionData (Some MEETING) None (Some location) None None
  | confirmDelivery =>
      (t_status t = PAID
       ∧ data = mkTransactionData (Some MEETING) None None None None)
      ∨ (t_status t = MEETING ∧ data = noTransactionData)
  | markPaid =>
      t_status t = MEETING
      ∧ data = mkTransactionData (Some PAID) (Some "physical_payment") None None None
  | markReceived =>
      t_status t = PAID
      ∧ data = mkTransactionData (Some COMPLETED) None None None None
  end.

(** One table of transactions after another: the same, or one row moved
    along an edge with its deal unchanged. *)
Definition moves (m m' : gmap string Transaction) : Prop :=
  m' = m
  ∨ ∃ id t t', m !! id = Some t ∧ same_deal t t'
      ∧ edge (t_status t) (t_status t') ∧ m' = <[id := t']> m.

(** A history of requests to the five routes, oldest first. *)
Definition history `{Externals} (requests : list (Operation * Request Json)) (w : World)
  : World :=
  foldl (λ w call, (route call.1 call.2 w).2) w requests.

#[global] Instance Operation_eq_dec : EqDecision Operation.
Proof. solve_decision. Defined.

(** ** The small deployment, continued *)
Module More.

(** The body of a message carries [content]; the store numbers the rows it
    creates. *)
Definition messaging : @Messaging Sample.externals :=
  @Build_Messaging Sample.externals
    (λ id (j : list (string * string)),
       if decide (id = "") then None else Sample.field "content" j)
    (λ d, "n" +:+ pretty (length (messages d))).

End More.

(** * Properties *)

(** ** Running a route one store call at a time *)

Lemma storeCall_calm {A} (query : Db → option (A * Db)) (w : World) :
  hd false (faults w) = false →
  storeCall query w =
    match query (db w) with
    | Some (a, d') => (Returned a, mkWorld d' (tl (faults w)) (clock w) (drift w))
    | None => (Thrown, mkWorld (db w) (tl (faults w)) (clock w) (drift w))
    end.
Proof.
  unfold storeCall. destruct (faults w) as [|[] fs]; simpl; [done | discriminate | done].
Qed.

Lemma storeCall_fault {A} (query : Db → option (A * Db)) (w : World) fs :
  faults w = true :: fs →
  storeCall query w = (Thrown, mkWorld (db w) fs (clock w) (drift w)).
Proof. unfold storeCall. by intros ->. Qed.

Lemma calm_hd n w : calm (S n) w → hd false (faults w) = false.
Proof.
  unfold calm. destruct (faults w) as [|b fs]; simpl; [done|].
  by inversion 1.
Qed.

Lemma calm_tl n w d c dr :
  calm (S n) w → calm n (mkWorld d (tl (faults w)) c dr).
Proof.
  unfold calm. simpl. destruct (faults w) as [|b fs]; simpl.
  - intros _. by rewrite take_nil.
  - by inversion 1.
Qed.

Lemma calm_le n m w : (n ≤ m)%nat → calm m w → calm n w.
Proof.
  unfold calm. intros Hle Hm.
  replace (take n (faults w)) with (take n (take m (faults w)))
    by (rewrite take_take; f_equal; lia).
  by apply Forall_take.
Qed.

Lemma names_intro before name after : names (before +:+ name +:+ after) name.
Proof. by exists before, after. Qed.

Lemma applyTransactionData_nothing t : applyTransactionData noTransactionData t = t.
Proof. by destruct t. Qed.

Lemma findUnique_calm id w :
  calm 1 w →
  prisma.transaction_findUnique id w =
    (Returned (transactions (db w) !! id),
     mkWorld (db w) (tl (faults w)) (clock w) (drift w)).
Proof.
  intros Hc. unfold prisma.transaction_findUnique.
  by rewrite storeCall_calm by by eapply calm_hd.
Qed.

Lemma findUnique_include_calm id w t :
  calm 1 w → integrity (db w) → transactions (db w) !! id = Some t →
  ∃ seller buyer item,
    users (db w) !! t_sellerId t = Some seller
    ∧ users (db w) !! t_buyerId t = Some buyer
    ∧ items (db w) !! t_itemId t = Some item
    ∧ prisma.transaction_findUnique_include id w =
        (Returned (Some (t, seller, buyer, item)),
         mkWorld (db w) (tl (faults w)) (clock w) (drift w)).
Proof.
  intros Hc Hint Ht.
  destruct (Hint _ _ Ht) as ([buyer Hb] & [seller Hs] & [item Hi]).
  exists seller, buyer, item. repeat split; try done.
  unfold prisma.transaction_findUnique_include.
  rewrite storeCall_calm by by eapply calm_hd.
  rewrite Ht. simpl. rewrite Hs. simpl. rewrite Hb. simpl. by rewrite Hi.
Qed.

(** ** The state machine: rejected operations *)

Section Rejection.
Context `{Externals}.

Ltac run_prefix :=
  unfold try_catch, request_json, mbind, Async_bind, mret, Async_ret; simpl.

(** C3. An operation invoked by a caller of the right role on a transaction
    whose status is not a precondition of the operation answers 400 with a
    message that names the current status, and writes nothing: the database
    after the request is the database before it. *)
Theorem invalid_state_rejected (op : Operation) (request : Request Json)
    (w : World) (id userId : string) (t : Transaction) :
  addresses op request id →
  caller op request = Some userId →
  transactions (db w) !! id = Some t →
  integrity (db w) →
  calm 1 w →
  has_role op t userId →
  t_status t ∉ precondition op →
  ∃ msg w', route op request w = (error 400 msg, w')
            ∧ names msg (status_name (t_status t))
            ∧ db w' = db w.
Proof.
  intros (j & Hbody & Haddr) Hcaller Ht Hint Hcalm Hrole Hpre.
  destruct op; simpl in *.
  - (* pay *)
    destruct Haddr as [paymentId Hv].
    unfold Pay.POST. rewrite Hcaller. run_prefix. rewrite Hbody, Hv.
    rewrite findUnique_calm by done. rewrite Ht.
    rewrite decide_False by (intros Hne; by apply Hne).
    rewrite decide_True by (intros Heq; apply Hpre; rewrite Heq; set_solver).
    eexists _, _. split; [done|]. split; [apply names_intro | done].
  - (* setMeetup *)
    destruct Haddr as [<- [location Hv]].
    unfold Meetup.POST. rewrite Hcaller. run_prefix. rewrite Hbody, Hv.
    rewrite findUnique_calm by done. rewrite Ht.
    rewrite decide_False by (intros [? ?]; destruct Hrole; done).
    rewrite bool_decide_eq_false_2 by done. simpl.
    eexists _, _. split; [done|]. split; [apply names_intro | done].
  - (* confirmDelivery *)
    destruct Haddr as [<- Hv].
    unfold ConfirmDelivery.POST. rewrite Hcaller. run_prefix. rewrite Hbody, Hv. simpl.
    destruct (findUnique_include_calm _ _ _ Hcalm Hint Ht)
      as (seller & buyer & item & _ & _ & _ & ->).
    rewrite decide_False by (intros Hne; by apply Hne).
    rewrite decide_True by (split; intros Heq; apply Hpre; rewrite Heq; set_solver).
    eexists _, _. split; [done|]. split; [apply names_intro | done].
  - (* markPaid *)
    destruct Haddr as [<- Hv].
    unfold MarkPaid.POST. rewrite Hcaller. run_prefix. rewrite Hbody, Hv. simpl.
    rewrite findUnique_calm by done. rewrite Ht.
    rewrite decide_False by (intros Hne; by apply Hne).
    rewrite decide_True by (intros Heq; apply Hpre; rewrite Heq; set_solver).
    eexists _, _. split; [done|]. split; [apply names_intro | done].
  - (* markReceived *)
    destruct Haddr as [<- Hv].
    unfold MarkReceived.POST. rewrite Hcaller. run_prefix. rewrite Hbody, Hv. simpl.
    destruct (findUnique_include_calm _ _ _ Hcalm Hint Ht)
      as (seller & buyer & item & _ & _ & _ & ->).
    rewrite decide_False by (intros Hne; by apply Hne).
    rewrite decide_True by (intros Heq; apply Hpre; rewrite Heq; set_solver).
    eexists _, _. split; [done|]. split; [apply names_intro | done].
Qed.

End Rejection.

Lemma sample_integrity s msgs : integrity (Sample.store s msgs).
Proof.
  intros id t Hl. simpl in Hl.
  apply lookup_singleton_Some in Hl as [_ <-].
  repeat split; eexists; reflexivity.
Qed.

Lemma sample_calm n s ticks : calm n (Sample.world s [] ticks).
Proof. unfold calm. simpl. rewrite take_nil. constructor. Qed.

Lemma invalid_state_rejected_witness :
  ∃ msg w',
    @route Sample.externals markReceived (Sample.post "alice" "tx1" [])
      (Sample.world REQUESTED [] []) = (error 400 msg, w')
    ∧ names msg "REQUESTED"
    ∧ db w' = Sample.store REQUESTED [].
Proof.
  apply (@invalid_state_rejected Sample.externals markReceived
           (Sample.post "alice" "tx1" []) (Sample.world REQUESTED [] [])
           "tx1" "alice" (Sample.deal REQUESTED)).
  - exists []. repeat split.
  - reflexivity.
  - reflexivity.
  - apply sample_integrity.
  - apply sample_calm.
  - reflexivity.
  - simpl. rewrite list_elem_of_singleton. discriminate.
Defined.

(** ** The updates of the store *)

Lemma insert_as_alter {V} (m : gmap string V) (i : string) (x : V) (f : V → V) :
  m !! i = Some x → <[i := f x]> m = alter f i m.
Proof.
  intros Hx. apply map_eq. intros j.
  rewrite lookup_insert, lookup_alter.
  destruct (decide (i = j)) as [<-|]; [by rewrite Hx | done].
Qed.

Lemma transaction_update_calm id data w t :
  hd false (faults w) = false →
  transactions (db w) !! id = Some t →
  prisma.transaction_update id data w =
    (Returned (applyTransactionData data t),
     mkWorld (withTransactions (alter (applyTransactionData data) id) (db w))
             (tl (faults w)) (clock w) (drift w)).
Proof.
  intros Hf Ht. unfold prisma.transaction_update.
  rewrite storeCall_calm by done. rewrite Ht. simpl.
  unfold withTransactions. by rewrite (insert_as_alter _ _ _ _ Ht).
Qed.

Lemma item_update_calm id data w i :
  hd false (faults w) = false →
  items (db w) !! id = Some i →
  prisma.item_update id data w =
    (Returned (applyItemData data i),
     mkWorld (withItems (alter (applyItemData data) id) (db w))
             (tl (faults w)) (clock w) (drift w)).
Proof.
  intros Hf Hi. unfold prisma.item_update.
  rewrite storeCall_calm by done. rewrite Hi. simpl.
  unfold withItems. by rewrite (insert_as_alter _ _ _ _ Hi).
Qed.

Lemma user_update_calm id data w u :
  hd false (faults w) = false →
  users (db w) !! id = Some u →
  prisma.user_update id data w =
    (Returned (applyUserData data u),
     mkWorld (withUsers (alter (applyUserData data) id) (db w))
             (tl (faults w)) (clock w) (drift w)).
Proof.
  intros Hf Hu. unfold prisma.user_update.
  rewrite storeCall_calm by done. rewrite Hu. simpl.
  unfold withUsers. by rewrite (insert_as_alter _ _ _ _ Hu).
Qed.

Lemma lookup_alter_is_Some {V} (m : gmap string V) (f : V → V) (i j : string) :
  is_Some (m !! j) → is_Some (alter f i m !! j).
Proof.
  intros [x Hx]. rewrite lookup_alter.
  destruct (decide (i = j)) as [->|]; [rewrite Hx; by eexists | by eexists].
Qed.

(** ** The state machine: mark-received *)

Section Completion.
Context `{Externals}.
Variables (request : Request Json) (id : string).
Variables (t : Transaction) (seller buyer : User) (item : Item).
Hypothesis Haddresses : addresses markReceived request id.
Hypothesis Hcaller : caller markReceived request = Some (t_buyerId t).
Hypothesis Hpaid : t_status t = PAID.

Lemma markReceived_read w :
  reads id t seller buyer item (db w) → hd false (faults w) = false →
  prisma.transaction_findUnique_include id w =
    (Returned (Some (t, seller, buyer, item)),
     mkWorld (db w) (tl (faults w)) (clock w) (drift w)).
Proof.
  intros (Ht & Hs & Hb & Hi) Hf. unfold prisma.transaction_findUnique_include.
  rewrite storeCall_calm by done.
  rewrite Ht. simpl. rewrite Hs. simpl. rewrite Hb. simpl. by rewrite Hi.
Qed.

Ltac enter_route :=
  let j := fresh "j" in let Hbody := fresh "Hbody" in let Hv := fresh "Hv" in
  let Hid := fresh "Hid" in
  destruct Haddresses as (j & Hbody & Hid & Hv); simpl in Hcaller;
  unfold MarkReceived.POST; rewrite Hcaller;
  unfold try_catch, request_json, mbind, Async_bind, mret, Async_ret; simpl;
  rewrite Hbody, Hid, Hv; simpl.

Ltac pass_guards :=
  rewrite decide_False by (intros Hne; by apply Hne);
  rewrite decide_False by (intros Hne; by apply Hne).

(** With no failure of the store the route answers 200 and the database is
    the one with the four writes in. *)
Lemma markReceived_calm w :
  reads id t seller buyer item (db w) → calm 5 w →
  ∃ w', MarkReceived.POST request w =
          (mkResponse 200
             (JReceived "Item marked as received. Transaction completed!"
                (applyTransactionData
                   (mkTransactionData (Some COMPLETED) None None None None) t)
                "Please rate the seller" true), w')
        ∧ db w' = committed 4 id t seller buyer (db w).
Proof.
  intros Hreads Hcalm. pose proof Hreads as (Ht & Hs & Hb & Hi).
  destruct w as [d fs c dr]. unfold calm in Hcalm. simpl in *.
  enter_route.
  rewrite markReceived_read by (first [done | by eapply (calm_hd 4)]).
  pass_guards.
  destruct fs as [|f1 fs]; [|destruct fs as [|f2 fs]; [|destruct fs as [|f3 fs];
    [|destruct fs as [|f4 fs]; [|destruct fs as [|f5 fs]]]]];
    simpl in Hcalm; repeat (apply Forall_cons in Hcalm as [-> Hcalm]); simpl.
  all: rewrite (transaction_update_calm _ _ _ t) by done; simpl.
  all: rewrite (item_update_calm _ _ _ item) by done; simpl.
  all: rewrite (user_update_calm _ _ _ seller) by done; simpl.
  all: destruct (lookup_alter_is_Some (users d)
         (applyUserData
            (mkUserData (Some (u_completedDeals seller + 1))
               (Some (u_cancellationRate seller * number (u_completedDeals seller)
                        / number (u_completedDeals seller + 1))%float)
               (Some (calculateTrustScore (u_verificationStatus seller)
                        (u_avgRating seller) (u_completedDeals seller + 1)
                        (u_cancellationRate seller * number (u_completedDeals seller)
                           / number (u_completedDeals seller + 1))%float))
               (Some (getEarnedBadges (u_completedDeals seller + 1) (u_avgRating seller)
                        (u_cancellationRate seller * number (u_completedDeals seller)
                           / number (u_completedDeals seller + 1))%float))))
         (t_sellerId t) (t_buyerId t)) as [u Hu]; [by eexists|].
  all: rewrite (user_update_calm _ _ _ u) by done; simpl.
  all: eexists; split; reflexivity.
Qed.

Ltac call_fails :=
  unfold prisma.transaction_findUnique_include, prisma.transaction_update,
    prisma.item_update, prisma.user_update;
  try erewrite storeCall_fault by reflexivity; simpl.

(** When the read and the first writes go through and the next store call
    fails, the route answers 500 and the writes made so far stay. [n] is the
    number of store calls that succeed: the read, then [n - 1] writes. *)
Lemma markReceived_fault w (n : nat) fs :
  reads id t seller buyer item (db w) → (n ≤ 4)%nat →
  faults w = replicate n false ++ true :: fs →
  ∃ w', MarkReceived.POST request w = (error 500 "Internal server error", w')
        ∧ db w' = committed (pred n) id t seller buyer (db w).
Proof.
  intros Hreads Hn Hfs. pose proof Hreads as (Ht & Hs & Hb & Hi).
  destruct w as [d fs0 c dr]. simpl in *. subst fs0.
  enter_route.
  destruct n as [|n]; simpl.
  { call_fails. eexists; split; reflexivity. }
  rewrite markReceived_read by done. pass_guards. simpl.
  destruct n as [|n]; simpl.
  { call_fails. eexists; split; reflexivity. }
  rewrite (transaction_update_calm _ _ _ t) by done; simpl.
  destruct n as [|n]; simpl.
  { call_fails. eexists; split; reflexivity. }
  rewrite (item_update_calm _ _ _ item) by done; simpl.
  destruct n as [|n]; simpl.
  { call_fails. eexists; split; reflexivity. }
  rewrite (user_update_calm _ _ _ seller) by done; simpl.
  destruct n as [|n]; simpl; [|lia].
  call_fails. eexists; split; reflexivity.
Qed.

End Completion.

Lemma lookup_alter_here {V} (m : gmap string V) (f : V → V) (i : string) :
  alter f i m !! i = f <$> m !! i.
Proof. rewrite lookup_alter. by rewrite decide_True. Qed.

Lemma lookup_alter_there {V} (m : gmap string V) (f : V → V) (i j : string) :
  i ≠ j → alter f i m !! j = m !! j.
Proof. intros. rewrite lookup_alter. by rewrite decide_False. Qed.

(** C2. When the buyer marks a PAID transaction as received and the store
    answers every call: the transaction is COMPLETED, the item is SOLD, the
    buyer and the seller have one completed deal more, the seller's
    cancellation rate is the old rate times the old number of deals divided
    by the new number, and the seller's trust score and badges are the trust
    engine's results on the seller's statistics as they are after the
    request. *)
Theorem markReceived_effects `{Externals} (request : Request Json) (id : string)
    (t : Transaction) (seller buyer : User) (item : Item) (w : World) :
  addresses markReceived request id →
  caller markReceived request = Some (t_buyerId t) →
  t_status t = PAID →
  reads id t seller buyer item (db w) →
  calm 5 w →
  ∃ r w', MarkReceived.POST request w = (r, w')
    ∧ r_status r = 200
    ∧ t_status <$> transactions (db w') !! id = Some COMPLETED
    ∧ i_availabilityStatus <$> items (db w') !! t_itemId t = Some "SOLD"
    ∧ u_completedDeals <$> users (db w') !! t_buyerId t
      = Some (u_completedDeals buyer + 1)
    ∧ ∃ seller', users (db w') !! t_sellerId t = Some seller'
        ∧ u_completedDeals seller' = u_completedDeals seller + 1
        ∧ u_cancellationRate seller'
          = (u_cancellationRate seller * number (u_completedDeals seller)
               / number (u_completedDeals seller + 1))%float
        ∧ u_trustScore seller'
          = calculateTrustScore (u_verificationStatus seller') (u_avgRating seller')
              (u_completedDeals seller') (u_cancellationRate seller')
        ∧ u_badges seller'
          = getEarnedBadges (u_completedDeals seller') (u_avgRating seller')
              (u_cancellationRate seller').
Proof.
  intros Haddr Hcaller Hpaid Hreads Hcalm.
  destruct (markReceived_calm request id t seller buyer item
              Haddr Hcaller Hpaid w Hreads Hcalm) as (w' & Hrun & Hdb).
  destruct Hreads as (Ht & Hs & Hb & Hi).
  eexists _, w'. split; [exact Hrun|]. split; [reflexivity|].
  rewrite Hdb. unfold committed, cascade. simpl.
  split. { by rewrite lookup_alter_here, Ht. }
  split. { by rewrite lookup_alter_here, Hi. }
  destruct (decide (t_buyerId t = t_sellerId t)) as [Hsame|Hdiff].
  - assert (buyer = seller) as -> by congruence.
    rewrite Hsame, !lookup_alter_here, Hs. simpl.
    split; [done|]. eexists. split; [done|]. by simpl.
  - rewrite lookup_alter_here.
    rewrite lookup_alter_there by congruence. rewrite Hb. simpl.
    split; [done|].
    rewrite lookup_alter_there by done. rewrite lookup_alter_here, Hs. simpl.
    eexists. split; [done|]. by simpl.
Qed.

Lemma sample_reads msgs :
  reads "tx1" (Sample.deal PAID) Sample.bob Sample.alice Sample.lamp
        (Sample.store PAID msgs).
Proof. by repeat split. Qed.

Lemma markReceived_effects_witness :
  ∃ r w', @MarkReceived.POST Sample.externals (Sample.post "alice" "tx1" [])
            (Sample.world PAID [] []) = (r, w')
    ∧ r_status r = 200
    ∧ t_status <$> transactions (db w') !! "tx1" = Some COMPLETED
    ∧ i_availabilityStatus <$> items (db w') !! "lamp" = Some "SOLD"
    ∧ u_completedDeals <$> users (db w') !! "alice" = Some 3
    ∧ ∃ seller', users (db w') !! "bob" = Some seller'
        ∧ u_completedDeals seller' = 5
        ∧ u_cancellationRate seller' = (0.25 * number 4 / number 5)%float
        ∧ u_trustScore seller'
          = @calculateTrustScore Sample.externals (u_verificationStatus seller')
              (u_avgRating seller') (u_completedDeals seller')
              (u_cancellationRate seller')
        ∧ u_badges seller'
          = @getEarnedBadges Sample.externals (u_completedDeals seller')
              (u_avgRating seller') (u_cancellationRate seller').
Proof.
  apply (@markReceived_effects Sample.externals (Sample.post "alice" "tx1" [])
           "tx1" (Sample.deal PAID) Sample.bob Sample.alice Sample.lamp
           (Sample.world PAID [] [])).
  - exists []. repeat split.
  - reflexivity.
  - reflexivity.
  - apply sample_reads.
  - apply sample_calm.
Defined.

(** The cascade is not one unit of work: when the store fails on the second
    write, the request answers 500 and leaves the transaction COMPLETED with
    the item still AVAILABLE and no deal counted. *)
Lemma markReceived_not_all_or_nothing : ¬ @all_or_nothing Sample.externals.
Proof.
  intros Hunit.
  destruct (Hunit (Sample.post "alice" "tx1" []) "tx1" (Sample.deal PAID)
              Sample.bob Sample.alice Sample.lamp
              (Sample.world PAID [false; false; true] [])
              (error 500 "Internal server error")
              (mkWorld
                 (withTransactions
                    (alter (applyTransactionData
                              (mkTransactionData (Some COMPLETED) None None None None))
                           "tx1")
                    (Sample.store PAID []))
                 [] 1000 []))
    as [Hall|Hnone].
  - exists []. repeat split.
  - reflexivity.
  - reflexivity.
  - apply sample_reads.
  - vm_compute. reflexivity.
  - apply (f_equal (λ d, i_availabilityStatus <$> items d !! "lamp")) in Hall.
    vm_compute in Hall. discriminate.
  - apply (f_equal (λ d, t_status <$> transactions d !! "tx1")) in Hnone.
    vm_compute in Hnone. discriminate.
Qed.

Example markReceived_second_write_fails :
  ∃ w', @MarkReceived.POST Sample.externals (Sample.post "alice" "tx1" [])
          (Sample.world PAID [false; false; true] [])
        = (error 500 "Internal server error", w')
    ∧ t_status <$> transactions (db w') !! "tx1" = Some COMPLETED
    ∧ i_availabilityStatus <$> items (db w') !! "lamp" = Some "AVAILABLE"
    ∧ u_completedDeals <$> users (db w') !! "bob" = Some 4
    ∧ u_completedDeals <$> users (db w') !! "alice" = Some 2.
Proof. eexists. split; [vm_compute; reflexivity|]. repeat split. Qed.

Lemma first_fault_None calls w : first_fault calls (faults w) = None → calm calls w.
Proof.
  unfold calm. generalize (faults w). clear w.
  induction calls as [|k IH]; intros fs Hnone; simpl.
  - rewrite take_0. constructor.
  - destruct fs as [|[] fs]; simpl in *; [constructor | discriminate |].
    constructor; [done|]. apply IH.
    by destruct (first_fault k fs).
Qed.

Lemma first_fault_Some calls fs n :
  first_fault calls fs = Some n →
  (n < calls)%nat ∧ ∃ rest, fs = replicate n false ++ true :: rest.
Proof.
  revert fs n. induction calls as [|k IH]; intros fs n Hsome; simpl in *.
  - by destruct fs.
  - destruct fs as [|[] fs]; simpl in *; [discriminate | |].
    + injection Hsome as <-. split; [lia|]. by exists fs.
    + destruct (first_fault k fs) as [m|] eqn:Hm; simpl in Hsome; [|discriminate].
      injection Hsome as <-. destruct (IH _ _ Hm) as [Hlt [rest ->]].
      split; [lia|]. by exists rest.
Qed.

Lemma committed_changes `{Externals} (k : nat) id t seller buyer item d :
  reads id t seller buyer item d → t_status t = PAID → (1 ≤ k)%nat →
  committed k id t seller buyer d ≠ d.
Proof.
  intros (Ht & _) Hpaid Hk Heq.
  apply (f_equal (λ d, t_status <$> transactions d !! id)) in Heq.
  rewrite Ht in Heq. simpl in Heq. rewrite Hpaid in Heq.
  destruct k as [|[|[|[|k]]]]; [lia| | | |];
    unfold committed, cascade in Heq; simpl in Heq;
    try rewrite take_nil in Heq; simpl in Heq;
    rewrite lookup_alter_here, Ht in Heq; discriminate.
Qed.

(** C1, as the code has it. The mark-received cascade is four writes, each
    committed on its own, after one read. When the store answers all five
    calls the request answers 200 and the four writes are in. When a call
    fails the request answers 500 and the writes made before the failure
    stay: nothing is rolled back, and the database is the one before the
    request only if the failing call is the read or the first write. *)
Theorem markReceived_write_by_write `{Externals} (request : Request Json)
    (id : string) (t : Transaction) (seller buyer : User) (item : Item) (w : World) :
  addresses markReceived request id →
  caller markReceived request = Some (t_buyerId t) →
  t_status t = PAID →
  reads id t seller buyer item (db w) →
  ∃ r w', MarkReceived.POST request w = (r, w')
    ∧ match first_fault 5 (faults w) with
      | None =>
          r_status r = 200 ∧ db w' = committed 4 id t seller buyer (db w)
      | Some n =>
          r = error 500 "Internal server error"
          ∧ db w' = committed (pred n) id t seller buyer (db w)
          ∧ (db w' = db w ↔ (n ≤ 1)%nat)
      end.
Proof.
  intros Haddr Hcaller Hpaid Hreads.
  destruct (first_fault 5 (faults w)) as [n|] eqn:Hff.
  - destruct (first_fault_Some _ _ _ Hff) as [Hn [rest Hfs]].
    destruct (markReceived_fault request id t seller buyer item
                Haddr Hcaller Hpaid w n rest Hreads ltac:(lia) Hfs)
      as (w' & Hrun & Hdb).
    exists (error 500 "Internal server error"), w'.
    split; [done|]. split; [done|]. split; [done|].
    rewrite Hdb. split.
    + intros Heq. destruct (decide (n ≤ 1)%nat); [done|].
      exfalso. eapply (committed_changes (pred n)); [done..|lia|done].
    + intros Hle. by destruct n as [|[|n]]; [..|lia].
  - destruct (markReceived_calm request id t seller buyer item
                Haddr Hcaller Hpaid w Hreads (first_fault_None _ _ Hff))
      as (w' & Hrun & Hdb).
    eexists _, w'. split; [exact Hrun|]. by split.
Qed.

Lemma markReceived_write_by_write_witness :
  ∃ r w', @MarkReceived.POST Sample.externals (Sample.post "alice" "tx1" [])
            (Sample.world PAID [false; false; false; true] []) = (r, w')
    ∧ r = error 500 "Internal server error"
    ∧ db w' = @committed Sample.externals 2 "tx1" (Sample.deal PAID)
                Sample.bob Sample.alice (Sample.store PAID [])
    ∧ (db w' = Sample.store PAID [] ↔ (3 ≤ 1)%nat).
Proof.
  apply (@markReceived_write_by_write Sample.externals
           (Sample.post "alice" "tx1" []) "tx1" (Sample.deal PAID)
           Sample.bob Sample.alice Sample.lamp
           (Sample.world PAID [false; false; false; true] [])).
  - exists []. repeat split.
  - reflexivity.
  - reflexivity.
  - apply sample_reads.
Defined.

(** ** The state machine: confirm-delivery *)

Lemma moved_same t : moved (t_status t) t = t.
Proof. by destruct t. Qed.

Lemma calm_hd_tl n w : calm (S (S n)) w → hd false (tl (faults w)) = false.
Proof.
  unfold calm. destruct (faults w) as [|b [|b' fs]]; simpl; [done | done |].
  intros Hc. inversion Hc as [|? ? _ Hc']. by inversion Hc'.
Qed.

Lemma alter_fixed {V} (m : gmap string V) (f : V → V) (i : string) (x : V) :
  m !! i = Some x → f x = x → alter f i m = m.
Proof.
  intros Hx Hf. apply map_eq. intros j. rewrite lookup_alter.
  destruct (decide (i = j)) as [<-|]; [|done]. rewrite Hx. simpl. by rewrite Hf.
Qed.

Lemma alter_agree {V} (m : gmap string V) (f g : V → V) (i : string) (x : V) :
  m !! i = Some x → f x = g x → alter f i m = alter g i m.
Proof.
  intros Hx Hfg. apply map_eq. intros j. rewrite !lookup_alter.
  destruct (decide (i = j)) as [<-|]; [|done]. rewrite Hx. simpl. by rewrite Hfg.
Qed.

Lemma integrity_moved d id t s :
  integrity d → transactions d !! id = Some t →
  integrity (withTransactions (alter (moved s) id) d).
Proof.
  intros Hint Ht id' t'. simpl. rewrite lookup_alter.
  destruct (decide (id = id')) as [<-|].
  - rewrite Ht. simpl. intros [= <-]. apply (Hint _ _ Ht).
  - apply Hint.
Qed.

Section Delivery.
Context `{Externals}.
Variables (request : Request Json) (id : string).
Hypothesis Haddresses : addresses confirmDelivery request id.

(** One confirmation by the seller of a PAID or MEETING transaction. *)
Lemma confirmDelivery_calm (t : Transaction) (w : World) :
  caller confirmDelivery request = Some (t_sellerId t) →
  transactions (db w) !! id = Some t →
  integrity (db w) → calm 2 w →
  t_status t = PAID ∨ t_status t = MEETING →
  ConfirmDelivery.POST request w =
    (mkResponse 200 (JTransaction "Delivery confirmed successfully" (moved MEETING t)),
     mkWorld (withTransactions (alter (moved MEETING) id) (db w))
             (tl (tl (faults w))) (clock w) (drift w)).
Proof.
  intros Hcaller Ht Hint Hcalm Hst.
  destruct Haddresses as (j & Hbody & Hid & Hv). simpl in Hcaller.
  unfold ConfirmDelivery.POST. rewrite Hcaller.
  unfold try_catch, request_json, mbind, Async_bind, mret, Async_ret. simpl.
  rewrite Hbody, Hid, Hv. simpl.
  destruct (findUnique_include_calm id w t (calm_le 1 2 w ltac:(lia) Hcalm) Hint Ht)
    as (seller & buyer & item & _ & _ & _ & ->).
  rewrite decide_False by (intros Hne; by apply Hne).
  rewrite decide_False by (intros [? ?]; by destruct Hst).
  rewrite (transaction_update_calm _ _ _ t);
    [|simpl; by eapply calm_hd_tl | done].
  simpl. destruct Hst as [Hpaid|Hmeeting].
  - rewrite decide_True by done. reflexivity.
  - rewrite decide_False by congruence.
    assert (moved MEETING t = t) as Hsame
      by (rewrite <- Hmeeting; apply moved_same).
    rewrite applyTransactionData_nothing, Hsame. unfold withTransactions.
    rewrite (alter_agree _ _ (moved MEETING) _ t Ht); [done|].
    by rewrite applyTransactionData_nothing.
Qed.

End Delivery.

Lemma withTransactions_fixed d id t :
  transactions d !! id = Some t → t_status t = MEETING →
  withTransactions (alter (moved MEETING) id) d = d.
Proof.
  intros Ht Hst. unfold withTransactions.
  rewrite (alter_fixed _ _ _ t Ht); [by destruct d|].
  rewrite <- Hst. apply moved_same.
Qed.

(** C5. A confirmation by the seller of a PAID transaction sets the status
    to MEETING and changes nothing else; a confirmation of a MEETING
    transaction leaves the whole database as it is. Hence a second
    confirmation after the first gives the same answer and the same
    database as the first alone. *)
Theorem confirmDelivery_idempotent `{Externals} (request : Request Json)
    (id : string) (t : Transaction) (w : World) :
  addresses confirmDelivery request id →
  caller confirmDelivery request = Some (t_sellerId t) →
  transactions (db w) !! id = Some t →
  integrity (db w) →
  calm 4 w →
  t_status t = PAID ∨ t_status t = MEETING →
  ∃ r w1 w2,
    ConfirmDelivery.POST request w = (r, w1)
    ∧ ConfirmDelivery.POST request w1 = (r, w2)
    ∧ r_status r = 200
    ∧ db w1 = withTransactions (alter (moved MEETING) id) (db w)
    ∧ t_status <$> transactions (db w1) !! id = Some MEETING
    ∧ db w2 = db w1
    ∧ (t_status t = MEETING → db w1 = db w).
Proof.
  intros Haddr Hcaller Ht Hint Hcalm Hst.
  pose proof (confirmDelivery_calm request id Haddr t w Hcaller Ht Hint
                (calm_le 2 4 w ltac:(lia) Hcalm) Hst) as Hfirst.
  set (w1 := mkWorld (withTransactions (alter (moved MEETING) id) (db w))
                     (tl (tl (faults w))) (clock w) (drift w)) in *.
  assert (transactions (db w1) !! id = Some (moved MEETING t)) as Ht1.
  { simpl. by rewrite lookup_alter_here, Ht. }
  assert (calm 2 w1) as Hcalm1.
  { unfold calm, w1 in *. simpl.
    destruct (faults w) as [|b1 [|b2 fs]]; simpl in *; [constructor..|].
    inversion Hcalm as [|? ? _ Hc]. by inversion Hc. }
  pose proof (confirmDelivery_calm request id Haddr (moved MEETING t) w1
                Hcaller Ht1 (integrity_moved _ _ _ _ Hint Ht) Hcalm1
                (or_intror eq_refl)) as Hsecond.
  replace (moved MEETING (moved MEETING t)) with (moved MEETING t) in Hsecond
    by by destruct t.
  eexists _, w1, _. split; [exact Hfirst|]. split; [exact Hsecond|].
  split; [done|]. split; [done|].
  split. { by rewrite Ht1. }
  split. { simpl. by apply withTransactions_fixed with (moved MEETING t). }
  intros Hmeeting. simpl. by apply withTransactions_fixed with t.
Qed.

Lemma confirmDelivery_idempotent_witness :
  ∃ r w1 w2,
    @ConfirmDelivery.POST Sample.externals (Sample.post "bob" "tx1" [])
      (Sample.world PAID [] []) = (r, w1)
    ∧ @ConfirmDelivery.POST Sample.externals (Sample.post "bob" "tx1" []) w1 = (r, w2)
    ∧ r_status r = 200
    ∧ db w1 = withTransactions (alter (moved MEETING) "tx1") (Sample.store PAID [])
    ∧ t_status <$> transactions (db w1) !! "tx1" = Some MEETING
    ∧ db w2 = db w1
    ∧ (PAID = MEETING → db w1 = Sample.store PAID []).
Proof.
  apply (@confirmDelivery_idempotent Sample.externals (Sample.post "bob" "tx1" [])
           "tx1" (Sample.deal PAID) (Sample.world PAID [] [])).
  - exists []. repeat split.
  - reflexivity.
  - reflexivity.
  - apply sample_integrity.
  - apply sample_calm.
  - left. reflexivity.
Defined.

(** ** The state machine: pay *)

(** A payment by the buyer of an ACCEPTED transaction: the status becomes
    PAID, the payment id is stored, [countdownStart] is the first reading of
    the clock and [countdownEnd] is 24 hours after the second reading. *)
Lemma pay_calm `{Externals} (request : Request Json) (id : string)
    (t : Transaction) (w : World) (j : Json) (paymentId : string) :
  body request = Some j →
  payTransactionSchema j = Some (id, paymentId) →
  caller pay request = Some (t_buyerId t) →
  transactions (db w) !! id = Some t →
  t_status t = ACCEPTED →
  calm 2 w →
  let start := clock w in
  let finish := clock w + hd 0 (drift w) + 24 * 60 * 60 * 1000 in
  let paid := applyTransactionData
                (mkTransactionData (Some PAID) (Some paymentId) None
                                   (Some start) (Some finish)) t in
  Pay.POST request w =
    (mkResponse 200
       (JPaid "Payment secured in escrow. Please arrange meetup." paid start finish 24),
     mkWorld (withTransactions (alter (λ _, paid) id) (db w))
             (tl (tl (faults w)))
             (clock w + hd 0 (drift w) + hd 0 (tl (drift w))) (tl (tl (drift w)))).
Proof.
  intros Hbody Hv Hcaller Ht Hst Hcalm. simpl in *.
  unfold Pay.POST. rewrite Hcaller.
  unfold try_catch, request_json, mbind, Async_bind, mret, Async_ret. simpl.
  rewrite Hbody, Hv.
  rewrite findUnique_calm by (apply (calm_le 1 2); [lia|done]). rewrite Ht.
  rewrite decide_False by (intros Hne; by apply Hne).
  rewrite decide_False by (intros Hne; by apply Hne).
  unfold Date_now. simpl.
  rewrite (transaction_update_calm _ _ _ t); [|simpl; by eapply calm_hd_tl | done].
  simpl. unfold Pay.MEETUP_TIMEOUT_HOURS, withTransactions.
  rewrite (alter_agree _ _ (λ _, applyTransactionData
             (mkTransactionData (Some PAID) (Some paymentId) None (Some (clock w))
                (Some (clock w + hd 0 (drift w) + 24 * 60 * 60 * 1000))) t) _ t Ht)
    by done.
  reflexivity.
Qed.

(** A payment is accepted exactly when the caller is the buyer and the
    transaction is ACCEPTED. *)
Lemma pay_succeeds_iff `{Externals} (request : Request Json) (id : string)
    (t : Transaction) (w : World) (j : Json) (paymentId userId : string) :
  body request = Some j →
  payTransactionSchema j = Some (id, paymentId) →
  caller pay request = Some userId →
  transactions (db w) !! id = Some t →
  calm 2 w →
  r_status (Pay.POST request w).1 = 200
  ↔ t_status t = ACCEPTED ∧ t_buyerId t = userId.
Proof.
  intros Hbody Hv Hcaller Ht Hcalm. split.
  - simpl in Hcaller. unfold Pay.POST. rewrite Hcaller.
    unfold try_catch, request_json, mbind, Async_bind, mret, Async_ret. simpl.
    rewrite Hbody, Hv.
    rewrite findUnique_calm by (apply (calm_le 1 2); [lia|done]). rewrite Ht.
    destruct (decide (t_buyerId t ≠ userId)); [simpl; discriminate|].
    destruct (decide (t_status t ≠ ACCEPTED)); [simpl; discriminate|].
    intros _. split.
    + by destruct (decide (t_status t = ACCEPTED)).
    + by destruct (decide (t_buyerId t = userId)).
  - intros [Hst <-].
    by rewrite (pay_calm request id t w j paymentId Hbody Hv Hcaller Ht Hst Hcalm).
Qed.

(** C4, evaluated. Alice pays for the ACCEPTED transaction while the clock
    moves by one millisecond between the two readings the route makes: the
    payment is accepted, the status is PAID and the payment id is stored,
    but [countdownEnd - countdownStart] is 24 hours and one millisecond. *)
Theorem pay_countdown_two_readings :
  ∃ paid w',
    @Pay.POST Sample.externals
      (Sample.post "alice" "" [("transactionId", "tx1"); ("paymentId", "pay_1")])
      (Sample.world ACCEPTED [] [1])
    = (mkResponse 200
         (JPaid "Payment secured in escrow. Please arrange meetup." paid
                1000 86401001 24), w')
    ∧ transactions (db w') !! "tx1" = Some paid
    ∧ t_status paid = PAID
    ∧ t_paymentId paid = Some "pay_1"
    ∧ t_countdownStart paid = Some 1000
    ∧ t_countdownEnd paid = Some 86401001
    ∧ 86401001 - 1000 ≠ 24 * 60 * 60 * 1000.
Proof.
  eexists _, _. split; [vm_compute; reflexivity|].
  repeat split. vm_compute. discriminate.
Qed.

(** ** The notifier: what a pass leaves alone *)

Lemma chat_url_inj (a b : string) : "/chat/" +:+ a = "/chat/" +:+ b → a = b.
Proof. intros Heq. cbn in Heq. by injection Heq. Qed.

Lemma toasts_app (evs1 evs2 : list Event) :
  MessageNotifier.toasts (evs1 ++ evs2)
  = MessageNotifier.toasts evs1 ++ MessageNotifier.toasts evs2.
Proof. apply omap_app. Qed.

(** One turn of the loop changes at most the watermark of its transaction. *)
Lemma visit_frame (b : Browser) (token : string) (self : MessageNotifier)
    (transaction : TransactionJson) :
  let self' := this (MessageNotifier.visit b token self transaction) in
  activeTransactionIds self' = activeTransactionIds self
  ∧ lastCheckTime self' = lastCheckTime self
  ∧ currentUserId self' = currentUserId self
  ∧ ∀ id, id ≠ j_id transaction →
      lastMessageTimestamps self' !! id = lastMessageTimestamps self !! id.
Proof.
  unfold MessageNotifier.visit.
  repeat case_match; simpl; repeat split; try done;
    intros id Hid; by rewrite lookup_insert_ne.
Qed.

Lemma forTransactions_frame (b : Browser) (token : string)
    (transactions : list TransactionJson) (self : MessageNotifier) :
  let self' := this (MessageNotifier.forTransactions b token transactions self) in
  activeTransactionIds self' = activeTransactionIds self
  ∧ lastCheckTime self' = lastCheckTime self
  ∧ currentUserId self' = currentUserId self.
Proof.
  revert self. induction transactions as [|transaction rest IH]; intros self; simpl.
  - done.
  - destruct (visit_frame b token self transaction) as (Ha & Hc & Hu & _).
    destruct (finished (MessageNotifier.visit b token self transaction)); simpl.
    + destruct (IH (this (MessageNotifier.visit b token self transaction)))
        as (Ha' & Hc' & Hu').
      by rewrite Ha', Hc', Hu'.
    + done.
Qed.

(** A toast of a turn is for the transaction of the turn, which is not in
    the suppression set. *)
Lemma visit_toast (b : Browser) (token : string) (self : MessageNotifier)
    (transaction : TransactionJson) (toast : Toast) :
  toast ∈ MessageNotifier.toasts (events (MessageNotifier.visit b token self transaction)) →
  actionUrl toast = "/chat/" +:+ j_id transaction
  ∧ j_id transaction ∉ activeTransactionIds self.
Proof.
  unfold MessageNotifier.visit.
  repeat case_match; simpl; try (by intros ?%elem_of_nil).
  all: intros ->%list_elem_of_singleton; by simpl.
Qed.

Lemma forTransactions_toast (b : Browser) (token : string)
    (transactions : list TransactionJson) (self : MessageNotifier) (toast : Toast) :
  toast ∈ MessageNotifier.toasts
            (events (MessageNotifier.forTransactions b token transactions self)) →
  ∃ transaction, transaction ∈ transactions
    ∧ actionUrl toast = "/chat/" +:+ j_id transaction
    ∧ j_id transaction ∉ activeTransactionIds self.
Proof.
  revert self. induction transactions as [|transaction rest IH]; intros self; simpl.
  - by intros ?%elem_of_nil.
  - destruct (visit_frame b token self transaction) as (Ha & _).
    destruct (finished (MessageNotifier.visit b token self transaction)); simpl.
    + rewrite toasts_app, elem_of_app. intros [Hnow|Hlater].
      * exists transaction. split; [left|]. by apply visit_toast in Hnow.
      * destruct (IH _ Hlater) as (tx & Hin & Hurl & Hact).
        exists tx. split; [by right|]. split; [done|]. by rewrite <- Ha.
    + intros Hnow. exists transaction. split; [left|]. by apply visit_toast in Hnow.
Qed.

(** The toasts of a pass are those of its loop. *)
Lemma checkForNewMessages_toast (b : Browser) (self : MessageNotifier) (toast : Toast) :
  toast ∈ MessageNotifier.toasts (events (MessageNotifier.checkForNewMessages b self)) →
  ∃ token transactions,
    toast ∈ MessageNotifier.toasts
              (events (MessageNotifier.forTransactions b token transactions self)).
Proof.
  unfold MessageNotifier.checkForNewMessages.
  destruct (truthy (currentUserId self)); [|by intros ?%elem_of_nil].
  destruct (document_hidden b); [by intros ?%elem_of_nil|].
  destruct (truthy (localStorage_token b)) as [token|]; [|by intros ?%elem_of_nil].
  destruct (fetch_transactions b token) as [| |data];
    [by intros ?%elem_of_nil | by intros ?%elem_of_nil |].
  intros Hin. exists token, (default [] data).
  destruct (finished _); simpl in Hin; [done|].
  change (Fetch_transactions :: ?l) with ([Fetch_transactions] ++ l) in Hin.
  rewrite !toasts_app in Hin. simpl in Hin. by rewrite app_nil_r in Hin.
Qed.

(** C9. A transaction that is in the suppression set when a pass comes to
    it gets no notification from that pass, whatever the server would
    answer: the turn of the loop for it makes no request, shows no toast and
    changes nothing, and no toast of the whole pass links to its chat. *)
Theorem suppressed_not_notified (b : Browser) (self : MessageNotifier) (id : string) :
  id ∈ activeTransactionIds self →
  (∀ token transaction, j_id transaction = id →
     MessageNotifier.visit b token self transaction = mkPass true self [])
  ∧ Forall (λ toast, actionUrl toast ≠ "/chat/" +:+ id)
      (MessageNotifier.toasts (events (MessageNotifier.checkForNewMessages b self))).
Proof.
  intros Hactive. split.
  - intros token transaction <-. unfold MessageNotifier.visit.
    by rewrite decide_True.
  - apply Forall_forall. intros toast Htoast Hurl.
    apply checkForNewMessages_toast in Htoast as (token & transactions & Htoast).
    apply forTransactions_toast in Htoast as (tx & _ & Hurl' & Hact).
    rewrite Hurl in Hurl'. by apply chat_url_inj in Hurl' as ->.
Qed.

Lemma suppressed_not_notified_witness :
  (∀ token transaction, j_id transaction = "tx1" →
     MessageNotifier.visit
       (Sample.page_with [Sample.declared; Sample.declared_two] Sample.store_two 5000)
       token Sample.viewing transaction
     = mkPass true Sample.viewing [])
  ∧ Forall (λ toast, actionUrl toast ≠ "/chat/tx1")
      (MessageNotifier.toasts (events Sample.pass_while_viewing)).
Proof.
  apply (suppressed_not_notified
           (Sample.page_with [Sample.declared; Sample.declared_two]
                             Sample.store_two 5000)
           Sample.viewing "tx1").
  vm_compute. reflexivity.
Defined.

Example pass_while_viewing_toasts :
  MessageNotifier.toasts (events Sample.pass_while_viewing)
  = [mkToast "message" "New message from Bob" "still there?" "/chat/tx2"
             "View Chat" 6000].
Proof. vm_compute. reflexivity. Qed.

(** ** The new-messages route *)

#[global] Instance createdAt_asc_trans : Transitive NewMessages.createdAt_asc.
Proof. unfold NewMessages.createdAt_asc. intros a b c. lia. Qed.

#[global] Instance createdAt_asc_total : Total NewMessages.createdAt_asc.
Proof. unfold NewMessages.createdAt_asc. intros a b. lia. Qed.

(** The answer to a party of the transaction when the store answers. *)
Lemma newMessages_calm `{Externals} (request : Request Json) (t : Transaction)
    (w : World) (userId : string) :
  truthy (getUserFromRequest request) = Some userId →
  transactions (db w) !! param_id request = Some t →
  t_buyerId t = userId ∨ t_sellerId t = userId →
  query_after request ≠ Some InvalidDate →
  (∀ ms, query_after request = Some (ValidDate ms) → Date_range (ms - 500)) →
  calm 2 w →
  let msgs := take 50 (merge_sort NewMessages.createdAt_asc
                         (selected (param_id request) (query_after request) (db w))) in
  NewMessages.GET request w =
    (mkResponse 200 (JMessages msgs (length msgs)),
     mkWorld (db w) (tl (tl (faults w))) (clock w) (drift w)).
Proof.
  intros Hcaller Ht Hparty Hafter Hrange Hcalm. simpl.
  unfold NewMessages.GET. rewrite Hcaller.
  unfold try_catch, mbind, Async_bind, mret, Async_ret. simpl.
  rewrite findUnique_calm by (apply (calm_le 1 2); [lia|done]). rewrite Ht.
  rewrite decide_False by (intros [? ?]; by destruct Hparty).
  unfold NewMessages.message_findMany.
  rewrite storeCall_calm by (simpl; by eapply calm_hd_tl).
  unfold selected, window. simpl.
  destruct (query_after request) as [[ms|]|]; simpl; [|done..].
  by rewrite decide_True by by apply Hrange.
Qed.

(** C10. A party of the transaction that asks for the new messages, with
    none or a well-formed [after] at least 500 ms above the lower end of the
    range of dates, gets at most 50 messages in ascending order
    of [createdAt]; they are messages that pass the filter, and the ones
    left out, present exactly when more than 50 pass, are at least as new
    as every message of the answer. *)
Theorem new_messages_oldest_fifty `{Externals} (request : Request Json)
    (t : Transaction) (w : World) (userId : string) :
  truthy (getUserFromRequest request) = Some userId →
  transactions (db w) !! param_id request = Some t →
  t_buyerId t = userId ∨ t_sellerId t = userId →
  query_after request ≠ Some InvalidDate →
  (∀ ms, query_after request = Some (ValidDate ms) → Date_range (ms - 500)) →
  calm 2 w →
  ∃ msgs omitted w',
    NewMessages.GET request w = (mkResponse 200 (JMessages msgs (length msgs)), w')
    ∧ db w' = db w
    ∧ (length msgs ≤ 50)%nat
    ∧ StronglySorted NewMessages.createdAt_asc msgs
    ∧ msgs ++ omitted ≡ₚ selected (param_id request) (query_after request) (db w)
    ∧ length omitted
      = (length (selected (param_id request) (query_after request) (db w)) - 50)%nat
    ∧ ∀ m o, m ∈ msgs → o ∈ omitted → m_createdAt m ≤ m_createdAt o.
Proof.
  intros Hcaller Ht Hparty Hafter Hrange Hcalm.
  pose proof (newMessages_calm request t w userId Hcaller Ht Hparty Hafter Hrange
                Hcalm) as Hrun. simpl in Hrun.
  set (found := selected (param_id request) (query_after request) (db w)) in *.
  set (sorted := merge_sort NewMessages.createdAt_asc found) in *.
  assert (StronglySorted NewMessages.createdAt_asc (take 50 sorted ++ drop 50 sorted))
    as Hsorted.
  { rewrite take_drop. apply Sorted_StronglySorted; [apply _|].
    apply Sorted_merge_sort; apply _. }
  eexists (take 50 sorted), (drop 50 sorted), _.
  split; [exact Hrun|]. split; [done|].
  split. { rewrite length_take. lia. }
  split. { by eapply StronglySorted_app_1_l. }
  split. { rewrite take_drop. apply merge_sort_Permutation. }
  split. { rewrite length_drop. unfold sorted.
           by rewrite (Permutation_length (merge_sort_Permutation _ found)). }
  intros m o Hm Ho.
  exact (StronglySorted_app_1_elem_of _ _ _ m o Hsorted Hm Ho).
Qed.

(** ** The notifier: the requests of a pass *)

Lemma visit_request (b : Browser) (token : string) (self : MessageNotifier)
    (transaction : TransactionJson) (id : string) (after : option Z)
    (answer : Fetched (option (list Message))) :
  Fetch_new id after answer ∈ events (MessageNotifier.visit b token self transaction) →
  id = j_id transaction
  ∧ (id ∉ activeTransactionIds self)
  ∧ after = MessageNotifier.lastKnownTime self id
  ∧ answer = fetch_new b token id after.
Proof.
  unfold MessageNotifier.visit.
  destruct (decide (j_id transaction ∈ activeTransactionIds self)) as [|Hout];
    [by intros ?%elem_of_nil|].
  set (request := Fetch_new (j_id transaction)
          (MessageNotifier.lastKnownTime self (j_id transaction))
          (fetch_new b token (j_id transaction)
             (MessageNotifier.lastKnownTime self (j_id transaction)))).
  assert (∀ evs, Fetch_new id after answer ∈ (request :: evs) →
      (∀ ev, ev ∈ evs → ∃ toast, ev = ShowToast toast) →
      id = j_id transaction ∧ (id ∉ activeTransactionIds self)
      ∧ after = MessageNotifier.lastKnownTime self id
      ∧ answer = fetch_new b token id after) as Hhead.
  { intros evs [Heq|Hin]%elem_of_cons Hevs.
    - by injection Heq as -> -> ->.
    - by destruct (Hevs _ Hin). }
  repeat case_match; intros Hin; apply (Hhead _ Hin);
    intros ev Hev; try (by apply elem_of_nil in Hev).
  all: apply list_elem_of_singleton in Hev; by eexists.
Qed.

Lemma lastKnownTime_frame (self self' : MessageNotifier) (id : string) :
  lastCheckTime self' = lastCheckTime self →
  lastMessageTimestamps self' !! id = lastMessageTimestamps self !! id →
  MessageNotifier.lastKnownTime self' id = MessageNotifier.lastKnownTime self id.
Proof. unfold MessageNotifier.lastKnownTime. by intros -> ->. Qed.

Lemma forTransactions_request (b : Browser) (token : string)
    (transactions : list TransactionJson) (self : MessageNotifier) (id : string)
    (after : option Z) (answer : Fetched (option (list Message))) :
  NoDup (j_id <$> transactions) →
  Fetch_new id after answer
    ∈ events (MessageNotifier.forTransactions b token transactions self) →
  id ∈ j_id <$> transactions
  ∧ (id ∉ activeTransactionIds self)
  ∧ after = MessageNotifier.lastKnownTime self id
  ∧ answer = fetch_new b token id after.
Proof.
  revert self. induction transactions as [|transaction rest IH]; intros self; simpl.
  - by intros _ ?%elem_of_nil.
  - intros [Hfresh Hrest]%NoDup_cons.
    destruct (visit_frame b token self transaction) as (Ha & Hc & _ & Hseen).
    destruct (finished (MessageNotifier.visit b token self transaction)); simpl.
    + rewrite elem_of_app. intros [Hnow|Hlater].
      * apply visit_request in Hnow as (-> & ? & ? & ?). split; [left|done].
      * destruct (IH _ Hrest Hlater) as (Hin & Hout & -> & ->).
        split; [by right|]. split; [by rewrite <- Ha|].
        split; [|done]. apply lastKnownTime_frame; [done|].
        apply Hseen. intros ->. done.
    + intros Hnow. apply visit_request in Hnow as (-> & ? & ? & ?). split; [left|done].
Qed.

Lemma checkForNewMessages_request (b : Browser) (self : MessageNotifier) (id : string)
    (after : option Z) (answer : Fetched (option (list Message))) :
  Fetch_new id after answer ∈ events (MessageNotifier.checkForNewMessages b self) →
  ∃ token data,
    truthy (localStorage_token b) = Some token
    ∧ fetch_transactions b token = Ok data
    ∧ Fetch_new id after answer
        ∈ events (MessageNotifier.forTransactions b token (default [] data) self).
Proof.
  unfold MessageNotifier.checkForNewMessages.
  destruct (truthy (currentUserId self)); [|by intros ?%elem_of_nil].
  destruct (document_hidden b); [by intros ?%elem_of_nil|].
  destruct (truthy (localStorage_token b)) as [token|]; [|by intros ?%elem_of_nil].
  destruct (fetch_transactions b token) as [| |data] eqn:Hlist; simpl.
  - intros [?|[?|?%elem_of_nil]%elem_of_cons]%elem_of_cons; done.
  - intros [?|?%elem_of_nil]%elem_of_cons; done.
  - intros Hin. exists token, data. split; [done|]. split; [done|].
    destruct (finished _); simpl in Hin.
    + by apply elem_of_cons in Hin as [?|?].
    + apply elem_of_cons in Hin as [?|Hin]; [done|].
      by apply elem_of_app in Hin as [?|[?|?%elem_of_nil]%elem_of_cons].
Qed.

Lemma new_over_party `{Externals} (d : Db) (now : Z) (token id : string)
    (after : option Z) (userId : string) (t : Transaction) :
  truthy (getUserFromRequest (get token id after)) = Some userId →
  transactions d !! id = Some t →
  t_buyerId t = userId ∨ t_sellerId t = userId →
  (∀ a, after = Some a → Date_range (a - 500)) →
  new_over d now token id after
  = Ok (Some (take 50 (merge_sort NewMessages.createdAt_asc
                         (selected id (ValidDate <$> after) d)))).
Proof.
  intros Hcaller Ht Hparty Hrange. unfold new_over.
  rewrite (newMessages_calm (get token id after) t (mkWorld d [] now []) userId);
    try done.
  - by destruct after.
  - intros ms Hms. apply Hrange. destruct after; simpl in Hms; by simplify_eq.
  - unfold calm. simpl. constructor.
Qed.

Lemma selected_after (d : Db) (id : string) (after : Z) (m : Message) :
  Date_range (after - 500) →
  m ∈ selected id (Some (ValidDate after)) d
  ↔ m ∈ messages d ∧ m_transactionId m = id ∧ after - 500 < m_createdAt m.
Proof.
  intros Hrange. unfold selected, window, NewMessages.matches. simpl.
  rewrite decide_True by done.
  rewrite list_elem_of_filter, andb_true_iff, !bool_decide_eq_true. tauto.
Qed.

(** C7, as the code has it. In a pass over a list without repeated
    transactions, every message request is for a transaction outside the
    suppression set and carries [after = lastSeen[id]] when that watermark is
    set and [lastCheckTime] otherwise (the per-transaction watermark wins
    also when it is the smaller one). The route answers a party with the
    messages of the transaction whose [createdAt] is strictly greater than
    [after] less 500 ms, in ascending order, cut after the first 50; this
    for an [after] such that [after] less 500 ms is still a date. *)
Theorem fetches_after_last_known `{Externals} (d : Db) (b : Browser)
    (self : MessageNotifier) (token userId : string)
    (data : option (list TransactionJson)) (id : string) (after : option Z)
    (answer : Fetched (option (list Message))) :
  fetch_new b = new_over d (page_clock b) →
  truthy (localStorage_token b) = Some token →
  fetch_transactions b token = Ok data →
  NoDup (j_id <$> default [] data) →
  (∀ id after, truthy (getUserFromRequest (get token id after)) = Some userId) →
  Fetch_new id after answer ∈ events (MessageNotifier.checkForNewMessages b self) →
  (id ∉ activeTransactionIds self)
  ∧ after = match lastMessageTimestamps self !! id with
            | Some seen => Some seen
            | None => lastCheckTime self
            end
  ∧ ∀ t, transactions d !! id = Some t →
         t_buyerId t = userId ∨ t_sellerId t = userId →
         (∀ a, after = Some a → Date_range (a - 500)) →
         answer = Ok (Some (take 50 (merge_sort NewMessages.createdAt_asc
                                       (selected id (ValidDate <$> after) d))))
         ∧ ∀ a m, after = Some a →
             (m ∈ selected id (ValidDate <$> after) d
              ↔ m ∈ messages d ∧ m_transactionId m = id ∧ a - 500 < m_createdAt m).
Proof.
  intros Hnet Htoken Hlist Hnodup Hauth Hin.
  apply checkForNewMessages_request in Hin as (token' & data' & Htoken' & Hlist' & Hin).
  rewrite Htoken in Htoken'. injection Htoken' as <-.
  rewrite Hlist in Hlist'. injection Hlist' as <-.
  apply forTransactions_request in Hin as (_ & Hout & Hafter & Hanswer); [|done].
  split; [done|]. split; [done|].
  intros t Ht Hparty Hrange. split.
  - rewrite Hanswer, Hnet. by eapply new_over_party.
  - intros a m ->. apply selected_after. by apply Hrange.
Qed.

(** The requests of a pass do not use the larger of the two watermarks.
    After the pass of 5000 the watermark of the transaction is 1000 and the
    last check is 5040; the pass of 10000 asks for the messages after 1000
    and gets those of the instants 1000 and 7000, while only the second is
    newer than 5040 less 500 ms. *)
Lemma not_fetches_after_larger_watermark :
  ¬ @fetches_after_larger_watermark Sample.externals.
Proof.
  intros Hwindow.
  pose proof (Hwindow (Sample.store PAID [Sample.hello; Sample.bye])
                (Sample.page_with [Sample.declared]
                   (Sample.store PAID [Sample.hello; Sample.bye]) 10000)
                (this Sample.first_pass) "tx1" (Some 1000)
                [Sample.hello; Sample.bye] 5040 eq_refl) as Hperm.
  apply Permutation_length in Hperm.
  - vm_compute in Hperm. discriminate.
  - apply list_elem_of_In. vm_compute. right. left. reflexivity.
  - vm_compute. reflexivity.
Qed.

Lemma fetches_after_last_known_witness :
  ("tx1" ∉ activeTransactionIds (this Sample.first_pass))
  ∧ Some 1000 = match lastMessageTimestamps (this Sample.first_pass) !! "tx1" with
                | Some seen => Some seen
                | None => lastCheckTime (this Sample.first_pass)
                end
  ∧ ∀ t, transactions (Sample.store PAID [Sample.hello; Sample.bye]) !! "tx1" = Some t →
         t_buyerId t = "alice" ∨ t_sellerId t = "alice" →
         (∀ a, Some 1000 = Some a → Date_range (a - 500)) →
         Ok (Some [Sample.hello; Sample.bye])
         = Ok (Some (take 50 (merge_sort NewMessages.createdAt_asc
                        (selected "tx1" (ValidDate <$> Some 1000)
                           (Sample.store PAID [Sample.hello; Sample.bye])))))
         ∧ ∀ a m, Some 1000 = Some a →
             (m ∈ selected "tx1" (ValidDate <$> Some 1000)
                    (Sample.store PAID [Sample.hello; Sample.bye])
              ↔ m ∈ messages (Sample.store PAID [Sample.hello; Sample.bye])
                ∧ m_transactionId m = "tx1" ∧ a - 500 < m_createdAt m).
Proof.
  apply (@fetches_after_last_known Sample.externals
           (Sample.store PAID [Sample.hello; Sample.bye])
           (Sample.page_with [Sample.declared]
              (Sample.store PAID [Sample.hello; Sample.bye]) 10000)
           (this Sample.first_pass)
           "alice" "alice" (Some [Sample.declared]) "tx1" (Some 1000)
           (Ok (Some [Sample.hello; Sample.bye]))).
  - reflexivity.
  - reflexivity.
  - reflexivity.
  - apply NoDup_singleton.
  - intros id after. reflexivity.
  - apply list_elem_of_In. vm_compute. right. left. reflexivity.
Defined.

(** ** The notifier: two passes evaluated *)

(** The notifier after the sign-in: running, last check at 940, no
    watermark, nothing suppressed. *)
Example started_state :
  Sample.started = mkMessageNotifier true true (Some 940) (Some "alice") ∅ ∅.
Proof. vm_compute. reflexivity. Qed.

(** C6, evaluated. Bob has written at the instant 1000 and Alice has
    answered at 2000. The pass of Alice's notifier fetches both messages and
    shows one toast, and leaves the watermark of the transaction at 1000,
    the instant of Bob's message, not at 2000, the newest fetched one. *)
Theorem lastSeen_stops_at_counterpart_message :
  events Sample.pass_after_reply
  = [Fetch_transactions;
     Fetch_new "tx1" (Some 940) (Ok (Some [Sample.hello; Sample.mine]));
     ShowToast (mkToast "message" "New message from Bob" "hello" "/chat/tx1"
                        "View Chat" 6000)]
  ∧ m_createdAt <$> last [Sample.hello; Sample.mine] = Some 2000
  ∧ lastMessageTimestamps (this Sample.pass_after_reply) !! "tx1" = Some 1000.
Proof. vm_compute. repeat split. Qed.

(** The sibling branch: when only Alice's own message is fetched the
    watermark does go to the newest fetched message. *)
Example lastSeen_after_own_messages_only :
  lastMessageTimestamps
    (this (MessageNotifier.checkForNewMessages
             (Sample.page_with [Sample.declared] (Sample.store PAID [Sample.mine]) 5000)
             Sample.started))
  !! "tx1" = Some 2000.
Proof. vm_compute. reflexivity. Qed.

(** C8, evaluated, on two runs.
    Over the routes of the repository: the list route sends [otherParty] and
    no [buyer]; the pass fetches Bob's message, fails on
    [transaction.buyer.id], logs the error and shows no toast.
    With a list entry as the notifier declares it: the first pass shows Bob's
    first message and sets the watermark to its instant, 1000; the second
    pass, after Bob's second message, asks for the messages after 1000, gets
    the first message again with the second, and shows the first one again,
    although the only message newer than the watermark is the second. *)
Theorem notification_runs :
  (events Sample.pass_over_routes
   = [Fetch_transactions;
      Fetch_new "tx1" (Some 940) (Ok (Some [Sample.hello]));
      Console_error]
   ∧ finished Sample.pass_over_routes = false
   ∧ MessageNotifier.toasts (events Sample.pass_over_routes) = []
   ∧ lastCheckTime (this Sample.pass_over_routes) = Some 940)
  ∧ (MessageNotifier.toasts (events Sample.first_pass)
     = [mkToast "message" "New message from Bob" "hello" "/chat/tx1" "View Chat" 6000]
     ∧ lastMessageTimestamps (this Sample.first_pass) !! "tx1" = Some 1000
     ∧ events Sample.second_pass
       = [Fetch_transactions;
          Fetch_new "tx1" (Some 1000) (Ok (Some [Sample.hello; Sample.bye]));
          ShowToast (mkToast "message" "New message from Bob" "hello" "/chat/tx1"
                             "View Chat" 6000)]
     ∧ filter (λ m, 1000 < m_createdAt m) [Sample.hello; Sample.bye] = [Sample.bye]).
Proof. vm_compute. repeat split. Qed.

(** What the list route sends for the transaction: the other party and the
    role, and neither [buyer] nor [seller]. *)
Example list_route_entry :
  (@Transactions.GET Sample.externals (@get Sample.externals "alice" "" None)
     (mkWorld (Sample.store PAID [Sample.hello]) [] 5000 [])).1
  = mkResponse 200
      (JTransactions
         [mkTransactionJson "tx1" (Some PAID) None (Some "Desk lamp") None None
            (Some (mkParty "bob" "Bob"))
            (Some (mkLatestMessage "m1" "hello" "bob" "Bob" 1000)) (Some "buyer")]
         1).
Proof. vm_compute. reflexivity. Qed.

Lemma quiet_store_calm n d now : calm n (mkWorld d [] now []).
Proof. unfold calm. simpl. rewrite take_nil. constructor. Qed.

Lemma new_messages_oldest_fifty_witness :
  ∃ msgs omitted w',
    @NewMessages.GET Sample.externals (@get Sample.externals "alice" "tx1" (Some 0))
      (mkWorld (Sample.store PAID Sample.burst) [] 5000 [])
    = (mkResponse 200 (JMessages msgs (length msgs)), w')
    ∧ db w' = Sample.store PAID Sample.burst
    ∧ (length msgs ≤ 50)%nat
    ∧ StronglySorted NewMessages.createdAt_asc msgs
    ∧ msgs ++ omitted
      ≡ₚ selected "tx1" (Some (ValidDate 0)) (Sample.store PAID Sample.burst)
    ∧ length omitted
      = (length (selected "tx1" (Some (ValidDate 0))
                   (Sample.store PAID Sample.burst)) - 50)%nat
    ∧ ∀ m o, m ∈ msgs → o ∈ omitted → m_createdAt m ≤ m_createdAt o.
Proof.
  apply (@new_messages_oldest_fifty Sample.externals
           (@get Sample.externals "alice" "tx1" (Some 0)) (Sample.deal PAID)
           (mkWorld (Sample.store PAID Sample.burst) [] 5000 []) "alice").
  - reflexivity.
  - reflexivity.
  - left. reflexivity.
  - discriminate.
  - intros ms [= <-]. unfold Date_range. lia.
  - apply quiet_store_calm.
Defined.

(** Fifty-two messages pass the filter; the answer has the fifty oldest and
    leaves out the two newest. *)
Example burst_cut :
  match (@NewMessages.GET Sample.externals (@get Sample.externals "alice" "tx1" (Some 0))
           (mkWorld (Sample.store PAID Sample.burst) [] 5000 [])).1 with
  | mkResponse 200 (JMessages msgs count) =>
      count = 50%nat
      ∧ m_createdAt <$> head msgs = Some 1949
      ∧ m_createdAt <$> last msgs = Some 1998
  | _ => False
  end
  ∧ length (selected "tx1" (Some (ValidDate 0)) (Sample.store PAID Sample.burst)) = 52%nat.
Proof. vm_compute. repeat split. Qed.

(** ** The notifier: what a turn shows *)

(** The preview is the content when it has at most 50 characters, and its
    first 50 characters followed by the marker otherwise. *)
Lemma preview_short (content : string) :
  (String.length content ≤ 50)%nat → MessageNotifier.preview content = content.
Proof.
  intros Hlen. unfold MessageNotifier.preview.
  rewrite bool_decide_eq_false_2 by lia.
  assert (∀ n s, (String.length s ≤ n)%nat → String.substring 0 n s = s) as Hsub.
  { intros n. induction n as [|n IH]; intros [|c s]; simpl; intros Hle;
      try done; try lia. f_equal. apply IH. lia. }
  rewrite Hsub by done. clear. induction content as [|c s IH]; [done|].
  change (String c (s +:+ "") = String c s). by rewrite IH.
Qed.

Lemma preview_long (content : string) :
  (50 < String.length content)%nat →
  MessageNotifier.preview content = String.substring 0 50 content +:+ "..."
  ∧ String.length (String.substring 0 50 content) = 50%nat.
Proof.
  intros Hlen. unfold MessageNotifier.preview.
  rewrite bool_decide_eq_true_2 by lia. split; [done|].
  assert (∀ n s, (n ≤ String.length s)%nat →
                 String.length (String.substring 0 n s) = n) as Hsub.
  { intros n. induction n as [|n IH]; intros [|c s]; simpl; intros Hle;
      try done; try lia. f_equal. apply IH. lia. }
  apply Hsub. lia.
Qed.

(** A turn for a transaction outside the suppression set whose entry carries
    [buyer] and [seller] and whose request is answered with at least one
    message of somebody else shows exactly one toast: it names the buyer
    when the first such message is the buyer's and the seller otherwise,
    previews that first message and links to the chat of the transaction. *)
Lemma visit_shows_first_fetched (b : Browser) (token : string)
    (self : MessageNotifier) (transaction : TransactionJson)
    (data : option (list Message)) (first : Message) (others : list Message)
    (buyer seller : Party) :
  j_id transaction ∉ activeTransactionIds self →
  fetch_new b token (j_id transaction)
    (MessageNotifier.lastKnownTime self (j_id transaction)) = Ok data →
  filter (λ msg, Some (m_senderId msg) ≠ currentUserId self) (default [] data)
  = first :: others →
  j_buyer transaction = Some buyer →
  j_seller transaction = Some seller →
  MessageNotifier.toasts (events (MessageNotifier.visit b token self transaction))
  = [ {| toast_type := "message";
         title := "New message from "
                  +:+ p_name (if decide (p_id buyer = m_senderId first)
                              then buyer else seller);
         message := MessageNotifier.preview (m_content first);
         actionUrl := "/chat/" +:+ j_id transaction;
         actionLabel := "View Chat";
         duration := 6000 |} ].
Proof.
  intros Hout Hfetch Hnew Hbuyer Hseller. unfold MessageNotifier.visit.
  rewrite decide_False by done. rewrite Hfetch. simpl. rewrite Hnew, Hbuyer.
  destruct (decide (p_id buyer = m_senderId first)); [done|].
  by rewrite Hseller.
Qed.

(** The watermark after a turn whose entry carries [buyer]: the instant of
    the last fetched message of somebody else when there is one, and of the
    last fetched message otherwise. *)
Lemma visit_watermark (b : Browser) (token : string) (self : MessageNotifier)
    (transaction : TransactionJson) (data : option (list Message)) (buyer : Party) :
  j_id transaction ∉ activeTransactionIds self →
  fetch_new b token (j_id transaction)
    (MessageNotifier.lastKnownTime self (j_id transaction)) = Ok data →
  j_buyer transaction = Some buyer →
  lastMessageTimestamps (this (MessageNotifier.visit b token self transaction))
    !! j_id transaction
  = match last (filter (λ msg, Some (m_senderId msg) ≠ currentUserId self)
                       (default [] data)),
          last (default [] data) with
    | Some theirs, _ => Some (m_createdAt theirs)
    | None, Some latest => Some (m_createdAt latest)
    | None, None => lastMessageTimestamps self !! j_id transaction
    end.
Proof.
  intros Hout Hfetch Hbuyer. unfold MessageNotifier.visit.
  rewrite decide_False by done. rewrite Hfetch, Hbuyer. simpl.
  destruct (filter _ (default [] data)) as [|first others] eqn:Hnew.
  - simpl. destruct (last (default [] data)); simpl; [|done].
    by rewrite lookup_insert_eq.
  - assert (is_Some (last (first :: others))) as [theirs Hlast]
      by by apply last_is_Some.
    rewrite Hlast. simpl.
    destruct (decide (p_id buyer = m_senderId first)); simpl.
    + by rewrite lookup_insert_eq.
    + destruct (j_seller transaction); simpl; by rewrite lookup_insert_eq.
Qed.

(** ** The notifier over the list route of the repository *)

Lemma visit_without_buyer (b : Browser) (token : string) (self : MessageNotifier)
    (transaction : TransactionJson) :
  j_buyer transaction = None →
  MessageNotifier.toasts (events (MessageNotifier.visit b token self transaction)) = [].
Proof.
  intros Hbuyer. unfold MessageNotifier.visit. rewrite Hbuyer.
  by repeat case_match.
Qed.

Lemma forTransactions_without_buyer (b : Browser) (token : string)
    (transactions : list TransactionJson) (self : MessageNotifier) :
  Forall (λ transaction, j_buyer transaction = None) transactions →
  MessageNotifier.toasts
    (events (MessageNotifier.forTransactions b token transactions self)) = [].
Proof.
  intros Hall. revert self.
  induction Hall as [|transaction rest Hbuyer _ IH]; intros self; simpl; [done|].
  destruct (finished (MessageNotifier.visit b token self transaction)); simpl.
  - by rewrite toasts_app, visit_without_buyer, IH.
  - by apply visit_without_buyer.
Qed.

(** No entry of the list route carries [buyer]. *)
Lemma list_over_entries `{Externals} (d : Db) (now : Z) (token : string)
    (data : option (list TransactionJson)) :
  list_over d now token = Ok data →
  Forall (λ transaction, j_buyer transaction = None) (default [] data).
Proof.
  unfold list_over, Transactions.GET, try_catch.
  destruct (truthy (getUserFromRequest (get token "" None))) as [userId|];
    [|simpl; discriminate].
  unfold mbind, Async_bind, mret, Async_ret.
  destruct (Transactions.transaction_findMany userId _ _) as [[rows|] w'];
    [|simpl; discriminate].
  simpl. intros [= <-]. simpl. by apply Forall_fmap, Forall_true.
Qed.

(** X29. Against the routes of the repository a pass never shows a toast: where
    the turn of a transaction would show one it reads [transaction.buyer.id]
    first, and the list route sends no [buyer]. *)
Lemma no_toast_over_routes `{Externals} (d : Db) (hidden : bool)
    (token : option string) (now elapsed : Z) (self : MessageNotifier) :
  MessageNotifier.toasts
    (events (MessageNotifier.checkForNewMessages (page d hidden token now elapsed) self))
  = [].
Proof.
  unfold MessageNotifier.checkForNewMessages.
  destruct (truthy (currentUserId self)); [|done].
  destruct (document_hidden _); [done|].
  destruct (truthy (localStorage_token _)) as [tok|]; [|done].
  destruct (fetch_transactions _ tok) as [| |data] eqn:Hlist; [done..|].
  apply list_over_entries in Hlist.
  pose proof (forTransactions_without_buyer (page d hidden token now elapsed)
                tok (default [] data) self Hlist) as Hnone.
  destruct (finished _); simpl.
  - done.
  - change (Fetch_transactions :: ?l) with ([Fetch_transactions] ++ l).
    by rewrite !toasts_app, Hnone.
Qed.

(** The message whose instant is the watermark passes the filter of the
    request that carries the watermark: the bound is 500 ms below it. *)
Lemma watermark_message_selected_again (d : Db) (id : string) (m : Message) :
  m ∈ messages d → m_transactionId m = id →
  m ∈ selected id (Some (ValidDate (m_createdAt m))) d.
Proof.
  intros Hin Hid. unfold selected, window, NewMessages.matches. simpl.
  apply list_elem_of_filter. split; [|done].
  rewrite bool_decide_eq_true_2 by done. simpl.
  case_decide; [|done]. apply bool_decide_eq_true. lia.
Qed.

(** * Further properties of the routes *)
(** ** The five routes, whatever the request *)

Ltac unfold_route :=
  unfold try_catch, request_json, mbind, Async_bind, mret, Async_ret, throw,
    prisma.transaction_findUnique, prisma.transaction_findUnique_include,
    prisma.transaction_update, prisma.item_update, prisma.user_update,
    storeCall, Date_now.

Ltac split_cases :=
  repeat (first
            [ match goal with
              | Hb : mbind _ ?x = _ |- _ => destruct x eqn:?; simpl in Hb
              end
            | case_match ];
          simpl in *; simplify_eq).

Lemma one_of_two (a b s : string) : ¬ (a ≠ s ∧ b ≠ s) → a = s ∨ b = s.
Proof.
  intros Hnot. destruct (decide (a = s)); [by left|].
  destruct (decide (b = s)); [by right|]. by destruct Hnot.
Qed.

Lemma not_ne {A} `{EqDecision A} (a b : A) : ¬ a ≠ b → a = b.
Proof. intros Hnot. by destruct (decide (a = b)). Qed.

Lemma one_of_statuses (s a b : TransactionStatus) : ¬ (s ≠ a ∧ s ≠ b) → s = a ∨ s = b.
Proof.
  intros Hnot. destruct (decide (s = a)); [by left|].
  destruct (decide (s = b)); [by right|]. by destruct Hnot.
Qed.

Lemma in_two_statuses (s a b : TransactionStatus) :
  negb (bool_decide (s ∈ [a; b])) = false → s = a ∨ s = b.
Proof.
  intros Hin%negb_false_iff%bool_decide_eq_true.
  apply elem_of_cons in Hin as [?|Hin%list_elem_of_singleton]; auto.
Qed.

Ltac settle :=
  first
    [ done
    | by apply in_two_statuses
    | by apply not_ne
    | by apply one_of_two
    | by apply one_of_statuses
    | by (match goal with Hin : _ ∈ [_; _] |- _ =>
            apply elem_of_cons in Hin as [?|Hin%list_elem_of_singleton]; auto end)
    | by eauto
    | by (repeat match goal with
                 | Hn : negb _ = false |- _ => apply negb_false_iff in Hn
                 end;
          eexists; split; [eassumption|]; simpl; eauto) ].

(** What a request to one of the four routes with a single write comes to:
    an answer other than 200 and the database as before, or 200 and one
    transaction row written as the table of [writes] says, for a caller
    with the role. *)
Lemma single_write_report `{Externals} (op : Operation) (request : Request Json)
    (w : World) :
  op ≠ markReceived →
  (r_status (route op request w).1 ≠ 200
   ∧ db (route op request w).2 = db w)
  ∨ (r_status (route op request w).1 = 200
     ∧ ∃ id t data userId,
         addresses op request id
         ∧ transactions (db w) !! id = Some t
         ∧ caller op request = Some userId ∧ has_role op t userId
         ∧ writes op t data
         ∧ db (route op request w).2
           = withTransactions <[id := applyTransactionData data t]> (db w)).
Proof.
  intros Hop. destruct op; [| | | |done]; simpl.
  - unfold Pay.POST. unfold_route. split_cases;
      try (left; split; [discriminate|done]).
    all: right; split; [done|]; eexists _, _, _, _;
      repeat split; try settle.
  - unfold Meetup.POST. unfold_route. split_cases;
      try (left; split; [discriminate|done]).
    all: right; split; [done|]; eexists _, _, _, _;
      repeat split; try settle.
  - unfold ConfirmDelivery.POST. unfold_route. split_cases;
      try (left; split; [discriminate|done]).
    all: right; split; [done|]; eexists _, _, _, _;
      repeat split; try settle.
    all: right; split; [|done].
    all: match goal with
         | Hst : ¬ (_ ≠ PAID ∧ _ ≠ MEETING) |- _ =>
             by destruct (one_of_statuses _ _ _ Hst)
         end.
  - unfold MarkPaid.POST. unfold_route. split_cases;
      try (left; split; [discriminate|done]).
    all: right; split; [done|]; eexists _, _, _, _;
      repeat split; try settle.
Qed.

Ltac use_known :=
  repeat match goal with
         | Hk : truthy _ = _ |- _ => rewrite Hk
         | Hk : body _ = _ |- _ => rewrite Hk
         | Hk : markReceivedSchema _ _ = _ |- _ => rewrite Hk
         | Hk : transactions _ !! _ = _ |- _ => rewrite Hk
         | Hk : users _ !! _ = _ |- _ => rewrite Hk
         | Hk : items _ !! _ = _ |- _ => rewrite Hk
         end; simpl.

Ltac reject :=
  left; unfold MarkReceived.POST; unfold_route; simpl; use_known;
  try (destruct (faults _) as [|[] ?]; simpl; use_known);
  repeat (case_decide; simpl); try done; (split; [discriminate|done]).

(** What a request to the mark-received route comes to: an answer other
    than 200 and the database as before, or the first [k] writes of the
    cascade for the buyer of a PAID transaction, with 200 exactly when all
    four are in. *)
Lemma markReceived_report `{Externals} (request : Request Json) (w : World) :
  (r_status (MarkReceived.POST request w).1 ≠ 200
   ∧ db (MarkReceived.POST request w).2 = db w)
  ∨ ∃ id t seller buyer item k,
      addresses markReceived request id
      ∧ reads id t seller buyer item (db w)
      ∧ caller markReceived request = Some (t_buyerId t)
      ∧ t_status t = PAID
      ∧ (1 ≤ k ≤ 4)%nat
      ∧ db (MarkReceived.POST request w).2 = committed k id t seller buyer (db w)
      ∧ (r_status (MarkReceived.POST request w).1 = 200 ↔ k = 4%nat).
Proof.
  destruct (truthy (getUserFromRequest request)) as [userId|] eqn:Hcaller;
    [|by reject].
  destruct (body request) as [j|] eqn:Hbody;
    [|by reject].
  destruct (markReceivedSchema (param_id request) j) eqn:Hvalid;
    [|by reject].
  destruct (transactions (db w) !! param_id request) as [t|] eqn:Ht;
    [|by reject].
  destruct (users (db w) !! t_sellerId t) as [seller|] eqn:Hseller;
    [|by reject].
  destruct (users (db w) !! t_buyerId t) as [buyer|] eqn:Hbuyer;
    [|by reject].
  destruct (items (db w) !! t_itemId t) as [item|] eqn:Hitem;
    [|by reject].
  destruct (decide (t_buyerId t = userId)) as [<-|Hother];
    [|by reject].
  destruct (decide (t_status t = PAID)) as [Hpaid|Hstatus];
    [|by reject].
  assert (addresses markReceived request (param_id request)) as Haddr
    by (exists j; by repeat split).
  assert (reads (param_id request) t seller buyer item (db w)) as Hreads
    by by repeat split.
  destruct (first_fault 5 (faults w)) as [n|] eqn:Hfault.
  - destruct (first_fault_Some _ _ _ Hfault) as [Hn [rest Hfs]].
    destruct (markReceived_fault request (param_id request) t seller buyer item
                Haddr Hcaller Hpaid w n rest Hreads ltac:(lia) Hfs)
      as (w' & Hrun & Hdb).
    rewrite Hrun. simpl. destruct (decide (n ≤ 1)%nat) as [Hle|Hgt].
    + left. split; [done|]. rewrite Hdb. by destruct n as [|[|n]]; [..|lia].
    + right. exists (param_id request), t, seller, buyer, item, (pred n).
      repeat split; try done; try lia.
  - destruct (markReceived_calm request (param_id request) t seller buyer item
                Haddr Hcaller Hpaid w Hreads (first_fault_None _ _ Hfault))
      as (w' & Hrun & Hdb).
    rewrite Hrun. simpl. right.
    exists (param_id request), t, seller, buyer, item, 4%nat.
    repeat split; try done; lia.
Qed.

Lemma writes_precondition (op : Operation) (t : Transaction) (data : TransactionData) :
  writes op t data → t_status t ∈ precondition op.
Proof.
  destruct op; simpl.
  - intros [-> _]. by left.
  - intros [[-> | ->] _]; [by left | by right; left].
  - intros [[-> _] | [-> _]]; [by left | by right; left].
  - intros [-> _]. by left.
  - intros [-> _]. by left.
Qed.

Lemma writes_moves (op : Operation) (t : Transaction) (data : TransactionData) :
  writes op t data →
  same_deal t (applyTransactionData data t)
  ∧ (applyTransactionData data t = t
     ∨ edge (t_status t) (t_status (applyTransactionData data t))).
Proof.
  intros Hw. split; [done|].
  destruct op; simpl in Hw.
  - destruct Hw as [Hst (? & ? & ? & ->)]. right. simpl. rewrite Hst. constructor.
  - destruct Hw as [[Hst|Hst] (? & ->)]; right; simpl; rewrite Hst; constructor.
  - destruct Hw as [[Hst ->]|[Hst ->]].
    + right. simpl. rewrite Hst. constructor.
    + left. apply applyTransactionData_nothing.
  - destruct Hw as [Hst ->]. right. simpl. rewrite Hst. constructor.
  - destruct Hw as [Hst ->]. right. simpl. rewrite Hst. constructor.
Qed.

Lemma committed_transactions `{Externals} (k : nat) (id : string) (t : Transaction)
    (seller buyer : User) (d : Db) :
  (1 ≤ k)%nat → transactions d !! id = Some t →
  transactions (committed k id t seller buyer d)
  = <[id := moved COMPLETED t]> (transactions d).
Proof.
  intros Hk Ht. rewrite (insert_as_alter _ _ _ (moved COMPLETED) Ht).
  destruct k as [|[|[|[|k]]]]; [lia|..]; unfold committed, cascade; simpl;
    try rewrite take_nil; done.
Qed.

(** Every request to one of the five routes leaves the table of
    transactions as it is or moves one row along an edge. *)
Lemma route_moves `{Externals} (op : Operation) (request : Request Json) (w : World) :
  moves (transactions (db w)) (transactions (db (route op request w).2)).
Proof.
  destruct (decide (op = markReceived)) as [->|Hop].
  - simpl. destruct (markReceived_report request w)
      as [[_ ->]|(id & t & seller & buyer & item & k & _ & Hreads & _ & Hst & Hk & -> & _)].
    + by left.
    + destruct Hreads as (Ht & _). right. exists id, t, (moved COMPLETED t).
      split; [done|]. split; [done|]. split.
      * simpl. rewrite Hst. constructor.
      * apply committed_transactions; [lia|done].
  - destruct (single_write_report op request w Hop)
      as [[_ ->]|(_ & id & t & data & userId & _ & Ht & _ & _ & Hw & ->)].
    + by left.
    + destruct (writes_moves _ _ _ Hw) as [Hdeal [Hsame|Hedge]].
      * left. simpl. rewrite Hsame. by apply insert_id.
      * right. by exists id, t, (applyTransactionData data t).
Qed.

Lemma moves_lookup (m m' : gmap string Transaction) (id : string) :
  moves m m' →
  match m !! id with
  | Some t => ∃ t', m' !! id = Some t' ∧ same_deal t t'
                    ∧ (t' = t ∨ edge (t_status t) (t_status t'))
  | None => m' !! id = None
  end.
Proof.
  intros [->|(id' & t & t' & Ht & Hdeal & Hedge & ->)].
  - destruct (m !! id) as [t|]; [|done]. exists t.
    split; [done|]. split; [done|]. by left.
  - destruct (decide (id' = id)) as [->|Hne].
    + rewrite Ht, lookup_insert_eq. exists t'.
      split; [done|]. split; [done|]. by right.
    + rewrite lookup_insert_ne by done.
      destruct (m !! id) as [t0|]; [|done]. exists t0.
      split; [done|]. split; [done|]. by left.
Qed.

(** X1. Whatever the request to one of the five routes, and whether the store
    fails or not: no transaction appears or disappears, no transaction
    changes its id, buyer, seller or item, and a transaction either stays as
    it is or moves along ACCEPTED-PAID, REQUESTED-MEETING, ACCEPTED-MEETING,
    PAID-MEETING, MEETING-PAID or PAID-COMPLETED. *)
Theorem routes_follow_edges `{Externals} (op : Operation) (request : Request Json)
    (w : World) (id : string) :
  match transactions (db w) !! id with
  | Some t =>
      ∃ t', transactions (db (route op request w).2) !! id = Some t'
            ∧ same_deal t t'
            ∧ (t' = t ∨ edge (t_status t) (t_status t'))
  | None => transactions (db (route op request w).2) !! id = None
  end.
Proof. apply moves_lookup, route_moves. Qed.

(** X2. A transaction that is COMPLETED, CANCELLED or REFUNDED is left as it
    is by every request to the five routes. *)
Theorem terminal_is_final `{Externals} (op : Operation) (request : Request Json)
    (w : World) (id : string) (t : Transaction) :
  transactions (db w) !! id = Some t →
  t_status t ∈ [COMPLETED; CANCELLED; REFUNDED] →
  transactions (db (route op request w).2) !! id = Some t.
Proof.
  intros Ht Hterminal.
  pose proof (moves_lookup _ _ id (route_moves op request w)) as Hmove.
  rewrite Ht in Hmove. destruct Hmove as (t' & Ht' & _ & [->|Hedge]); [done|].
  exfalso. destruct (t_status t); try (by inversion Hedge).
  all: repeat (apply elem_of_cons in Hterminal as [Hterminal|Hterminal];
               [discriminate|]).
  all: by apply elem_of_nil in Hterminal.
Qed.

Lemma same_deal_trans (a b c : Transaction) :
  same_deal a b → same_deal b c → same_deal a c.
Proof. intros (? & ? & ? & ?) (? & ? & ? & ?). repeat split; congruence. Qed.

(** X3. Over any history of requests to the five routes a transaction keeps
    its deal and its status follows a path of edges. *)
Theorem history_follows_edges `{Externals}
    (requests : list (Operation * Request Json)) (w : World) (id : string)
    (t : Transaction) :
  transactions (db w) !! id = Some t →
  ∃ t', transactions (db (history requests w)) !! id = Some t'
        ∧ same_deal t t' ∧ rtc edge (t_status t) (t_status t').
Proof.
  revert w t. induction requests as [|[op request] rest IH]; intros w t Ht; simpl.
  - exists t. by repeat split.
  - pose proof (moves_lookup _ _ id (route_moves op request w)) as Hmove.
    rewrite Ht in Hmove. destruct Hmove as (t1 & Ht1 & Hdeal1 & Hstep).
    destruct (IH _ _ Ht1) as (t' & Ht' & Hdeal & Hpath).
    exists t'. split; [done|]. split.
    + by eapply same_deal_trans.
    + destruct Hstep as [->|Hedge]; [done|]. by eapply rtc_l.
Qed.

(** X4. A request changes the database only when it comes from a caller with
    the role for the operation on a transaction whose status is a
    precondition of the operation. *)
Theorem only_role_holders_write `{Externals} (op : Operation)
    (request : Request Json) (w : World) :
  db (route op request w).2 ≠ db w →
  ∃ id t userId,
    transactions (db w) !! id = Some t
    ∧ caller op request = Some userId
    ∧ has_role op t userId
    ∧ t_status t ∈ precondition op.
Proof.
  intros Hchanged. destruct (decide (op = markReceived)) as [->|Hop].
  - simpl in Hchanged. destruct (markReceived_report request w)
      as [[_ Hsame]|(id & t & seller & buyer & item & k & _ & Hreads & Hc & Hst & _)];
      [done|].
    destruct Hreads as (Ht & _). exists id, t, (t_buyerId t).
    repeat split; try done. simpl. rewrite Hst. by apply list_elem_of_singleton.
  - destruct (single_write_report op request w Hop)
      as [[_ Hsame]|(_ & id & t & data & userId & _ & Ht & Hc & Hrole & Hw & _)];
      [done|].
    exists id, t, userId. repeat split; try done. by eapply writes_precondition.
Qed.

(** X5. The four routes with a single write are all-or-nothing: items, users
    and messages are never touched; an answer other than 200 leaves the
    database as it was, and an answer 200 comes with exactly one transaction
    row rewritten with the data of the route. *)
Theorem single_write_all_or_nothing `{Externals} (op : Operation)
    (request : Request Json) (w : World) :
  op ≠ markReceived →
  items (db (route op request w).2) = items (db w)
  ∧ users (db (route op request w).2) = users (db w)
  ∧ messages (db (route op request w).2) = messages (db w)
  ∧ (r_status (route op request w).1 ≠ 200 → db (route op request w).2 = db w)
  ∧ (r_status (route op request w).1 = 200 →
     ∃ id t data, transactions (db w) !! id = Some t ∧ writes op t data
       ∧ transactions (db (route op request w).2)
         = <[id := applyTransactionData data t]> (transactions (db w))).
Proof.
  intros Hop.
  destruct (single_write_report op request w Hop)
    as [[Hcode ->]|(Hcode & id & t & data & userId & _ & Ht & _ & _ & Hw & ->)].
  - by repeat split.
  - repeat split; try done. intros _. by exists id, t, data.
Qed.

(** ** The five routes: answers before the status guard *)

Ltac enter_route Hcaller :=
  simpl in Hcaller; simpl;
  unfold Pay.POST, Meetup.POST, ConfirmDelivery.POST, MarkPaid.POST, MarkReceived.POST;
  rewrite Hcaller;
  unfold try_catch, request_json, mbind, Async_bind, mret, Async_ret, throw; simpl.

(** X6. A request without a caller is answered 401 by each of the five
    routes, before the body is read and before any store call: the world is
    exactly as before. *)
Theorem unauthenticated_rejected `{Externals} (op : Operation)
    (request : Request Json) (w : World) :
  caller op request = None →
  route op request w = (error 401 "Unauthorized", w).
Proof. intros Hcaller. destruct op; by enter_route Hcaller. Qed.

(** X7. An authenticated request whose body is not JSON is answered 500 by
    each of the five routes, also by the three whose operation takes no
    payload; no store call is made. *)
Theorem request_without_body_fails `{Externals} (op : Operation)
    (request : Request Json) (w : World) (userId : string) :
  caller op request = Some userId →
  body request = None →
  route op request w = (error 500 "Internal server error", w).
Proof.
  intros Hcaller Hbody. destruct op; enter_route Hcaller; by rewrite Hbody.
Qed.

Ltac pass_validation Haddr :=
  let j := fresh "j" in
  let Hbody := fresh "Hbody" in
  let Hv := fresh "Hv" in
  destruct Haddr as (j & Hbody & Hv); simpl in Hv; rewrite Hbody;
  first [ destruct Hv as [paymentId Hv]; rewrite Hv
        | destruct Hv as [<- [location Hv]]; rewrite Hv
        | destruct Hv as [<- Hv]; rewrite Hv ]; simpl.

(** X8. A validated request of a caller for an id that no transaction has is
    answered 404 and writes nothing. *)
Theorem unknown_transaction_rejected `{Externals} (op : Operation)
    (request : Request Json) (w : World) (id userId : string) :
  addresses op request id →
  caller op request = Some userId →
  transactions (db w) !! id = None →
  calm 1 w →
  ∃ w', route op request w = (error 404 "Transaction not found", w')
        ∧ db w' = db w.
Proof.
  intros Haddr Hcaller Hnone Hcalm.
  destruct op; enter_route Hcaller; pass_validation Haddr.
  1,2,4: rewrite findUnique_calm by done; rewrite Hnone; by eexists.
  all: unfold prisma.transaction_findUnique_include;
    rewrite storeCall_calm by (by eapply calm_hd); rewrite Hnone; by eexists.
Qed.

(** X9. A validated request of a caller who has not the role for the
    operation is answered 403 whatever the status of the transaction, the
    terminal ones included, and writes nothing. *)
Theorem wrong_role_rejected `{Externals} (op : Operation)
    (request : Request Json) (w : World) (id userId : string) (t : Transaction) :
  addresses op request id →
  caller op request = Some userId →
  transactions (db w) !! id = Some t →
  integrity (db w) →
  calm 1 w →
  ¬ has_role op t userId →
  ∃ msg w', route op request w = (error 403 msg, w') ∧ db w' = db w.
Proof.
  intros Haddr Hcaller Ht Hint Hcalm Hrole.
  destruct op; enter_route Hcaller; pass_validation Haddr; simpl in Hrole.
  1,2,4: rewrite findUnique_calm by done; rewrite Ht.
  4,5: destruct (findUnique_include_calm _ _ _ Hcalm Hint Ht)
         as (seller & buyer & item & _ & _ & _ & ->).
  all: rewrite decide_True by (try split; intros Heq; apply Hrole; auto).
  all: by eexists _, _.
Qed.

(** ** The five routes: accepted operations and how they compose *)

Lemma calm_tl_tl n w d c dr :
  calm (S (S n)) w → calm n (mkWorld d (tl (tl (faults w))) c dr).
Proof.
  unfold calm. simpl. destruct (faults w) as [|b1 [|b2 fs]]; simpl.
  - intros _. rewrite take_nil. constructor.
  - intros _. rewrite take_nil. constructor.
  - intros Hc. inversion Hc as [|? ? _ Hc']. by inversion Hc'.
Qed.

(** A meetup set by a party of a REQUESTED or ACCEPTED transaction. *)
Lemma meetup_calm `{Externals} (request : Request Json) (t : Transaction)
    (w : World) (j : Json) (location userId : string) :
  body request = Some j →
  setMeetupSchema j = Some location →
  caller setMeetup request = Some userId →
  transactions (db w) !! param_id request = Some t →
  t_buyerId t = userId ∨ t_sellerId t = userId →
  t_status t = REQUESTED ∨ t_status t = ACCEPTED →
  calm 2 w →
  Meetup.POST request w =
    (mkResponse 200
       (JTransaction "Meetup location set successfully"
          (applyTransactionData
             (mkTransactionData (Some MEETING) None (Some location) None None) t)),
     mkWorld
       (withTransactions
          (alter (applyTransactionData
                    (mkTransactionData (Some MEETING) None (Some location) None None))
                 (param_id request)) (db w))
       (tl (tl (faults w))) (clock w) (drift w)).
Proof.
  intros Hbody Hv Hcaller Ht Hparty Hst Hcalm. enter_route Hcaller.
  rewrite Hbody, Hv.
  rewrite findUnique_calm by (apply (calm_le 1 2); [lia|done]). rewrite Ht.
  rewrite decide_False by (intros [? ?]; by destruct Hparty).
  rewrite bool_decide_eq_true_2
    by (destruct Hst as [-> | ->]; [by left | by right; left]).
  simpl.
  by rewrite (transaction_update_calm _ _ _ t); [|simpl; by eapply calm_hd_tl | done].
Qed.

(** A payment in cash marked by the buyer of a MEETING transaction. *)
Lemma markPaid_calm `{Externals} (request : Request Json) (t : Transaction)
    (w : World) :
  addresses markPaid request (param_id request) →
  caller markPaid request = Some (t_buyerId t) →
  transactions (db w) !! param_id request = Some t →
  t_status t = MEETING →
  calm 2 w →
  MarkPaid.POST request w =
    (mkResponse 200
       (JTransaction "Payment marked as done"
          (applyTransactionData
             (mkTransactionData (Some PAID) (Some "physical_payment") None None None) t)),
     mkWorld
       (withTransactions
          (alter (applyTransactionData
                    (mkTransactionData (Some PAID) (Some "physical_payment")
                                       None None None))
                 (param_id request)) (db w))
       (tl (tl (faults w))) (clock w) (drift w)).
Proof.
  intros (j & Hbody & _ & Hv) Hcaller Ht Hst Hcalm. enter_route Hcaller.
  rewrite Hbody, Hv. simpl.
  rewrite findUnique_calm by (apply (calm_le 1 2); [lia|done]). rewrite Ht.
  rewrite decide_False by (intros Hne; by apply Hne).
  rewrite decide_False by (intros Hne; by apply Hne).
  by rewrite (transaction_update_calm _ _ _ t); [|simpl; by eapply calm_hd_tl | done].
Qed.

(** X10. The converse of the rejection: a validated request of a caller with
    the role, on a transaction whose status is a precondition of the
    operation, is answered 200 by each of the four single-write routes when
    the store answers, and the row is rewritten with the data of the
    route. *)
Theorem valid_operation_accepted `{Externals} (op : Operation)
    (request : Request Json) (w : World) (id userId : string) (t : Transaction) :
  op ≠ markReceived →
  addresses op request id →
  caller op request = Some userId →
  transactions (db w) !! id = Some t →
  integrity (db w) →
  has_role op t userId →
  t_status t ∈ precondition op →
  calm 2 w →
  r_status (route op request w).1 = 200
  ∧ ∃ data, writes op t data
      ∧ db (route op request w).2
        = withTransactions <[id := applyTransactionData data t]> (db w).
Proof.
  intros Hop Haddr Hcaller Ht Hint Hrole Hpre Hcalm.
  destruct op; [| | | |done]; simpl in Hrole, Hpre; simpl.
  - apply list_elem_of_singleton in Hpre.
    destruct Haddr as (j & Hbody & paymentId & Hv). rewrite <- Hrole in Hcaller.
    rewrite (pay_calm request id t w j paymentId Hbody Hv Hcaller Ht Hpre Hcalm).
    simpl. split; [done|]. eexists. split; [split; [done|]; by eexists _, _, _|].
    unfold withTransactions. f_equal. by rewrite <- (insert_as_alter _ _ _ _ Ht).
  - apply elem_of_cons in Hpre as [Hpre|Hpre%list_elem_of_singleton].
    all: destruct Haddr as (j & Hbody & <- & location & Hv).
    all: rewrite (meetup_calm request t w j location userId Hbody Hv Hcaller Ht Hrole)
           by (auto; done).
    all: simpl; split; [done|]; eexists; split; [split; [by auto|by eexists]|].
    all: unfold withTransactions; f_equal; by rewrite <- (insert_as_alter _ _ _ _ Ht).
  - apply elem_of_cons in Hpre as [Hpre|Hpre%list_elem_of_singleton].
    all: rewrite <- Hrole in Hcaller.
    all: rewrite (confirmDelivery_calm request id Haddr t w Hcaller Ht Hint Hcalm)
           by auto.
    all: simpl; split; [done|].
    + exists (mkTransactionData (Some MEETING) None None None None).
      split; [by left|]. unfold withTransactions. f_equal.
      by rewrite <- (insert_as_alter _ _ _ _ Ht).
    + exists noTransactionData. split; [by right|].
      unfold withTransactions. f_equal.
      rewrite <- (insert_as_alter _ _ _ _ Ht). f_equal.
      rewrite applyTransactionData_nothing. rewrite <- Hpre at 1. apply moved_same.
  - apply list_elem_of_singleton in Hpre.
    assert (param_id request = id) as <- by (by destruct Haddr as (? & _ & ? & _)).
    rewrite <- Hrole in Hcaller.
    rewrite (markPaid_calm request t w Haddr Hcaller Ht Hpre Hcalm).
    simpl. split; [done|]. eexists. split; [by split|].
    unfold withTransactions. f_equal. by rewrite <- (insert_as_alter _ _ _ _ Ht).
Qed.

(** ** The five routes: sequences of requests *)

Lemma integrity_alter (d : Db) (id : string) (f : Transaction → Transaction)
    (t : Transaction) :
  integrity d → transactions d !! id = Some t → same_deal t (f t) →
  integrity (withTransactions (alter f id) d).
Proof.
  intros Hint Ht Hf id' t'. simpl. rewrite lookup_alter.
  destruct (decide (id = id')) as [<-|]; [|apply Hint].
  rewrite Ht. simpl. intros [= <-].
  destruct Hf as (_ & -> & -> & ->). apply (Hint _ _ Ht).
Qed.

Lemma same_deal_apply (data : TransactionData) (t : Transaction) :
  same_deal t (applyTransactionData data t).
Proof. done. Qed.

(** X11. The buyer alone can carry a transaction from REQUESTED (or ACCEPTED)
    to COMPLETED: a meetup set, the cash payment marked and the receipt
    marked, all three by the buyer, are each accepted; the item ends SOLD and
    the stored payment id is "physical_payment". No request of the seller
    and no call of the pay route is needed. *)
Theorem buyer_completes_alone `{Externals} (r1 r2 r3 : Request Json) (w : World)
    (id : string) (t : Transaction) :
  addresses setMeetup r1 id →
  addresses markPaid r2 id →
  addresses markReceived r3 id →
  caller setMeetup r1 = Some (t_buyerId t) →
  caller markPaid r2 = Some (t_buyerId t) →
  caller markReceived r3 = Some (t_buyerId t) →
  transactions (db w) !! id = Some t →
  integrity (db w) →
  t_status t = REQUESTED ∨ t_status t = ACCEPTED →
  calm 9 w →
  let w' := history [(setMeetup, r1); (markPaid, r2); (markReceived, r3)] w in
  (∃ t', transactions (db w') !! id = Some t'
         ∧ t_status t' = COMPLETED
         ∧ t_paymentId t' = Some "physical_payment")
  ∧ (∃ item, items (db w') !! t_itemId t = Some item ∧ i_availabilityStatus item = "SOLD").
Proof.
  intros Ha1 Ha2 Ha3 Hc1 Hc2 Hc3 Ht Hint Hst Hcalm. simpl.
  pose proof Ha1 as (j1 & Hbody1 & Hid1 & location & Hv1).
  assert (param_id r2 = id) as Hid2 by (by destruct Ha2 as (? & _ & ? & _)).
  rewrite <- Hid1 in Ht.
  rewrite (meetup_calm r1 t w j1 location _ Hbody1 Hv1 Hc1 Ht) by
    (first [by left | done | by apply (calm_le 2 9); [lia|] ]).
  simpl. rewrite Hid1 in *.
  set (t1 := applyTransactionData
               (mkTransactionData (Some MEETING) None (Some location) None None) t).
  set (w1 := mkWorld _ (tl (tl (faults w))) _ _).
  assert (transactions (db w1) !! param_id r2 = Some t1) as Ht1
    by (rewrite Hid2; simpl; by rewrite lookup_alter_here, Ht).
  assert (calm 7 w1) as Hcalm1 by (by apply calm_tl_tl).
  rewrite (markPaid_calm r2 t1 w1) by
    (first [done | by rewrite Hid2 | by apply (calm_le 2 7); [lia|] ]).
  simpl. rewrite Hid2.
  set (t2 := applyTransactionData
               (mkTransactionData (Some PAID) (Some "physical_payment")
                                  None None None) t1).
  set (w2 := mkWorld _ (tl (tl (tl (tl (faults w))))) _ _).
  assert (calm 5 w2) as Hcalm2 by (by apply (calm_tl_tl 5 w1)).
  destruct (Hint _ _ Ht) as ([buyer Hb] & [seller Hs] & [item Hi]).
  assert (reads id t2 seller buyer item (db w2)) as Hreads.
  { split; [|by repeat split]. simpl. by rewrite !lookup_alter_here, Ht. }
  destruct (markReceived_calm r3 id t2 seller buyer item Ha3 Hc3 eq_refl w2
              Hreads Hcalm2) as (w3 & -> & Hdb).
  simpl. rewrite Hdb. split.
  - exists (moved COMPLETED t2). split; [|done].
    rewrite (committed_transactions 4 id t2 seller buyer); [|lia|by destruct Hreads].
    by rewrite lookup_insert_eq.
  - exists (applyItemData (mkItemData (Some "SOLD")) item). split; [|done].
    unfold committed, cascade. simpl. by rewrite lookup_alter_here, Hi.
Qed.

(** A transaction in MEETING is left as it is by every request that is not
    to the mark-paid route. *)
Lemma meeting_stays `{Externals} (op : Operation) (request : Request Json)
    (w : World) (id : string) (t : Transaction) :
  op ≠ markPaid →
  transactions (db w) !! id = Some t →
  t_status t = MEETING →
  transactions (db (route op request w).2) !! id = Some t.
Proof.
  intros Hop Ht Hmeeting. destruct (decide (op = markReceived)) as [->|Hother].
  - simpl. destruct (markReceived_report request w)
      as [[_ ->]|(id' & t' & seller & buyer & item & k & _ & Hreads & _ & Hpaid
                  & Hk & -> & _)]; [done|].
    destruct Hreads as (Ht' & _).
    rewrite (committed_transactions k id' t' seller buyer); [|lia|done].
    rewrite lookup_insert_ne; [done|]. intros ->. congruence.
  - destruct (single_write_report op request w Hother)
      as [[_ ->]|(_ & id' & t' & data & userId & _ & Ht' & _ & _ & Hw & ->)];
      [done|].
    simpl. destruct (decide (id' = id)) as [->|Hne];
      [|by rewrite lookup_insert_ne].
    rewrite lookup_insert_eq. rewrite Ht in Ht'. injection Ht' as <-. f_equal.
    destruct op; simpl in Hw; try done.
    + destruct Hw as [? _]. congruence.
    + destruct Hw as [[?|?] _]; congruence.
    + destruct Hw as [[? _]|[_ ->]]; [congruence|].
      apply applyTransactionData_nothing.
Qed.

Lemma meeting_stays_history `{Externals}
    (requests : list (Operation * Request Json)) (w : World) (id : string)
    (t : Transaction) :
  Forall (λ call, call.1 ≠ markPaid) requests →
  transactions (db w) !! id = Some t →
  t_status t = MEETING →
  transactions (db (history requests w)) !! id = Some t.
Proof.
  intros Hall. revert w. induction Hall as [|[op request] rest Hop _ IH];
    intros w Ht Hmeeting; simpl; [done|].
  apply IH; [|done]. by apply meeting_stays.
Qed.

(** X12. Once the seller's confirmation of delivery has been accepted, a
    request to mark the same transaction as received is not answered 200
    and changes nothing for as long as no request has gone to the mark-paid
    route, whatever other requests to the five routes come in between, by
    whomever and whatever the store does: the confirmation leaves the
    transaction in MEETING, only mark-paid moves it from there, and
    mark-received asks for PAID. *)
Theorem delivery_confirmed_bars_receipt `{Externals} (r r' : Request Json)
    (requests : list (Operation * Request Json)) (w : World) :
  r_status (route confirmDelivery r w).1 = 200 →
  Forall (λ call, call.1 ≠ markPaid) requests →
  param_id r' = param_id r →
  let w' := history requests (route confirmDelivery r w).2 in
  r_status (route markReceived r' w').1 ≠ 200
  ∧ db (route markReceived r' w').2 = db w'.
Proof.
  intros Hok Hall Hsame w'.
  destruct (single_write_report confirmDelivery r w ltac:(done))
    as [[Hno _]|(_ & id & t & data & userId & Haddr & Ht & _ & _ & Hw & Hdb)];
    [done|].
  destruct Haddr as (j & _ & Hid & _).
  assert (∃ t', transactions (db w') !! id = Some t' ∧ t_status t' = MEETING)
    as (t' & Ht' & Hst').
  { exists (applyTransactionData data t). split.
    - subst w'. apply meeting_stays_history; [done| |].
      + rewrite Hdb. simpl. by rewrite lookup_insert_eq.
      + destruct Hw as [[_ ->]|[Hm ->]]; [done|exact Hm].
    - destruct Hw as [[_ ->]|[Hm ->]]; [done|exact Hm]. }
  destruct (markReceived_report r' w')
    as [Hrejected|(id1 & t1 & ? & ? & ? & k & Haddr1 & Hreads & _ & Hpaid & _)];
    [done|].
  exfalso. destruct Haddr1 as (? & _ & Hid1 & _). destruct Hreads as (Ht1 & _).
  rewrite <- Hid1, Hsame, Hid, Ht' in Ht1. injection Ht1 as <-. congruence.
Qed.

(** X13. The path with an online payment: payment by the buyer, confirmation
    by the seller, then the buyer has to mark the payment once more before
    the receipt is accepted. The transaction ends COMPLETED with the
    countdown of the payment, but the payment id stored by the pay route has
    been replaced by "physical_payment". *)
Theorem online_payment_id_replaced `{Externals} (r1 r2 r3 r4 : Request Json)
    (w : World) (id paymentId : string) (t : Transaction) (j1 : Json) :
  body r1 = Some j1 →
  payTransactionSchema j1 = Some (id, paymentId) →
  addresses confirmDelivery r2 id →
  addresses markPaid r3 id →
  addresses markReceived r4 id →
  caller pay r1 = Some (t_buyerId t) →
  caller confirmDelivery r2 = Some (t_sellerId t) →
  caller markPaid r3 = Some (t_buyerId t) →
  caller markReceived r4 = Some (t_buyerId t) →
  transactions (db w) !! id = Some t →
  integrity (db w) →
  t_status t = ACCEPTED →
  calm 11 w →
  let w2 := history [(pay, r1); (confirmDelivery, r2)] w in
  let w4 := history [(markPaid, r3); (markReceived, r4)] w2 in
  (∃ t2, transactions (db w2) !! id = Some t2
         ∧ t_status t2 = MEETING ∧ t_paymentId t2 = Some paymentId)
  ∧ (∃ t4, transactions (db w4) !! id = Some t4
           ∧ t_status t4 = COMPLETED
           ∧ t_paymentId t4 = Some "physical_payment"
           ∧ t_countdownStart t4 = Some (clock w)).
Proof.
  intros Hbody1 Hv1 Ha2 Ha3 Ha4 Hc1 Hc2 Hc3 Hc4 Ht Hint Hst Hcalm.
  unfold history. cbn [foldl fst snd route].
  assert (param_id r3 = id) as Hid3 by (by destruct Ha3 as (? & _ & ? & _)).
  rewrite (pay_calm r1 id t w j1 paymentId Hbody1 Hv1 Hc1 Ht Hst)
    by (by apply (calm_le 2 11); [lia|]).
  cbn [fst snd].
  set (t1 := applyTransactionData _ t).
  set (w1 := mkWorld _ (tl (tl (faults w))) _ _).
  assert (transactions (db w1) !! id = Some t1) as Ht1
    by (simpl; by rewrite lookup_alter_here, Ht).
  assert (integrity (db w1)) as Hint1 by (by apply (integrity_alter _ _ _ t)).
  assert (calm 9 w1) as Hcalm1 by (by apply calm_tl_tl).
  rewrite (confirmDelivery_calm r2 id Ha2 t1 w1 Hc2 Ht1 Hint1)
    by (first [by left | by apply (calm_le 2 9); [lia|] ]).
  cbn [fst snd].
  set (t2 := moved MEETING t1).
  set (w2 := mkWorld _ (tl (tl (faults w1))) _ _).
  assert (transactions (db w2) !! id = Some t2) as Ht2
    by (simpl; by rewrite !lookup_alter_here, Ht).
  split; [by exists t2|].
  assert (calm 7 w2) as Hcalm2 by (by apply (calm_tl_tl 7 w1)).
  rewrite <- Hid3 in Ht2.
  rewrite (markPaid_calm r3 t2 w2)
    by (first [done | by rewrite Hid3 | by apply (calm_le 2 7); [lia|] ]).
  cbn [fst snd]. rewrite Hid3.
  set (t3 := applyTransactionData
               (mkTransactionData (Some PAID) (Some "physical_payment")
                                  None None None) t2).
  set (w3 := mkWorld _ (tl (tl (faults w2))) _ _).
  assert (calm 5 w3) as Hcalm3 by (by apply (calm_tl_tl 5 w2)).
  destruct (Hint _ _ Ht) as ([buyer Hb] & [seller Hs] & [item Hi]).
  assert (reads id t3 seller buyer item (db w3)) as Hreads.
  { split; [|by repeat split]. simpl. by rewrite !lookup_alter_here, Ht. }
  destruct (markReceived_calm r4 id t3 seller buyer item Ha4 Hc4 eq_refl w3
              Hreads Hcalm3) as (w4 & -> & Hdb).
  cbn [fst snd]. rewrite Hdb. exists (moved COMPLETED t3). split; [|done].
  rewrite (committed_transactions 4 id t3 seller buyer); [|lia|by destruct Hreads].
  by rewrite lookup_insert_eq.
Qed.

(** ** The routes that read *)

Ltac unfold_read :=
  unfold NewMessages.GET, Transactions.GET, TransactionById.GET,
    NewMessages.message_findMany, Transactions.transaction_findMany,
    TransactionById.transaction_findUnique_detail, try_catch, try_catch_answer;
  unfold_route.

Ltac open_binds :=
  repeat match goal with
         | Hb : option_bind _ _ _ _ = Some _ |- _ =>
             apply bind_Some in Hb as (? & ? & Hb)
         end;
  simplify_eq.

(** X14. The three GET routes never write: whatever the request and whether
    the store fails or not, the database after the request is the database
    before it. *)
Theorem reads_never_write `{Externals} (request : Request Json) (w : World) :
  db (NewMessages.GET request w).2 = db w
  ∧ db (Transactions.GET request w).2 = db w
  ∧ db (TransactionById.GET request w).2 = db w.
Proof.
  repeat split; unfold_read; split_cases; open_binds; done.
Qed.

Lemma elem_of_take_merge_sort {A} (R : relation A) `{∀ x y, Decision (R x y)}
    (n : nat) (l : list A) (x : A) :
  x ∈ take n (merge_sort R l) → x ∈ l.
Proof.
  intros Hin. rewrite <- (merge_sort_Permutation R l).
  rewrite <- (take_drop n (merge_sort R l)). apply elem_of_app. by left.
Qed.

(** X15. The new-messages route answers 200 only to a party of the
    transaction of the request, and then with at most 50 messages, each of
    them a message of that transaction and, when [after] is given, each
    created later than [after] less 500 ms. It holds whatever the store
    does. *)
Theorem new_messages_private `{Externals} (request : Request Json) (w : World) :
  r_status (NewMessages.GET request w).1 = 200 →
  ∃ userId t msgs,
    truthy (getUserFromRequest request) = Some userId
    ∧ transactions (db w) !! param_id request = Some t
    ∧ (t_buyerId t = userId ∨ t_sellerId t = userId)
    ∧ r_json (NewMessages.GET request w).1 = JMessages msgs (length msgs)
    ∧ (length msgs ≤ 50)%nat
    ∧ ∀ m, m ∈ msgs →
        m ∈ messages (db w) ∧ m_transactionId m = param_id request
        ∧ ∀ after, query_after request = Some (ValidDate after) →
            after - 500 < m_createdAt m.
Proof.
  unfold_read. intros Hok. split_cases.
  all: eexists _, _, _; split; [done|]; split; [done|].
  all: split; [by apply one_of_two|]; split; [done|].
  all: split; [rewrite length_take; lia|].
  all: intros m Hm%elem_of_take_merge_sort.
  all: apply list_elem_of_filter in Hm as [Hm ?]; split; [done|].
  all: unfold NewMessages.matches in Hm.
  all: apply andb_true_iff in Hm as [Hid%bool_decide_eq_true Hgt]; split; [done|].
  all: intros after Hafter.
  all: destruct (query_after request) as [[a|]|]; cbn [fmap option_fmap option_map
         NewMessages.lowerBound] in *; simplify_eq.
  all: case_decide; simplify_eq.
  all: match goal with
       | Hb : bool_decide _ = true |- _ => by apply bool_decide_eq_true in Hb
       end.
Qed.

(** What a 200 of the list route is made of: the rows of the caller's
    transactions, each with its includes, formatted one by one. *)
Lemma transactions_report `{Externals} (request : Request Json) (w : World) :
  r_status (Transactions.GET request w).1 = 200 →
  ∃ userId ts rows,
    truthy (getUserFromRequest request) = Some userId
    ∧ r_json (Transactions.GET request w).1
      = JTransactions (Transactions.format userId <$> rows)
                      (length (Transactions.format userId <$> rows))
    ∧ Forall2 (λ t row, Transactions.include (db w) t = Some row) ts rows
    ∧ (∀ t, t ∈ ts →
         (∃ id, transactions (db w) !! id = Some t)
         ∧ (t_buyerId t = userId ∨ t_sellerId t = userId))
    ∧ (query_status request ∈ [None; Some ""; Some "all"] →
       ∀ id t, transactions (db w) !! id = Some t →
         t_buyerId t = userId ∨ t_sellerId t = userId → t ∈ ts).
Proof.
  assert (∀ userId t,
            t ∈ filter (λ t, t_buyerId t = userId ∨ t_sellerId t = userId)
                  (map_to_list (transactions (db w))).*2
            ↔ (∃ id, transactions (db w) !! id = Some t)
              ∧ (t_buyerId t = userId ∨ t_sellerId t = userId)) as Hrows.
  { intros userId t. rewrite list_elem_of_filter, list_elem_of_fmap. split.
    - intros [Hparty ([id t'] & -> & Hin%elem_of_map_to_list)]. split; [by exists id|done].
    - intros [[id Hin] Hparty]. split; [done|]. exists (id, t).
      split; [done|]. by apply elem_of_map_to_list. }
  unfold_read. intros Hok. split_cases; open_binds.
  all: match goal with
       | Hm : mapM _ ?ts = Some ?rows |- _ =>
           exists s, ts, rows; apply mapM_Some in Hm
       end.
  all: split; [done|]; split; [done|]; split; [done|].
  all: split;
    [intros t Hin;
     first [ by apply Hrows
           | apply list_elem_of_filter in Hin as [_ Hin]; by apply Hrows ]|].
  all: intros Hq id t Hl Hparty; try (apply Hrows; split; [by exists id|done]).
  all: exfalso.
  all: repeat (apply elem_of_cons in Hq as [Hq|Hq]; [simplify_eq; tauto|]).
  all: by apply elem_of_nil in Hq.
Qed.

Lemma include_Some `{Externals} (d : Db) (t : Transaction) (row : Transactions.Included) :
  Transactions.include d t = Some row →
  Transactions.inc_transaction row = t
  ∧ users d !! t_buyerId t = Some (Transactions.inc_buyer row)
  ∧ users d !! t_sellerId t = Some (Transactions.inc_seller row)
  ∧ items d !! t_itemId t = Some (Transactions.inc_item row)
  ∧ Forall2 (λ m p, p.1 = m ∧ users d !! m_senderId m = Some p.2)
      (take 1 (merge_sort Transactions.createdAt_desc
                 (filter (λ m, m_transactionId m = t_id t) (messages d))))
      (Transactions.inc_messages row).
Proof.
  unfold Transactions.include. intros Hrow.
  apply bind_Some in Hrow as (b & Hb & Hrow).
  apply bind_Some in Hrow as (s & Hs & Hrow).
  apply bind_Some in Hrow as (i & Hi & Hrow).
  apply bind_Some in Hrow as (ms & Hms & Hrow).
  injection Hrow as <-. simpl. repeat split; try done.
  apply mapM_Some in Hms. eapply Forall2_impl; [exact Hms|].
  intros m [m' u] Hm. simpl in *.
  apply bind_Some in Hm as (u' & Hu & Hm). by injection Hm as <- <-.
Qed.

Lemma entry_of_row `{Externals} (d : Db) (userId : string) (ts : list Transaction)
    (rows : list Transactions.Included) (e : TransactionJson) :
  Forall2 (λ t row, Transactions.include d t = Some row) ts rows →
  e ∈ Transactions.format userId <$> rows →
  ∃ t row, t ∈ ts ∧ Transactions.include d t = Some row
           ∧ e = Transactions.format userId row.
Proof.
  intros Hrows (row & -> & Hin)%list_elem_of_fmap.
  apply list_elem_of_lookup in Hin as [i Hi].
  destruct (Forall2_lookup_r _ _ _ _ _ Hrows Hi) as (t & Ht & Hinc).
  exists t, row. split; [by eapply list_elem_of_lookup_2|done].
Qed.

Lemma row_of_transaction `{Externals} (d : Db) (userId : string) (ts : list Transaction)
    (rows : list Transactions.Included) (t : Transaction) :
  Forall2 (λ t row, Transactions.include d t = Some row) ts rows →
  t ∈ ts →
  ∃ row, Transactions.include d t = Some row
         ∧ Transactions.format userId row ∈ Transactions.format userId <$> rows.
Proof.
  intros Hrows [i Hi]%list_elem_of_lookup.
  destruct (Forall2_lookup_l _ _ _ _ _ Hrows Hi) as (row & Hrow & Hinc).
  exists row. split; [done|]. apply list_elem_of_fmap. exists row.
  split; [done|]. by eapply list_elem_of_lookup_2.
Qed.

(** X16. The list route answers 200 with entries of the caller's own
    transactions only: every entry is a transaction of the table whose buyer
    or seller is the caller, with its status, with [role] "buyer" when the
    caller is the buyer (also when the caller is both) and "seller"
    otherwise, with the other side as [otherParty], and without the
    properties [buyer] and [seller]. Without a status filter every
    transaction of the caller has an entry. *)
Theorem transactions_list_entries `{Externals} (request : Request Json) (w : World) :
  r_status (Transactions.GET request w).1 = 200 →
  ∃ userId entries,
    truthy (getUserFromRequest request) = Some userId
    ∧ r_json (Transactions.GET request w).1 = JTransactions entries (length entries)
    ∧ (∀ e, e ∈ entries →
         ∃ id t other,
           transactions (db w) !! id = Some t
           ∧ (t_buyerId t = userId ∨ t_sellerId t = userId)
           ∧ j_id e = t_id t
           ∧ j_status e = Some (t_status t)
           ∧ j_role e = Some (if decide (t_buyerId t = userId)
                              then "buyer" else "seller")
           ∧ users (db w) !! (if decide (t_buyerId t = userId)
                              then t_sellerId t else t_buyerId t) = Some other
           ∧ j_otherParty e = Some (mkParty (u_id other) (u_name other))
           ∧ j_buyer e = None ∧ j_seller e = None)
    ∧ (query_status request ∈ [None; Some ""; Some "all"] →
       ∀ id t, transactions (db w) !! id = Some t →
         t_buyerId t = userId ∨ t_sellerId t = userId →
         ∃ e, e ∈ entries ∧ j_id e = t_id t ∧ j_status e = Some (t_status t)).
Proof.
  intros Hok.
  destruct (transactions_report request w Hok)
    as (userId & ts & rows & Hcaller & Hjson & Hrows & Hsound & Hcomplete).
  exists userId, (Transactions.format userId <$> rows).
  split; [done|]. split; [done|]. split.
  - intros e He.
    destruct (entry_of_row _ _ _ _ _ Hrows He) as (t & row & Ht & Hinc & ->).
    destruct (Hsound t Ht) as [[id Hl] Hparty].
    destruct (include_Some _ _ _ Hinc) as (Hrow & Hb & Hs & _).
    exists id, t. unfold Transactions.format. simpl. rewrite Hrow.
    destruct (decide (t_buyerId t = userId)).
    + exists (Transactions.inc_seller row). by repeat split.
    + exists (Transactions.inc_buyer row). by repeat split.
  - intros Hq id t Hl Hparty.
    destruct (row_of_transaction _ userId _ _ t Hrows (Hcomplete Hq id t Hl Hparty))
      as (row & Hinc & Hin).
    exists (Transactions.format userId row). split; [done|].
    destruct (include_Some _ _ _ Hinc) as (Hrow & _).
    unfold Transactions.format. simpl. by rewrite Hrow.
Qed.

#[global] Instance createdAt_desc_trans : Transitive Transactions.createdAt_desc.
Proof. unfold Transactions.createdAt_desc. intros a b c. lia. Qed.

#[global] Instance createdAt_desc_total : Total Transactions.createdAt_desc.
Proof. unfold Transactions.createdAt_desc. intros a b. lia. Qed.

Lemma newest_first (l : list Message) (m m' : Message) :
  head (merge_sort Transactions.createdAt_desc l) = Some m → m' ∈ l →
  m ∈ l ∧ m_createdAt m' ≤ m_createdAt m.
Proof.
  intros Hhead Hin.
  assert (StronglySorted Transactions.createdAt_desc
            (merge_sort Transactions.createdAt_desc l)) as Hsorted
    by (apply Sorted_StronglySorted; [apply _|apply Sorted_merge_sort; apply _]).
  rewrite <- (merge_sort_Permutation Transactions.createdAt_desc l) in Hin.
  rewrite <- (merge_sort_Permutation Transactions.createdAt_desc l) at 1.
  destruct (merge_sort Transactions.createdAt_desc l) as [|x rest]; [done|].
  injection Hhead as ->. split; [by left|].
  apply elem_of_cons in Hin as [->|Hin]; [done|].
  apply StronglySorted_inv in Hsorted as [_ Hall].
  by apply (proj1 (Forall_forall _ _) Hall).
Qed.

(** X17. The [latestMessage] of an entry of the list route is the newest
    message of that transaction: it is a message of the table for this
    transaction, it carries the name of its sender, and no message of the
    transaction has a later [createdAt]; it is absent exactly when the
    transaction has no message. *)
Theorem latest_message_is_newest `{Externals} (request : Request Json) (w : World)
    (entries : list TransactionJson) (n : nat) (e : TransactionJson) :
  (Transactions.GET request w).1 = mkResponse 200 (JTransactions entries n) →
  e ∈ entries →
  match j_latestMessage e with
  | Some latest =>
      ∃ m sender,
        m ∈ messages (db w) ∧ m_transactionId m = j_id e
        ∧ users (db w) !! m_senderId m = Some sender
        ∧ latest = mkLatestMessage (m_id m) (m_content m) (m_senderId m)
                                   (u_name sender) (m_createdAt m)
        ∧ ∀ m', m' ∈ messages (db w) → m_transactionId m' = j_id e →
            m_createdAt m' ≤ lm_createdAt latest
  | None => ∀ m, m ∈ messages (db w) → m_transactionId m ≠ j_id e
  end.
Proof.
  intros Hres He.
  destruct (transactions_report request w) as
    (userId & ts & rows & _ & Hjson & Hrows & _); [by rewrite Hres|].
  rewrite Hres in Hjson. injection Hjson as -> _.
  destruct (entry_of_row _ _ _ _ _ Hrows He) as (t & row & _ & Hinc & ->).
  destruct (include_Some _ _ _ Hinc) as (Hrow & _ & _ & _ & Hms).
  unfold Transactions.format. simpl. rewrite Hrow.
  set (own := filter (λ m, m_transactionId m = t_id t) (messages (db w))) in *.
  destruct (merge_sort Transactions.createdAt_desc own) as [|m rest] eqn:Hsorted.
  - apply Forall2_nil_inv_l in Hms. rewrite Hms. simpl.
    intros m Hm Hid.
    assert (m ∈ own) as Hown by (by apply list_elem_of_filter).
    rewrite <- (merge_sort_Permutation Transactions.createdAt_desc own), Hsorted in Hown.
    by apply elem_of_nil in Hown.
  - simpl in Hms. rewrite take_0 in Hms.
    apply Forall2_cons_inv_l in Hms as ([m0 sender] & ? & [Hm0 Hsender] & ->%Forall2_nil_inv_l & ->).
    simpl in *. subst m0. exists m, sender.
    assert (head (merge_sort Transactions.createdAt_desc own) = Some m) as Hhead
      by by rewrite Hsorted.
    assert (m ∈ own) as Hown.
    { rewrite <- (merge_sort_Permutation Transactions.createdAt_desc own), Hsorted.
      by left. }
    apply list_elem_of_filter in Hown as [Hid Hm].
    repeat split; try done.
    intros m' Hm' Hid'.
    by apply (newest_first own m m' Hhead), list_elem_of_filter.
Qed.

Lemma mapM_paired {A B C} (f : A → option B) (g : B → C) (l : list A)
    (k : list (A * C)) :
  mapM (λ a, b ← f a; Some (a, g b)) l = Some k → k.*1 = l.
Proof.
  intros Hk%mapM_Some. induction Hk as [|a [a' c] l k Ha _ IH]; [done|].
  apply bind_Some in Ha as (b & _ & Ha). injection Ha as <- <-.
  rewrite fmap_cons. simpl. by f_equal.
Qed.

(** X18. The detail route answers 200 only to a party of the transaction, and
    then with the newest messages of the transaction: at most 50, newest
    first, each a message of this transaction, and a message of the
    transaction that is left out is no newer than any that is returned. *)
Theorem detail_newest_fifty `{Externals} (request : Request Json) (w : World)
    (detail : TransactionById.Detail) :
  (TransactionById.GET request w).1 = mkAnswer 200 (inl detail) →
  ∃ userId,
    let t := TransactionById.det_transaction detail in
    let msgs := (TransactionById.det_messages detail).*1 in
    truthy (getUserFromRequest request) = Some userId
    ∧ transactions (db w) !! param_id request = Some t
    ∧ (t_buyerId t = userId ∨ t_sellerId t = userId)
    ∧ (length msgs ≤ 50)%nat
    ∧ StronglySorted Transactions.createdAt_desc msgs
    ∧ (∀ m, m ∈ msgs → m ∈ messages (db w) ∧ m_transactionId m = t_id t)
    ∧ (∀ m o, m ∈ msgs → o ∈ messages (db w) → m_transactionId o = t_id t →
         o ∉ msgs → m_createdAt o ≤ m_createdAt m).
Proof.
  unfold_read. intros Hres. split_cases; open_binds.
  all: exists s; simpl.
  all: match goal with
       | Hm : mapM _ _ = Some _ |- _ => apply mapM_paired in Hm; rewrite Hm
       end.
  all: set (own := filter (λ m, m_transactionId m = t_id t) (messages (db w))).
  all: set (sorted := merge_sort Transactions.createdAt_desc own).
  all: assert (StronglySorted Transactions.createdAt_desc
                 (take 50 sorted ++ drop 50 sorted)) as Hsorted
         by (rewrite take_drop; apply Sorted_StronglySorted; [apply _|];
             apply Sorted_merge_sort; apply _).
  all: split; [done|]; split; [done|]; split; [by apply one_of_two|].
  all: split; [rewrite length_take; lia|].
  all: split; [by eapply StronglySorted_app_1_l|]; split.
  all: try (intros m Hm%elem_of_take_merge_sort;
            by apply list_elem_of_filter in Hm as [? ?]).
  all: intros m o Hm Ho Hid Hout.
  all: assert (o ∈ take 50 sorted ++ drop 50 sorted) as Hin
         by (rewrite take_drop; unfold sorted;
             rewrite (merge_sort_Permutation Transactions.createdAt_desc own);
             by apply list_elem_of_filter).
  all: apply elem_of_app in Hin as [|Hdrop]; [done|].
  all: exact (StronglySorted_app_1_elem_of _ _ _ m o Hsorted Hm Hdrop).
Qed.

(** ** Sending a message *)

Ltac unfold_send :=
  unfold SendMessage.POST, SendMessage.message_create, try_catch_answer;
  unfold_route.

(** X19. The send-message route changes the database only with its answer
    201, and then by exactly one row appended to the message table: a
    message of the transaction of the request, sent by the caller, who is the
    buyer or the seller, with the content the validator returned.
    Transactions, items and users are never written. *)
Theorem message_sent_by_party_only `{Messaging} (request : Request Json) (w : World) :
  let answer := (SendMessage.POST request w).1 in
  let d' := db (SendMessage.POST request w).2 in
  (a_status answer ≠ 201 ∧ d' = db w)
  ∨ (a_status answer = 201
     ∧ ∃ userId t j m,
         truthy (getUserFromRequest request) = Some userId
         ∧ transactions (db w) !! param_id request = Some t
         ∧ (t_buyerId t = userId ∨ t_sellerId t = userId)
         ∧ body request = Some j
         ∧ sendMessageSchema (param_id request) j = Some (m_content m)
         ∧ m_transactionId m = param_id request
         ∧ m_senderId m = userId
         ∧ d' = mkDb (transactions (db w)) (items (db w)) (users (db w))
                     (messages (db w) ++ [m])).
Proof.
  unfold_send. split_cases; open_binds; try (left; split; [discriminate|done]).
  all: right; split; [done|]; eexists _, _, _, (mkMessage _ _ _ _ _).
  all: split; [done|]; split; [done|]; split; [by apply one_of_two|].
  all: by repeat split.
Qed.

(** X20. The send-message route does not look at the status of the
    transaction: a validated message of the buyer or the seller is answered
    201 and stored whatever the status is, also for a transaction that is
    COMPLETED, CANCELLED or REFUNDED. *)
Theorem message_accepted_in_any_status `{Messaging} (request : Request Json)
    (w : World) (j : Json) (content userId : string) (t : Transaction)
    (status : TransactionStatus) :
  truthy (getUserFromRequest request) = Some userId →
  body request = Some j →
  sendMessageSchema (param_id request) j = Some content →
  transactions (db w) !! param_id request = Some t →
  t_status t = status →
  t_buyerId t = userId ∨ t_sellerId t = userId →
  integrity (db w) →
  calm 2 w →
  a_status (SendMessage.POST request w).1 = 201
  ∧ ∃ m, messages (db (SendMessage.POST request w).2) = messages (db w) ++ [m]
         ∧ m_transactionId m = param_id request
         ∧ m_senderId m = userId ∧ m_content m = content.
Proof.
  intros Hcaller Hbody Hv Ht _ Hparty Hint Hcalm.
  assert (is_Some (users (db w) !! userId)) as [sender Hsender].
  { destruct (Hint _ _ Ht) as (Hb & Hs & _). by destruct Hparty as [<-|<-]. }
  unfold SendMessage.POST, SendMessage.message_create, try_catch_answer.
  rewrite Hcaller.
  unfold request_json, mbind, Async_bind, mret, Async_ret. simpl.
  rewrite Hbody, Hv.
  rewrite findUnique_calm by (apply (calm_le 1 2); [lia|done]). rewrite Ht.
  rewrite decide_False by (intros [? ?]; by destruct Hparty).
  unfold Date_now. simpl.
  rewrite storeCall_calm by (simpl; by eapply calm_hd_tl).
  simpl. rewrite Ht, Hsender. simpl. split; [done|]. by eexists.
Qed.

(** ** The notifier: passes, start and stop *)

Lemma visit_running (b : Browser) (token : string) (self : MessageNotifier)
    (transaction : TransactionJson) :
  let turn := MessageNotifier.visit b token self transaction in
  isRunning (this turn) = isRunning self
  ∧ intervalId (this turn) = intervalId self
  ∧ (Console_error ∉ events turn).
Proof.
  unfold MessageNotifier.visit. repeat case_match; simpl; repeat split; try done.
  all: intros Hin; repeat (apply elem_of_cons in Hin as [Hin|Hin]; [done|]).
  all: by apply elem_of_nil in Hin.
Qed.

Lemma forTransactions_running (b : Browser) (token : string)
    (transactions : list TransactionJson) (self : MessageNotifier) :
  let pass := MessageNotifier.forTransactions b token transactions self in
  isRunning (this pass) = isRunning self
  ∧ intervalId (this pass) = intervalId self
  ∧ (Console_error ∉ events pass).
Proof.
  revert self. induction transactions as [|transaction rest IH]; intros self; simpl.
  - repeat split; try done. by intros ?%elem_of_nil.
  - destruct (visit_running b token self transaction) as (Hr & Hi & He).
    destruct (finished (MessageNotifier.visit b token self transaction)); simpl.
    + destruct (IH (this (MessageNotifier.visit b token self transaction)))
        as (Hr' & Hi' & He').
      rewrite Hr', Hi'. repeat split; try done.
      by intros [?|?]%elem_of_app.
    + done.
Qed.

(** What no pass changes. *)
Lemma pass_frame (b : Browser) (self : MessageNotifier) :
  let pass := MessageNotifier.checkForNewMessages b self in
  isRunning (this pass) = isRunning self
  ∧ currentUserId (this pass) = currentUserId self
  ∧ activeTransactionIds (this pass) = activeTransactionIds self.
Proof.
  unfold MessageNotifier.checkForNewMessages.
  destruct (truthy (currentUserId self)); [|done].
  destruct (document_hidden b); [done|].
  destruct (truthy (localStorage_token b)) as [token|]; [|done].
  destruct (fetch_transactions b token) as [| |data]; [done..|].
  destruct (forTransactions_frame b token (default [] data) self) as (Ha & Hc & Hu).
  destruct (forTransactions_running b token (default [] data) self) as (Hr & _ & He).
  by destruct (finished _).
Qed.

(** X21. A pass that throws is logged and does not advance [lastCheckTime];
    an error is logged only when a pass throws. No pass changes for whom the
    notifier runs, whether it runs, or which transactions are suppressed;
    [lastCheckTime] is either left as it was or set to the instant the pass
    ends. *)
Theorem pass_throws_keeps_check_time (b : Browser) (self : MessageNotifier) :
  let pass := MessageNotifier.checkForNewMessages b self in
  (finished pass = false ↔ Console_error ∈ events pass)
  ∧ (finished pass = false → lastCheckTime (this pass) = lastCheckTime self)
  ∧ (lastCheckTime (this pass) = lastCheckTime self
     ∨ lastCheckTime (this pass) = Some (page_clock b + elapsed b))
  ∧ isRunning (this pass) = isRunning self
  ∧ currentUserId (this pass) = currentUserId self
  ∧ activeTransactionIds (this pass) = activeTransactionIds self.
Proof.
  unfold MessageNotifier.checkForNewMessages.
  destruct (truthy (currentUserId self));
    [|simpl; repeat split; try done; try (by intros ?%elem_of_nil); by left].
  destruct (document_hidden b);
    [simpl; repeat split; try done; try (by intros ?%elem_of_nil); by left|].
  destruct (truthy (localStorage_token b)) as [token|];
    [|simpl; repeat split; try done; try (by intros ?%elem_of_nil); by left].
  destruct (fetch_transactions b token) as [| |data]; simpl.
  - repeat split; try done; [intros _; by right; left | by left].
  - repeat split; try done; [|by left].
    intros Hin. apply elem_of_cons in Hin as [Hin|Hin]; [done|].
    by apply elem_of_nil in Hin.
  - destruct (forTransactions_frame b token (default [] data) self) as (Ha & Hc & Hu).
    destruct (forTransactions_running b token (default [] data) self) as (Hr & _ & He).
    destruct (finished (MessageNotifier.forTransactions b token (default [] data) self));
      simpl.
    + repeat split; try done; [|by right].
      intros Hin. apply elem_of_cons in Hin as [Hin|Hin]; [done|]. by destruct He.
    + repeat split; try done; [|by left].
      intros _. right. apply elem_of_app. right. by left.
Qed.

(** X22. A pass makes no request at all exactly when nobody is signed in to
    the notifier, the page is hidden, or there is no token; and then it
    leaves the notifier as it is. In every other case its first event is the
    request for the list of transactions. *)
Theorem pass_silent_iff (b : Browser) (self : MessageNotifier) :
  let pass := MessageNotifier.checkForNewMessages b self in
  (events pass = []
   ↔ truthy (currentUserId self) = None ∨ document_hidden b = true
     ∨ truthy (localStorage_token b) = None)
  ∧ (events pass = [] → this pass = self ∧ finished pass = true)
  ∧ (events pass ≠ [] → head (events pass) = Some Fetch_transactions).
Proof.
  unfold MessageNotifier.checkForNewMessages.
  destruct (truthy (currentUserId self)); [|simpl; by intuition].
  destruct (document_hidden b); [simpl; by intuition|].
  destruct (truthy (localStorage_token b)) as [token|]; [|simpl; by intuition].
  destruct (fetch_transactions b token) as [| |data]; simpl.
  - split; [|done]. split; [done|]. by intros [|[|]].
  - split; [|done]. split; [done|]. by intros [|[|]].
  - destruct (finished _); simpl.
    + split; [|done]. split; [done|]. by intros [|[|]].
    + split; [|done]. split; [done|]. by intros [|[|]].
Qed.

(** X23. After [start] the notifier runs for the user it was started for, and
    the set of suppressed transactions is the one from before: neither
    [stop] nor a start for another user clears it. *)
Theorem start_keeps_suppression (b : Browser) (userId : string)
    (self : MessageNotifier) :
  let started := this (MessageNotifier.start b userId self) in
  isRunning started = true
  ∧ currentUserId started = Some userId
  ∧ activeTransactionIds started = activeTransactionIds self
  ∧ activeTransactionIds (MessageNotifier.stop self) = activeTransactionIds self.
Proof.
  unfold MessageNotifier.start.
  destruct (isRunning self) eqn:Hrun; simpl.
  - case_bool_decide as Hsame; simpl.
    + by repeat split.
    + match goal with
      | |- context [MessageNotifier.checkForNewMessages b ?s] =>
          destruct (pass_frame b s) as (Hr & Hu & Ha)
      end.
      rewrite Hr, Hu, Ha. by repeat split.
  - match goal with
    | |- context [MessageNotifier.checkForNewMessages b ?s] =>
        destruct (pass_frame b s) as (Hr & Hu & Ha)
    end.
    rewrite Hr, Hu, Ha. by repeat split.
Qed.

(** X24. Every message request of the pass that [start] runs asks for the
    messages after the instant of the start: the watermarks the notifier
    held before, for the same or for another user, are not used, and a
    transaction suppressed before the start is not asked for. *)
Theorem start_forgets_watermarks (b : Browser) (userId : string)
    (self : MessageNotifier) (id : string) (after : option Z)
    (answer : Fetched (option (list Message))) :
  (∀ token data, fetch_transactions b token = Ok data →
     NoDup (j_id <$> default [] data)) →
  Fetch_new id after answer ∈ events (MessageNotifier.start b userId self) →
  after = Some (page_clock b) ∧ (id ∉ activeTransactionIds self).
Proof.
  intros Hnodup. unfold MessageNotifier.start.
  assert (∀ running interval,
    Fetch_new id after answer
      ∈ events (MessageNotifier.checkForNewMessages b
                  (mkMessageNotifier running interval (Some (page_clock b))
                     (Some userId) (activeTransactionIds self) ∅)) →
    after = Some (page_clock b) ∧ (id ∉ activeTransactionIds self)) as Hfresh.
  { intros running interval Hin.
    apply checkForNewMessages_request in Hin as (token & data & _ & Hlist & Hin).
    apply forTransactions_request in Hin as (_ & Hact & -> & _);
      [|by eapply Hnodup].
    split; [|done]. unfold MessageNotifier.lastKnownTime. simpl.
    by rewrite lookup_empty. }
  destruct (isRunning self); simpl.
  - case_bool_decide; simpl; [by intros ?%elem_of_nil|]. apply Hfresh.
  - apply Hfresh.
Qed.

(** ** The toast store *)

Lemma notify_lookup (x : list Toasts.ToastItem) (ls : list nat)
    (m : gmap nat (list Toasts.ToastItem)) (l : nat) :
  foldl (λ views l, <[l := x]> views) m ls !! l
  = if decide (l ∈ ls) then Some x else m !! l.
Proof.
  revert m. induction ls as [|l' ls IH]; intros m.
  - case_decide as Hin; [by apply elem_of_nil in Hin|done].
  - cbn [foldl]. rewrite IH. repeat case_decide; try done.
    + exfalso. match goal with Hn : l ∉ l' :: ls |- _ => apply Hn end. by right.
    + match goal with Hc : l ∈ l' :: ls |- _ => apply elem_of_cons in Hc as [->|?] end;
        [by rewrite lookup_insert_eq|done].
    + rewrite lookup_insert_ne; [done|]. intros ->.
      match goal with Hn : l ∉ l :: ls |- _ => apply Hn end. by left.
Qed.

Lemma notifyListeners_seen (st : Toasts.Store) (l : nat) :
  l ∈ Toasts.toastListeners st →
  Toasts.seen (Toasts.notifyListeners st) !! l = Some (Toasts.toasts st).
Proof. intros Hin. simpl. rewrite notify_lookup. by rewrite decide_True. Qed.

Lemma removeAll_fields (due : list (Z * string)) (st : Toasts.Store) :
  let st' := foldl (λ st p, Toasts.removeToast p.2 st) st due in
  (∀ t, t ∈ Toasts.toasts st' ↔ t ∈ Toasts.toasts st ∧ Toasts.item_id t ∉ due.*2)
  ∧ Toasts.toastListeners st' = Toasts.toastListeners st
  ∧ Toasts.timeouts st' = Toasts.timeouts st.
Proof.
  revert st. induction due as [|[at_ id] due IH]; intros st; simpl.
  - split; [|done]. intros t. split; [|by intros [? _]].
    intros Hin. split; [done|]. apply not_elem_of_nil.
  - destruct (IH (Toasts.removeToast id st)) as (Hto & -> & ->). simpl.
    split; [|done]. intros t. rewrite Hto. simpl.
    rewrite list_elem_of_filter, not_elem_of_cons. tauto.
Qed.

Lemma removeAll_in_sync (due : list (Z * string)) (st : Toasts.Store) :
  (∀ l, l ∈ Toasts.toastListeners st → Toasts.seen st !! l = Some (Toasts.toasts st)) →
  let st' := foldl (λ st p, Toasts.removeToast p.2 st) st due in
  ∀ l, l ∈ Toasts.toastListeners st' → Toasts.seen st' !! l = Some (Toasts.toasts st').
Proof.
  revert st. induction due as [|[at_ id] due IH]; intros st Hsync; simpl; [done|].
  apply IH. intros l Hin. simpl in *. rewrite notify_lookup. by rewrite decide_True.
Qed.

(** Every listener holds the list of the store. *)
Lemma step_in_sync (st : Toasts.Store) (s : Toasts.Step) :
  (∀ l, l ∈ Toasts.toastListeners st → Toasts.seen st !! l = Some (Toasts.toasts st)) →
  ∀ l, l ∈ Toasts.toastListeners (Toasts.step st s) →
       Toasts.seen (Toasts.step st s) !! l = Some (Toasts.toasts (Toasts.step st s)).
Proof.
  intros Hsync l. destruct s as [now id toast|id|l'|l'|now]; simpl.
  - unfold Toasts.showToast. cbn [Toasts.item_duration].
    destruct (Toasts.spread_duration _) as [duration|];
      [case_bool_decide|]; simpl; intros Hin;
      rewrite notify_lookup; by rewrite decide_True.
  - intros Hin. rewrite notify_lookup. by rewrite decide_True.
  - intros [Hin| ->%list_elem_of_singleton]%elem_of_app.
    + destruct (decide (l = l')) as [->|Hne];
        [by rewrite lookup_insert_eq | rewrite lookup_insert_ne by done; by apply Hsync].
    + by rewrite lookup_insert_eq.
  - intros [_ Hin]%list_elem_of_filter. by apply Hsync.
  - unfold Toasts.elapse. by apply removeAll_in_sync.
Qed.

(** X25. At every moment each mounted toast container holds the list of the
    store: after any sequence of toasts shown and removed, containers
    mounted and unmounted, and timeouts fired, the list a subscribed
    listener was last called with is the current list of toasts. *)
Theorem listeners_in_sync (steps : list Toasts.Step) (l : nat) :
  let st := foldl Toasts.step Toasts.empty steps in
  l ∈ Toasts.toastListeners st → Toasts.seen st !! l = Some (Toasts.toasts st).
Proof.
  simpl. revert l.
  assert (∀ st,
    (∀ l, l ∈ Toasts.toastListeners st → Toasts.seen st !! l = Some (Toasts.toasts st)) →
    ∀ l, l ∈ Toasts.toastListeners (foldl Toasts.step st steps) →
         Toasts.seen (foldl Toasts.step st steps) !! l
         = Some (Toasts.toasts (foldl Toasts.step st steps))) as Hall.
  { induction steps as [|s steps IH]; intros st Hsync; simpl; [done|].
    apply IH. by apply step_in_sync. }
  apply Hall. simpl. by intros l ?%elem_of_nil.
Qed.

Lemma elapse_fields (now : Z) (st : Toasts.Store) :
  (∀ t, t ∈ Toasts.toasts (Toasts.elapse now st)
        ↔ t ∈ Toasts.toasts st
          ∧ ∀ due, (due, Toasts.item_id t) ∈ Toasts.timeouts st → now < due)
  ∧ (∀ p, p ∈ Toasts.timeouts (Toasts.elapse now st)
          ↔ p ∈ Toasts.timeouts st ∧ now < p.1).
Proof.
  unfold Toasts.elapse.
  destruct (removeAll_fields (filter (λ p : Z * string, p.1 ≤ now) (Toasts.timeouts st))
              (Toasts.mkStore (Toasts.toasts st) (Toasts.toastListeners st)
                 (Toasts.seen st)
                 (filter (λ p : Z * string, ¬ p.1 ≤ now) (Toasts.timeouts st))))
    as (Hto & _ & Hti).
  split.
  - intros t. rewrite Hto. simpl. split; intros [Hin Hdue]; (split; [done|]).
    + intros due Hp. destruct (decide (due ≤ now)) as [Hle|]; [|lia].
      exfalso. apply Hdue. apply list_elem_of_fmap. exists (due, Toasts.item_id t).
      split; [done|]. by apply list_elem_of_filter.
    + intros ([due id] & Hid & [Hle Hp]%list_elem_of_filter)%list_elem_of_fmap.
      simpl in *. subst id. specialize (Hdue _ Hp). lia.
  - intros p. rewrite Hti. simpl. rewrite list_elem_of_filter. split.
    + intros [? ?]. split; [done|lia].
    + intros [? ?]. split; [lia|done].
Qed.

(** A toast with a positive duration has a timeout pending for its id. *)
Lemma step_covered (st : Toasts.Store) (s : Toasts.Step) :
  (∀ t d, t ∈ Toasts.toasts st → Toasts.item_duration t = Some d → 0 < d →
          ∃ due, (due, Toasts.item_id t) ∈ Toasts.timeouts st) →
  ∀ t d, t ∈ Toasts.toasts (Toasts.step st s) →
         Toasts.item_duration t = Some d → 0 < d →
         ∃ due, (due, Toasts.item_id t) ∈ Toasts.timeouts (Toasts.step st s).
Proof.
  intros Hcov t d. destruct s as [now id toast|id|l'|l'|now]; simpl; try apply Hcov.
  - unfold Toasts.showToast. cbn [Toasts.item_duration].
    destruct (Toasts.spread_duration (Toasts.arg_duration toast)) as [duration|]
      eqn:Hduration; [case_bool_decide as Hd|]; simpl.
    + intros [Hin| ->%list_elem_of_singleton]%elem_of_app Hsome Hpos.
      * destruct (Hcov t d Hin Hsome Hpos) as [due Hdue]. exists due.
        apply elem_of_app. by left.
      * eexists. apply elem_of_app. right. by left.
    + intros [Hin| ->%list_elem_of_singleton]%elem_of_app Hsome Hpos.
      * by eapply Hcov.
      * simpl in Hsome. injection Hsome as ->. exfalso. apply Hd. split; lia.
    + intros [Hin| ->%list_elem_of_singleton]%elem_of_app Hsome Hpos.
      * by eapply Hcov.
      * done.
  - intros [_ Hin]%list_elem_of_filter. by apply Hcov.
  - destruct (elapse_fields now st) as [Hto Hti].
    intros [Hin Hlater]%Hto Hsome Hpos.
    destruct (Hcov t d Hin Hsome Hpos) as [due Hdue].
    exists due. apply Hti. split; [done|]. by apply Hlater.
Qed.

Lemma steps_covered (steps : list Toasts.Step) (t : Toasts.ToastItem) (d : Z) :
  let st := foldl Toasts.step Toasts.empty steps in
  t ∈ Toasts.toasts st → Toasts.item_duration t = Some d → 0 < d →
  ∃ due, (due, Toasts.item_id t) ∈ Toasts.timeouts st.
Proof.
  simpl. revert t d.
  assert (∀ st,
    (∀ t d, t ∈ Toasts.toasts st → Toasts.item_duration t = Some d → 0 < d →
            ∃ due, (due, Toasts.item_id t) ∈ Toasts.timeouts st) →
    ∀ t d, t ∈ Toasts.toasts (foldl Toasts.step st steps) →
           Toasts.item_duration t = Some d → 0 < d →
           ∃ due, (due, Toasts.item_id t)
                    ∈ Toasts.timeouts (foldl Toasts.step st steps)) as Hall.
  { induction steps as [|s steps IH]; intros st Hcov; simpl; [done|].
    apply IH. by apply step_covered. }
  apply Hall. simpl. by intros t d ?%elem_of_nil.
Qed.

(** X26. No toast with a positive duration stays for ever: after any sequence
    of toasts shown and removed, containers mounted and unmounted, and
    timeouts fired, once the time is past every pending timeout the store
    holds no toast whose duration is a positive number (what is left has a
    duration of zero, a negative one, or [undefined]), and no timeout is
    pending. *)
Theorem toasts_expire (steps : list Toasts.Step) (now : Z) :
  let st := foldl Toasts.step Toasts.empty steps in
  (∀ p, p ∈ Toasts.timeouts st → p.1 ≤ now) →
  Toasts.timeouts (Toasts.elapse now st) = []
  ∧ ∀ t d, t ∈ Toasts.toasts (Toasts.elapse now st) →
           Toasts.item_duration t = Some d → d ≤ 0.
Proof.
  intros st Hpast. destruct (elapse_fields now st) as [Hto Hti]. split.
  - apply elem_of_nil_inv. intros p [Hp Hlater]%Hti. specialize (Hpast p Hp). lia.
  - intros t d [Hin Hlater]%Hto Hsome.
    destruct (decide (0 < d)) as [Hpos|]; [|lia].
    destruct (steps_covered steps t d Hin Hsome Hpos) as [due Hdue].
    specialize (Hpast _ Hdue). specialize (Hlater _ Hdue). simpl in *. lia.
Qed.

(** Up to 2147483647 ms the timer waits for the delay it is given. *)
Lemma timerDelay_small (ms : Z) :
  0 ≤ ms ≤ 2147483647 → Toasts.timerDelay ms = ms.
Proof.
  intros Hms. unfold Toasts.timerDelay. rewrite Z.mod_small by lia. lia.
Qed.

(** X27. The life of one toast. A toast shown at [now] under an id that no
    pending timeout carries, with no [duration] (5000 ms then), with
    [duration: undefined], or with a duration of at most 2147483647 ms, is
    in the store at a later instant, when only timeouts have fired in
    between, exactly when its duration is [undefined], zero or negative, or
    the instant is before [now] plus the duration. *)
Theorem toast_lifetime (st : Toasts.Store) (now later : Z) (id : string)
    (toast : Toasts.ToastArg) :
  id ∉ (Toasts.timeouts st).*2 →
  (∀ d, Toasts.arg_duration toast = Toasts.Given d → d ≤ 2147483647) →
  (∃ t, t ∈ Toasts.toasts (Toasts.elapse later (Toasts.showToast now id toast st))
        ∧ Toasts.item_id t = id)
  ↔ match Toasts.arg_duration toast with
    | Toasts.Absent => later < now + 5000
    | Toasts.Undefined => True
    | Toasts.Given d => d ≤ 0 ∨ later < now + d
    end.
Proof.
  intros Hfresh Hrange.
  destruct (elapse_fields later (Toasts.showToast now id toast st)) as [Hto _].
  set (new := Toasts.mkToastItem id (Toasts.arg_type toast) (Toasts.arg_title toast)
                (Toasts.arg_message toast) (Toasts.arg_actionUrl toast)
                (Toasts.arg_actionLabel toast)
                (Toasts.spread_duration (Toasts.arg_duration toast))).
  assert (∀ due, (due, id) ∉ Toasts.timeouts st) as Hold.
  { intros due Hin. apply Hfresh. apply list_elem_of_fmap. by exists (due, id). }
  assert (∀ d, Toasts.spread_duration (Toasts.arg_duration toast) = Some d →
               d ≤ 2147483647) as Hsmall.
  { intros d Hd. destruct (Toasts.arg_duration toast) as [| |given] eqn:Hgiven;
      simpl in Hd; simplify_eq; [lia|by apply Hrange]. }
  assert ((∃ t, t ∈ Toasts.toasts
                      (Toasts.elapse later (Toasts.showToast now id toast st))
                ∧ Toasts.item_id t = id)
          ↔ match Toasts.spread_duration (Toasts.arg_duration toast) with
            | Some d => d ≤ 0 ∨ later < now + d
            | None => True
            end) as Hlife.
  { unfold Toasts.showToast in *. fold new in Hto |- *.
    cbn [Toasts.item_duration new] in Hto |- *.
    destruct (Toasts.spread_duration (Toasts.arg_duration toast)) as [d|] eqn:Hd.
    - destruct (decide (d ≠ 0 ∧ 0 < d)) as [Hpos|Hnot].
      + rewrite bool_decide_eq_true_2 in Hto |- * by done. simpl in *.
        rewrite timerDelay_small in Hto |- * by (specialize (Hsmall d eq_refl); lia).
        split.
        * intros (t & [_ Hlater]%Hto & <-). right. apply Hlater.
          apply elem_of_app. right. by left.
        * intros [?|Hbefore]; [lia|]. exists new. split; [|done].
          apply Hto. split; [apply elem_of_app; right; by left|].
          simpl. intros due [Hin|Hnew%list_elem_of_singleton]%elem_of_app.
          -- by destruct (Hold due).
          -- injection Hnew as ->. lia.
      + rewrite bool_decide_eq_false_2 in Hto |- * by done. simpl in *. split.
        * intros _. left. lia.
        * intros _. exists new. split; [|done].
          apply Hto. split; [apply elem_of_app; right; by left|].
          simpl. intros due Hin. by destruct (Hold due).
    - simpl in *. split; [done|]. intros _. exists new. split; [|done].
      apply Hto. split; [apply elem_of_app; right; by left|].
      simpl. intros due Hin. by destruct (Hold due). }
  rewrite Hlife. destruct (Toasts.arg_duration toast); simpl; [|done..].
  split; [intros [?|?]; [lia|done] | by right].
Qed.

(** A duration of 2147483648 ms does not keep the toast for 24 days: the
    timer is due at once. *)
Example toast_delay_overflow :
  Toasts.timerDelay 2147483648 = 0
  ∧ Toasts.toasts
      (Toasts.elapse 1
         (Toasts.showToast 0 "a"
            (Toasts.mkToastArg "info" "Saved" "" None None (Toasts.Given 2147483648))
            Toasts.empty)) = [].
Proof. vm_compute. by split. Qed.

(** ** The pay route's own authentication *)

Lemma substring_whole (s : string) : String.substring 0 (String.length s) s = s.
Proof. induction s as [|c s IH]; [done|]. simpl. by rewrite IH. Qed.

Lemma prefix_append (p s : string) : String.prefix p (p +:+ s) = true.
Proof.
  induction p as [|c p IH]; [by destruct s|].
  change (String c p +:+ s) with (String c (p +:+ s)). cbn [String.prefix].
  by destruct (Ascii.ascii_dec c c).
Qed.

Lemma substring_append (p s : string) :
  String.substring (String.length p) (String.length (p +:+ s) - String.length p)
                   (p +:+ s) = s.
Proof.
  induction p as [|c p IH].
  - change ("" +:+ s) with s. cbn [String.length]. by rewrite Nat.sub_0_r, substring_whole.
  - change (String c p +:+ s) with (String c (p +:+ s)). exact IH.
Qed.

(** X28. The pay route does not use the shared [getUserFromRequest]: it
    verifies the bearer token itself, and when the environment gives no
    [JWT_SECRET] (or an empty one) it verifies against the secret that is
    written in the source. *)
Theorem pay_fallback_secret `{Externals} (request : Request Json) (token : string) :
  truthy env_JWT_SECRET = None →
  header_authorization request = Some ("Bearer " +:+ token) →
  caller pay request
  = truthy (verify token "quickgrab-secret-key-change-in-production").
Proof.
  intros Henv Hheader. simpl. unfold Pay.getUserFromRequest, Pay.JWT_SECRET.
  rewrite Henv, Hheader. rewrite prefix_append.
  change 7%nat with (String.length "Bearer "). by rewrite substring_append.
Qed.

(** ** The further properties on the small deployment *)

Lemma unauthenticated_rejected_witness :
  @route Sample.externals markPaid (mkRequest None "tx1" (Some []) None None)
    (Sample.world MEETING [] [])
  = (error 401 "Unauthorized", Sample.world MEETING [] []).
Proof. apply (@unauthenticated_rejected Sample.externals). reflexivity. Defined.

Lemma request_without_body_fails_witness :
  @route Sample.externals confirmDelivery
    (mkRequest (Some "Bearer bob") "tx1" None None None) (Sample.world PAID [] [])
  = (error 500 "Internal server error", Sample.world PAID [] []).
Proof.
  apply (@request_without_body_fails Sample.externals confirmDelivery _ _ "bob");
    reflexivity.
Defined.

Lemma unknown_transaction_rejected_witness :
  ∃ w', @route Sample.externals markPaid (Sample.post "alice" "tx9" [])
          (Sample.world MEETING [] [])
        = (error 404 "Transaction not found", w')
        ∧ db w' = Sample.store MEETING [].
Proof.
  apply (@unknown_transaction_rejected Sample.externals markPaid
           (Sample.post "alice" "tx9" []) (Sample.world MEETING [] []) "tx9" "alice").
  - exists []. repeat split.
  - reflexivity.
  - reflexivity.
  - apply sample_calm.
Defined.

Lemma wrong_role_rejected_witness :
  ∃ msg w',
    @route Sample.externals pay
      (Sample.post "bob" "" [("transactionId", "tx1"); ("paymentId", "pay_1")])
      (Sample.world ACCEPTED [] [])
    = (error 403 msg, w')
    ∧ db w' = Sample.store ACCEPTED [].
Proof.
  apply (@wrong_role_rejected Sample.externals pay
           (Sample.post "bob" "" [("transactionId", "tx1"); ("paymentId", "pay_1")])
           (Sample.world ACCEPTED [] []) "tx1" "bob" (Sample.deal ACCEPTED)).
  - exists [("transactionId", "tx1"); ("paymentId", "pay_1")].
    split; [reflexivity|]. by exists "pay_1".
  - reflexivity.
  - reflexivity.
  - apply sample_integrity.
  - apply sample_calm.
  - simpl. discriminate.
Defined.

Lemma valid_operation_accepted_witness :
  r_status (@route Sample.externals setMeetup
              (Sample.post "bob" "tx1" [("location", "Library")])
              (Sample.world REQUESTED [] [])).1 = 200
  ∧ ∃ data, writes setMeetup (Sample.deal REQUESTED) data
      ∧ db (@route Sample.externals setMeetup
              (Sample.post "bob" "tx1" [("location", "Library")])
              (Sample.world REQUESTED [] [])).2
        = withTransactions
            <["tx1" := applyTransactionData data (Sample.deal REQUESTED)]>
            (Sample.store REQUESTED []).
Proof.
  apply (@valid_operation_accepted Sample.externals setMeetup
           (Sample.post "bob" "tx1" [("location", "Library")])
           (Sample.world REQUESTED [] []) "tx1" "bob" (Sample.deal REQUESTED)).
  - discriminate.
  - exists [("location", "Library")]. split; [reflexivity|].
    split; [reflexivity|]. by exists "Library".
  - reflexivity.
  - reflexivity.
  - apply sample_integrity.
  - by right.
  - by left.
  - apply sample_calm.
Defined.

Lemma single_write_all_or_nothing_witness :
  let after := (@route Sample.externals confirmDelivery (Sample.post "bob" "tx1" [])
                  (Sample.world PAID [true] [])) in
  items (db after.2) = items (Sample.store PAID [])
  ∧ users (db after.2) = users (Sample.store PAID [])
  ∧ messages (db after.2) = messages (Sample.store PAID [])
  ∧ (r_status after.1 ≠ 200 → db after.2 = Sample.store PAID [])
  ∧ (r_status after.1 = 200 →
     ∃ id t data, transactions (Sample.store PAID []) !! id = Some t
       ∧ writes confirmDelivery t data
       ∧ transactions (db after.2)
         = <[id := applyTransactionData data t]> (transactions (Sample.store PAID []))).
Proof.
  apply (@single_write_all_or_nothing Sample.externals confirmDelivery
           (Sample.post "bob" "tx1" []) (Sample.world PAID [true] [])).
  discriminate.
Defined.

Lemma only_role_holders_write_witness :
  ∃ id t userId,
    transactions (Sample.store ACCEPTED []) !! id = Some t
    ∧ @caller Sample.externals pay
        (Sample.post "alice" "" [("transactionId", "tx1"); ("paymentId", "pay_1")])
      = Some userId
    ∧ has_role pay t userId
    ∧ t_status t ∈ precondition pay.
Proof.
  apply (@only_role_holders_write Sample.externals pay
           (Sample.post "alice" "" [("transactionId", "tx1"); ("paymentId", "pay_1")])
           (Sample.world ACCEPTED [] [])).
  intros Hsame.
  apply (f_equal (λ d, t_status <$> transactions d !! "tx1")) in Hsame.
  vm_compute in Hsame. discriminate.
Defined.

Lemma terminal_is_final_witness :
  transactions
    (db (@route Sample.externals markReceived (Sample.post "alice" "tx1" [])
           (Sample.world COMPLETED [] [])).2) !! "tx1"
  = Some (Sample.deal COMPLETED).
Proof.
  apply (@terminal_is_final Sample.externals).
  - reflexivity.
  - by left.
Defined.

Lemma history_follows_edges_witness :
  ∃ t', transactions
          (db (@history Sample.externals
                 [(setMeetup, Sample.post "bob" "tx1" [("location", "Library")]);
                  (markPaid, Sample.post "alice" "tx1" [])]
                 (Sample.world REQUESTED [] []))) !! "tx1" = Some t'
        ∧ same_deal (Sample.deal REQUESTED) t'
        ∧ rtc edge REQUESTED (t_status t').
Proof.
  apply (@history_follows_edges Sample.externals _ _ "tx1" (Sample.deal REQUESTED)).
  reflexivity.
Defined.

Lemma buyer_completes_alone_witness :
  let w' := @history Sample.externals
              [(setMeetup, Sample.post "alice" "tx1" [("location", "Library")]);
               (markPaid, Sample.post "alice" "tx1" []);
               (markReceived, Sample.post "alice" "tx1" [])]
              (Sample.world REQUESTED [] []) in
  (∃ t', transactions (db w') !! "tx1" = Some t'
         ∧ t_status t' = COMPLETED
         ∧ t_paymentId t' = Some "physical_payment")
  ∧ (∃ item, items (db w') !! "lamp" = Some item
             ∧ i_availabilityStatus item = "SOLD").
Proof.
  apply (@buyer_completes_alone Sample.externals
           (Sample.post "alice" "tx1" [("location", "Library")])
           (Sample.post "alice" "tx1" []) (Sample.post "alice" "tx1" [])
           (Sample.world REQUESTED [] []) "tx1" (Sample.deal REQUESTED)).
  - exists [("location", "Library")]. split; [reflexivity|].
    split; [reflexivity|]. by exists "Library".
  - exists []. repeat split.
  - exists []. repeat split.
  - reflexivity.
  - reflexivity.
  - reflexivity.
  - reflexivity.
  - apply sample_integrity.
  - by left.
  - apply sample_calm.
Defined.

Lemma delivery_confirmed_bars_receipt_witness :
  let w' := @history Sample.externals
              [(confirmDelivery, Sample.post "bob" "tx1" []);
               (setMeetup, Sample.post "alice" "tx1" [("location", "Library")]);
               (markReceived, Sample.post "alice" "tx1" [])]
              (@route Sample.externals confirmDelivery (Sample.post "bob" "tx1" [])
                 (Sample.world PAID [] [])).2 in
  r_status (@route Sample.externals markReceived (Sample.post "alice" "tx1" []) w').1
  ≠ 200
  ∧ db (@route Sample.externals markReceived (Sample.post "alice" "tx1" []) w').2
    = db w'.
Proof.
  apply (@delivery_confirmed_bars_receipt Sample.externals
           (Sample.post "bob" "tx1" []) (Sample.post "alice" "tx1" [])
           [(confirmDelivery, Sample.post "bob" "tx1" []);
            (setMeetup, Sample.post "alice" "tx1" [("location", "Library")]);
            (markReceived, Sample.post "alice" "tx1" [])]
           (Sample.world PAID [] [])).
  - vm_compute. reflexivity.
  - repeat constructor; discriminate.
  - reflexivity.
Defined.

Lemma online_payment_id_replaced_witness :
  let w2 := @history Sample.externals
              [(pay, Sample.post "alice" ""
                       [("transactionId", "tx1"); ("paymentId", "pay_1")]);
               (confirmDelivery, Sample.post "bob" "tx1" [])]
              (Sample.world ACCEPTED [] [1]) in
  let w4 := @history Sample.externals
              [(markPaid, Sample.post "alice" "tx1" []);
               (markReceived, Sample.post "alice" "tx1" [])] w2 in
  (∃ t2, transactions (db w2) !! "tx1" = Some t2
         ∧ t_status t2 = MEETING ∧ t_paymentId t2 = Some "pay_1")
  ∧ (∃ t4, transactions (db w4) !! "tx1" = Some t4
           ∧ t_status t4 = COMPLETED
           ∧ t_paymentId t4 = Some "physical_payment"
           ∧ t_countdownStart t4 = Some 1000).
Proof.
  apply (@online_payment_id_replaced Sample.externals
           (Sample.post "alice" "" [("transactionId", "tx1"); ("paymentId", "pay_1")])
           (Sample.post "bob" "tx1" []) (Sample.post "alice" "tx1" [])
           (Sample.post "alice" "tx1" []) (Sample.world ACCEPTED [] [1])
           "tx1" "pay_1" (Sample.deal ACCEPTED)
           [("transactionId", "tx1"); ("paymentId", "pay_1")]).
  - reflexivity.
  - reflexivity.
  - exists []. repeat split.
  - exists []. repeat split.
  - exists []. repeat split.
  - reflexivity.
  - reflexivity.
  - reflexivity.
  - reflexivity.
  - reflexivity.
  - apply sample_integrity.
  - reflexivity.
  - apply sample_calm.
Defined.

Lemma new_messages_private_witness :
  let request := @get Sample.externals "alice" "tx1" (Some 1500) in
  let w := mkWorld (Sample.store PAID [Sample.hello; Sample.bye]) [] 9000 [] in
  ∃ userId t msgs,
    truthy (@getUserFromRequest Sample.externals request) = Some userId
    ∧ transactions (db w) !! "tx1" = Some t
    ∧ (t_buyerId t = userId ∨ t_sellerId t = userId)
    ∧ r_json (@NewMessages.GET Sample.externals request w).1
      = JMessages msgs (length msgs)
    ∧ (length msgs ≤ 50)%nat
    ∧ ∀ m, m ∈ msgs →
        m ∈ messages (db w) ∧ m_transactionId m = "tx1"
        ∧ ∀ after, query_after request = Some (ValidDate after) →
            after - 500 < m_createdAt m.
Proof.
  apply (@new_messages_private Sample.externals
           (@get Sample.externals "alice" "tx1" (Some 1500))
           (mkWorld (Sample.store PAID [Sample.hello; Sample.bye]) [] 9000 [])).
  vm_compute. reflexivity.
Defined.

Lemma transactions_list_entries_witness :
  let request := @get Sample.externals "bob" "" None in
  let w := mkWorld Sample.store_two [] 9000 [] in
  ∃ userId entries,
    truthy (@getUserFromRequest Sample.externals request) = Some userId
    ∧ r_json (@Transactions.GET Sample.externals request w).1
      = JTransactions entries (length entries)
    ∧ (∀ e, e ∈ entries →
         ∃ id t other,
           transactions (db w) !! id = Some t
           ∧ (t_buyerId t = userId ∨ t_sellerId t = userId)
           ∧ j_id e = t_id t
           ∧ j_status e = Some (t_status t)
           ∧ j_role e = Some (if decide (t_buyerId t = userId)
                              then "buyer" else "seller")
           ∧ users (db w) !! (if decide (t_buyerId t = userId)
                              then t_sellerId t else t_buyerId t) = Some other
           ∧ j_otherParty e = Some (mkParty (u_id other) (u_name other))
           ∧ j_buyer e = None ∧ j_seller e = None)
    ∧ (query_status request ∈ [None; Some ""; Some "all"] →
       ∀ id t, transactions (db w) !! id = Some t →
         t_buyerId t = userId ∨ t_sellerId t = userId →
         ∃ e, e ∈ entries ∧ j_id e = t_id t ∧ j_status e = Some (t_status t)).
Proof.
  apply (@transactions_list_entries Sample.externals
           (@get Sample.externals "bob" "" None)
           (mkWorld Sample.store_two [] 9000 [])).
  vm_compute. reflexivity.
Defined.

Lemma latest_message_is_newest_witness :
  let w := mkWorld (Sample.store PAID [Sample.hello; Sample.bye]) [] 9000 [] in
  ∃ m sender,
    m ∈ messages (db w) ∧ m_transactionId m = "tx1"
    ∧ users (db w) !! m_senderId m = Some sender
    ∧ mkLatestMessage "m3" "bye" "bob" "Bob" 7000
      = mkLatestMessage (m_id m) (m_content m) (m_senderId m) (u_name sender)
                        (m_createdAt m)
    ∧ ∀ m', m' ∈ messages (db w) → m_transactionId m' = "tx1" →
        m_createdAt m' ≤ 7000.
Proof.
  apply (@latest_message_is_newest Sample.externals
           (@get Sample.externals "alice" "" None)
           (mkWorld (Sample.store PAID [Sample.hello; Sample.bye]) [] 9000 [])
           [mkTransactionJson "tx1" (Some PAID) None (Some "Desk lamp") None None
              (Some (mkParty "bob" "Bob"))
              (Some (mkLatestMessage "m3" "bye" "bob" "Bob" 7000))
              (Some "buyer")]
           1%nat
           (mkTransactionJson "tx1" (Some PAID) None (Some "Desk lamp") None None
              (Some (mkParty "bob" "Bob"))
              (Some (mkLatestMessage "m3" "bye" "bob" "Bob" 7000))
              (Some "buyer"))).
  - vm_compute. reflexivity.
  - by left.
Defined.

Lemma detail_newest_fifty_witness :
  let request := @get Sample.externals "alice" "tx1" None in
  let w := mkWorld (Sample.store PAID Sample.burst) [] 9000 [] in
  ∃ detail,
    (@TransactionById.GET Sample.externals request w).1 = mkAnswer 200 (inl detail)
    ∧ ∃ userId,
        let t := TransactionById.det_transaction detail in
        let msgs := (TransactionById.det_messages detail).*1 in
        truthy (@getUserFromRequest Sample.externals request) = Some userId
        ∧ transactions (db w) !! "tx1" = Some t
        ∧ (t_buyerId t = userId ∨ t_sellerId t = userId)
        ∧ (length msgs ≤ 50)%nat
        ∧ StronglySorted Transactions.createdAt_desc msgs
        ∧ (∀ m, m ∈ msgs → m ∈ messages (db w) ∧ m_transactionId m = t_id t)
        ∧ (∀ m o, m ∈ msgs → o ∈ messages (db w) → m_transactionId o = t_id t →
             o ∉ msgs → m_createdAt o ≤ m_createdAt m).
Proof.
  intros request w.
  destruct (@TransactionById.GET Sample.externals request w).1
    as [status [detail|failure]] eqn:Hanswer; [|by vm_compute in Hanswer].
  assert (status = 200) as -> by (vm_compute in Hanswer; by injection Hanswer).
  exists detail. split; [reflexivity|].
  exact (@detail_newest_fifty Sample.externals request w detail Hanswer).
Defined.

Lemma message_accepted_in_any_status_witness :
  let request := Sample.post "bob" "tx1" [("content", "thanks")] in
  a_status (@SendMessage.POST Sample.externals More.messaging request
              (Sample.world COMPLETED [] [])).1 = 201
  ∧ ∃ m, messages (db (@SendMessage.POST Sample.externals More.messaging request
                          (Sample.world COMPLETED [] [])).2)
         = messages (Sample.store COMPLETED []) ++ [m]
         ∧ m_transactionId m = "tx1"
         ∧ m_senderId m = "bob" ∧ m_content m = "thanks".
Proof.
  apply (@message_accepted_in_any_status Sample.externals More.messaging
           (Sample.post "bob" "tx1" [("content", "thanks")])
           (Sample.world COMPLETED [] []) [("content", "thanks")] "thanks" "bob"
           (Sample.deal COMPLETED) COMPLETED).
  - reflexivity.
  - reflexivity.
  - reflexivity.
  - reflexivity.
  - reflexivity.
  - by right.
  - apply sample_integrity.
  - apply sample_calm.
Defined.

Lemma start_forgets_watermarks_witness :
  Some 9000
  = Some (page_clock (Sample.page_with [Sample.declared]
                        (Sample.store PAID [Sample.hello]) 9000))
  ∧ ("tx1" ∉ activeTransactionIds (MessageNotifier.stop (this Sample.first_pass))).
Proof.
  apply (start_forgets_watermarks
           (Sample.page_with [Sample.declared] (Sample.store PAID [Sample.hello]) 9000)
           "alice" (MessageNotifier.stop (this Sample.first_pass)) "tx1" (Some 9000)
           (Ok (Some []))).
  - intros token data [= <-]. simpl. apply NoDup_singleton.
  - vm_compute. apply list_elem_of_further, list_elem_of_here.
Defined.

Lemma listeners_in_sync_witness :
  let st := foldl Toasts.step Toasts.empty
              [Toasts.Subscribe 1;
               Toasts.Show 0 "a" (Toasts.mkToastArg "info" "Saved" "" None None Toasts.Absent);
               Toasts.Elapse 6000] in
  Toasts.seen st !! 1%nat = Some (Toasts.toasts st).
Proof.
  apply (listeners_in_sync
           [Toasts.Subscribe 1;
            Toasts.Show 0 "a" (Toasts.mkToastArg "info" "Saved" "" None None Toasts.Absent);
            Toasts.Elapse 6000] 1%nat).
  vm_compute. apply list_elem_of_here.
Defined.

Lemma toasts_expire_witness :
  let st := foldl Toasts.step Toasts.empty
              [Toasts.Show 0 "a" (Toasts.mkToastArg "info" "Saved" "" None None Toasts.Absent);
               Toasts.Show 10 "b"
                 (Toasts.mkToastArg "error" "Offline" "" None None (Toasts.Given 0))] in
  Toasts.timeouts (Toasts.elapse 5000 st) = []
  ∧ ∀ t d, t ∈ Toasts.toasts (Toasts.elapse 5000 st) →
           Toasts.item_duration t = Some d → d ≤ 0.
Proof.
  apply (toasts_expire
           [Toasts.Show 0 "a" (Toasts.mkToastArg "info" "Saved" "" None None Toasts.Absent);
            Toasts.Show 10 "b"
              (Toasts.mkToastArg "error" "Offline" "" None None (Toasts.Given 0))] 5000).
  intros p Hp. vm_compute in Hp. apply list_elem_of_singleton in Hp as ->.
  simpl. lia.
Defined.

Lemma toast_lifetime_witness :
  let toast := Toasts.arg_of (mkToast "message" "New message from Bob" "hello"
                                      "/chat/tx1" "View Chat" 6000) in
  (∃ t, t ∈ Toasts.toasts (Toasts.elapse 5999 (Toasts.showToast 0 "a" toast Toasts.empty))
        ∧ Toasts.item_id t = "a")
  ↔ 6000 ≤ 0 ∨ 5999 < 0 + 6000.
Proof.
  apply (toast_lifetime Toasts.empty 0 5999 "a"
           (Toasts.arg_of (mkToast "message" "New message from Bob" "hello"
                                   "/chat/tx1" "View Chat" 6000))).
  - simpl. apply not_elem_of_nil.
  - intros d [= <-]. lia.
Defined.

Lemma pay_fallback_secret_witness :
  @caller Sample.externals pay
    (Sample.post "alice" "" [("transactionId", "tx1"); ("paymentId", "pay_1")])
  = truthy (@verify Sample.externals "alice" "quickgrab-secret-key-change-in-production").
Proof.
  apply (@pay_fallback_secret Sample.externals
           (Sample.post "alice" "" [("transactionId", "tx1"); ("paymentId", "pay_1")])
           "alice"); reflexivity.
Defined.
